(** * local-tts-mcp: the engine abstraction, the router and the playback
      controller, embedded from the TypeScript sources.

    Conventions of the embedding.
    - A JavaScript string is a [string]; one character stands for one
      UTF-16 code unit below 256, so [String.length] is [.length].
    - A JavaScript number that is a speed multiplier is an IEEE-754
      binary64 value, a [spec_float] at precision 53; numbers that are
      integral by construction (lengths, sizes, exit codes, rates after
      [Math.round]) are integers.
    - [undefined] and [null] are [None].
    - A method that mutates [this] or the file system is a computation in
      a state-and-exception monad; a mutation made before a [throw]
      stays, as in JavaScript.
    - What the host answers (platform, child processes, clock) is read
      from a [World] record. *)

From Stdlib Require Import ZArith NArith String Ascii List Bool Lia.
From Stdlib Require Import SpecFloat DecimalString Permutation.
From stdpp Require Import gmap strings.
Import ListNotations.

Local Open Scope string_scope.
Local Open Scope Z_scope.
#[local] Set Warnings "-register-all".

(** ** JavaScript primitives used by the sources *)

Module JS.

Definition dquote : string := String (ascii_of_N 34) EmptyString.
Definition newline : string := String (ascii_of_N 10) EmptyString.

(** [String(n)] of an integer. *)
Definition showZ (n : Z) : string := NilZero.string_of_int (Z.to_int n).

(** [String(code)] of an exit code, [null] when a signal ended the child. *)
Definition showCode (code : option Z) : string :=
  match code with Some n => showZ n | None => "null" end.

(** White space and line terminators among the code units below 256. *)
Definition isWhiteSpace (c : ascii) : bool :=
  let n := N_of_ascii c in
  (((9 <=? n) && (n <=? 13)) || (n =? 32) || (n =? 160))%N.

Definition lowerChar (c : ascii) : ascii :=
  let n := N_of_ascii c in
  if (((65 <=? n) && (n <=? 90))
      || ((192 <=? n) && (n <=? 222) && negb (n =? 215)))%N
  then ascii_of_N (n + 32) else c.

Fixpoint toLowerCase (s : string) : string :=
  match s with
  | EmptyString => EmptyString
  | String c r => String (lowerChar c) (toLowerCase r)
  end.

Fixpoint trimStart (s : string) : string :=
  match s with
  | EmptyString => EmptyString
  | String c r => if isWhiteSpace c then trimStart r else s
  end.

Fixpoint trimEnd (s : string) : string :=
  match s with
  | EmptyString => EmptyString
  | String c r =>
      match trimEnd r with
      | EmptyString => if isWhiteSpace c then EmptyString else String c EmptyString
      | r' => String c r'
      end
  end.

Definition trim (s : string) : string := trimEnd (trimStart s).

(** [s.length] *)
Definition length (s : string) : Z := Z.of_nat (String.length s).

(** [hay.includes(needle)] *)
Fixpoint includes (hay needle : string) : bool :=
  String.prefix needle hay
  || match hay with
     | EmptyString => false
     | String _ r => includes r needle
     end.

(** [s.slice(0, n)] for [0 <= n] *)
Fixpoint take (n : nat) (s : string) : string :=
  match n, s with
  | S k, String c r => String c (take k r)
  | _, _ => EmptyString
  end.

(** [s.repeat(n)] *)
Definition repeat (s : string) (n : N) : string :=
  N.iter n (String.append s) EmptyString.

(** Truthiness of an optional string: [undefined] and the empty string
    are falsy. *)
Definition truthy (s : option string) : option string :=
  match s with
  | Some EmptyString | None => None
  | Some s => Some s
  end.

(** [a || b] on values that are objects or [undefined]. *)
Definition or {A : Type} (a b : option A) : option A :=
  match a with Some x => Some x | None => b end.

(** *** Numbers *)

Definition prec : Z := 53.
Definition emax : Z := 1024.

(** [x * y] on binary64. *)
Definition mul (x y : spec_float) : spec_float := SFmul prec emax x y.

(** The number literal [200]. *)
Definition n200 : spec_float := S754_finite false 7036874417766400 (-45).

(** The number literals [0.1], [1.0] and [3.0]: the doubles nearest to
    them. *)
Definition n0_1 : spec_float := S754_finite false 7205759403792794 (-56).
Definition n1 : spec_float := S754_finite false 4503599627370496 (-52).
Definition n3 : spec_float := S754_finite false 6755399441055744 (-51).

(** The [spec_float]s that are binary64 values: every number is one. *)
Definition valid (x : spec_float) : bool := valid_binary prec emax x.

(** [x <= y] on numbers. *)
Definition leb (x y : spec_float) : bool := SFleb x y.

(** [!x] of a number: zero (of either sign) and NaN are falsy. *)
Definition falsyNumber (x : option spec_float) : bool :=
  match x with
  | None | Some (S754_zero _) | Some S754_nan => true
  | Some _ => false
  end.

(** An integral number: the results of [Math.round]. The sign of a zero
    is dropped, no comparison sees it. *)
Inductive integral : Type :=
| NaN
| NegInfinity
| Infinity
| Int (z : Z).

(** [Math.round]: the integer nearest to [x], a tie going towards
    positive infinity, which is the floor of [x + 1/2] taken exactly. *)
Definition round (x : spec_float) : integral :=
  match x with
  | S754_nan => NaN
  | S754_infinity true => NegInfinity
  | S754_infinity false => Infinity
  | S754_zero _ => Int 0
  | S754_finite s m e =>
      let v := cond_Zopp s (Zpos m) in
      match e with
      | Zneg k => Int (Z.shiftr (v + 2 ^ (Zpos k - 1)) (Zpos k))
      | _ => Int (v * 2 ^ e)
      end
  end.

(** [Math.min(a, x)] and [Math.max(a, x)] for an integer literal [a]. *)
Definition min (a : Z) (x : integral) : integral :=
  match x with
  | NaN => NaN
  | NegInfinity => NegInfinity
  | Infinity => Int a
  | Int z => Int (Z.min a z)
  end.

Definition max (a : Z) (x : integral) : integral :=
  match x with
  | NaN => NaN
  | NegInfinity => Int a
  | Infinity => Infinity
  | Int z => Int (Z.max a z)
  end.

(** [n.toString()] *)
Definition showIntegral (x : integral) : string :=
  match x with
  | NaN => "NaN"
  | NegInfinity => "-Infinity"
  | Infinity => "Infinity"
  | Int z => showZ z
  end.

(** *** More string methods *)

(** [s.split(sep)] for a separator of one character. *)
Fixpoint split (sep : ascii) (s : string) : list string :=
  match s with
  | EmptyString => [EmptyString]
  | String c r =>
      if Ascii.eqb c sep then EmptyString :: split sep r
      else
        match split sep r with
        | piece :: pieces => String c piece :: pieces
        | [] => [String c EmptyString]
        end
  end.

(** [s.startsWith(prefix)] *)
Definition startsWith (s prefix : string) : bool := String.prefix prefix s.

(** [s.replace(a, b)] for strings [a] and [b] of one character: the
    first occurrence is replaced. *)
Fixpoint replace (a b : ascii) (s : string) : string :=
  match s with
  | EmptyString => EmptyString
  | String c r => if Ascii.eqb c a then String b r else String c (replace a b r)
  end.

(** The longest prefix of [s] whose characters satisfy [p], and the
    rest: what a greedy quantifier on a character class takes. *)
Fixpoint span (p : ascii -> bool) (s : string) : string * string :=
  match s with
  | EmptyString => (EmptyString, EmptyString)
  | String c r =>
      if p c then let '(taken, rest) := span p r in (String c taken, rest)
      else (EmptyString, s)
  end.

(** A line terminator, which the dot of a regular expression does not
    match. *)
Definition isLineTerminator (c : ascii) : bool :=
  let n := N_of_ascii c in ((n =? 10) || (n =? 13))%N.

(** Whether every character of [s] satisfies [p]. *)
Fixpoint every (p : ascii -> bool) (s : string) : bool :=
  match s with
  | EmptyString => true
  | String c r => p c && every p r
  end.

End JS.

(** ** Data model (types/index.ts) *)

Inductive Gender : Type := male | female | neutral.
Inductive EngineName : Type := macos | kokoro | coqui.
Inductive Quality : Type := fast | balanced | high.
Inductive OutputFormat : Type := wav | mp3 | m4a | aiff.

(** The [engine] parameter of a request: an engine of the schema or
    ['auto']. *)
Inductive EnginePreference : Type := pref_macos | pref_kokoro | pref_auto.

(** [a === b] on genders. *)
Definition Gender_eqb (a b : Gender) : bool :=
  match a, b with
  | male, male | female, female | neutral, neutral => true
  | _, _ => false
  end.

Module Voice.
Record t : Type := mk {
  id : string;
  name : string;
  language : string;
  gender : option Gender;
  description : option string;
  engine : EngineName;
  quality : Quality
}.
End Voice.

Module SynthesisRequest.
Record t : Type := mk {
  text : string;
  voice : option string;
  (** one of the engine names or ['auto']; no engine reads it *)
  engine : option string;
  outputFormat : option OutputFormat;
  speed : option spec_float;
  quality : option Quality
}.
End SynthesisRequest.

Module AudioResult.
Record metadata_t : Type := mk_metadata {
  voice : string;
  engine : string;
  textLength : Z;
  synthesisTime : Z
}.
Record t : Type := mk {
  filePath : string;
  format : string;
  duration : option Z;
  size : Z;
  metadata : metadata_t
}.
End AudioResult.

Inductive ErrorCode : Type :=
| ENGINE_NOT_AVAILABLE
| ENGINE_NOT_INITIALIZED
| ENGINE_INITIALIZATION_FAILED
| VOICE_NOT_FOUND
| TEXT_TOO_LONG
| SYNTHESIS_FAILED
| FILE_OPERATION_FAILED
| FILE_NOT_FOUND
| INVALID_PARAMETERS
| TIMEOUT
| MEMORY_LIMIT_EXCEEDED
| PLAYBACK_FAILED.

(** What a [throw] carries: a [TTSError] (message, code, engine tag, wrapped
    cause) or any other [Error]; [instanceof TTSError] is the match on the
    constructor. *)
Inductive Exn : Type :=
| Error (message : string)
| TTSError (message : string) (code : ErrorCode) (engine : option string)
           (originalError : option Exn).

Definition exn_message (e : Exn) : string :=
  match e with
  | Error m => m
  | TTSError m _ _ _ => m
  end.

Definition exn_code (e : Exn) : option ErrorCode :=
  match e with
  | Error _ => None
  | TTSError _ c _ _ => Some c
  end.

(** ** Results, and computations that mutate a state and may throw *)

Inductive Result (A : Type) : Type :=
| Ok (a : A)
| Throw (e : Exn).
Arguments Ok {A} a.
Arguments Throw {A} e.

(** The code of the [TTSError] that a computation threw, if it threw one. *)
Definition thrown_code {A : Type} (r : Result A) : option ErrorCode :=
  match r with Ok _ => None | Throw e => exn_code e end.

Section StateExn.
Context {S : Type}.

Definition M (A : Type) : Type := S -> Result A * S.

Definition ret {A : Type} (a : A) : M A := fun s => (Ok a, s).

Definition throw {A : Type} (e : Exn) : M A := fun s => (Throw e, s).

Definition bind {A B : Type} (m : M A) (k : A -> M B) : M B :=
  fun s =>
    match m s with
    | (Ok a, s') => k a s'
    | (Throw e, s') => (Throw e, s')
    end.

(** [try { body } catch (error) { handler }] *)
Definition tryCatch {A : Type} (body : M A) (handler : Exn -> M A) : M A :=
  fun s =>
    match body s with
    | (Ok a, s') => (Ok a, s')
    | (Throw e, s') => handler e s'
    end.

Definition get : M S := fun s => (Ok s, s).
Definition put (s : S) : M unit := fun _ => (Ok tt, s).
Definition modify (f : S -> S) : M unit := fun s => (Ok tt, f s).

(** An awaited promise that has settled. *)
Definition await {A : Type} (r : Result A) : M A := fun s => (r, s).
End StateExn.
Arguments M S A : clear implicits.

Notation "'let*' x ':=' m 'in' k" := (bind m (fun x => k))
  (at level 10, x name, m at level 100, k at level 200).
Notation "m ';;' k" := (bind m (fun _ => k))
  (at level 100, k at level 200, right associativity).

(** ** Child processes

    A child is spawned and listened to until the promise wrapped around it
    settles. [spawn_failed] is a child whose ['error'] event fires;
    [spawned evs] is a child that delivers the events [evs], in this
    order, before the timer armed with [setTimeout] fires. A promise
    settles once: later calls of [resolve] and [reject] do nothing. *)

Module ChildProcess.

Inductive Event : Type :=
| stdout_data (chunk : string)
| stderr_data (chunk : string)
| close (code : option Z).

Inductive Run : Type :=
| spawn_failed (message : string)
| spawned (events : list Event).

Record Listener : Type := mk {
  stdout : string;
  stderr : string;
  settled : option (Result unit)
}.

Definition listening : Listener :=
  {| stdout := EmptyString; stderr := EmptyString; settled := None |}.

Definition settle (r : Result unit) (l : Listener) : Listener :=
  match settled l with
  | Some _ => l
  | None => {| stdout := stdout l; stderr := stderr l; settled := Some r |}
  end.

Section Handlers.
(** The body of the ['close'] handler, from the exit code and the
    output collected so far. *)
Variable onClose : option Z -> string -> string -> Result unit.

Definition on_event (l : Listener) (ev : Event) : Listener :=
  match ev with
  | stdout_data d =>
      {| stdout := stdout l +:+ d; stderr := stderr l; settled := settled l |}
  | stderr_data d =>
      {| stdout := stdout l; stderr := stderr l +:+ d; settled := settled l |}
  | close code => settle (onClose code (stdout l) (stderr l)) l
  end.

Definition deliver (evs : list Event) : Listener :=
  fold_left on_event evs listening.

(** The promise: settled by the first ['close'], else rejected by the
    timer with [onTimeout]. *)
Definition promise (onTimeout : Exn) (evs : list Event) : Result unit :=
  match settled (deliver evs) with
  | Some r => r
  | None => Throw onTimeout
  end.

(** The same with an ['error'] listener that rejects with
    [onError message]. *)
Definition promise_of_run (onError : string -> Exn) (onTimeout : Exn)
    (run : Run) : Result unit :=
  match run with
  | spawn_failed msg => Throw (onError msg)
  | spawned evs => promise onTimeout evs
  end.
End Handlers.

End ChildProcess.

(** ** The host *)

(** The regular files, by path, with their contents. *)
Abbreviation Files := (gmap string string).

Record World : Type := mkWorld {
  (** [process.platform] *)
  platform : string;
  (** whether [execAsync('which say')] resolves *)
  which_say : bool;
  (** [parseVoices] of the output of the voice listing command; [None]
      when the command fails *)
  say_listing : option (list Voice.t);
  (** [process.env.PYTHON_EXECUTABLE] *)
  env_PYTHON_EXECUTABLE : option string;
  (** [spawn(executable, ['--version'])] *)
  python_version : string -> ChildProcess.Run;
  (** [spawn(executable, ['-c', checkScript])], which the source listens
      to without an ['error'] listener: the executable has just answered
      the version probe and the child is taken to start *)
  kokoro_check : string -> list ChildProcess.Event;
  (** whether [fs.mkdir(dir, { recursive: true })] resolves *)
  mkdir_ok : string -> bool;
  (** whether [fs.writeFile(path, ...)] resolves *)
  writeFile_ok : string -> bool;
  (** whether [fs.unlink(path)] of a file that exists resolves *)
  unlink_ok : string -> bool;
  (** [new Date().toISOString()] and the three readings of [Date.now()] *)
  now_iso : string;
  now_start : Z;
  now_script : Z;
  now_end : Z;
  (** [spawn('say', args)] *)
  say_run : list string -> ChildProcess.Run;
  (** [spawn(pythonExecutable, [scriptPath])] *)
  python_run : string -> string -> ChildProcess.Run;
  (** what the synthesis child has done to the files when its promise
      has settled and the engine goes on *)
  child_files : Files -> Files;
  (** what a synthesis child that the timer has killed still does to the
      files after the [catch] block of [synthesize] has run *)
  late_files : Files -> Files
}.

(** What [execa] answers when it is called with [reject: false]: the
    exit code of the result, which is [undefined] when the child could
    not run or was killed at the timeout, or what the call throws. *)
Record Execa : Type := mkExeca {
  (** [execa(python, ['--version'], ...)] *)
  execa_version : string -> Result (option Z);
  (** [execa(pythonExecutable, ['-c', importScript], ...)] *)
  execa_import : string -> Result (option Z)
}.

(** [path.join(dir, file)] for a directory written without a trailing
    separator. *)
Definition path_join (dir file : string) : string := dir +:+ "/" +:+ file.

(** ** File operations of [fs.promises] on the regular files *)

(** The state is an engine with the files. *)
Section Fs.
Context {T : Type}.

(** [fs.unlink]: removes the file; rejects when there is none, and when
    the host refuses the removal. *)
Definition unlink (w : World) (p : string) : M (T * Files) unit :=
  fun s =>
    match snd s !! p with
    | Some _ =>
        if unlink_ok w p then (Ok tt, (fst s, delete p (snd s)))
        else (Throw (Error ("EACCES: permission denied, unlink '" +:+ p +:+ "'")), s)
    | None => (Throw (Error ("ENOENT: no such file or directory, unlink '" +:+ p +:+ "'")), s)
    end.

(** [fs.stat(p).size] *)
Definition stat_size (p : string) : M (T * Files) Z :=
  fun s =>
    match snd s !! p with
    | Some content => (Ok (JS.length content), s)
    | None => (Throw (Error ("ENOENT: no such file or directory, stat '" +:+ p +:+ "'")), s)
    end.

Definition writeFile (w : World) (p content : string) : M (T * Files) unit :=
  fun s =>
    if writeFile_ok w p then (Ok tt, (fst s, <[p := content]> (snd s)))
    else (Throw (Error ("EACCES: permission denied, open '" +:+ p +:+ "'")), s).

Definition mkdir (w : World) (dir : string) : M (T * Files) unit :=
  fun s =>
    if mkdir_ok w dir then (Ok tt, s)
    else (Throw (Error ("EACCES: permission denied, mkdir '" +:+ dir +:+ "'")), s).

(** The synthesis child runs: when it has started, the files change as
    the child has made them by the time the promise around it settles
    with [r] and the engine goes on. A child that has closed writes no
    more; one that the timer has killed may, see [killed_child]. *)
Definition run_child (w : World) (run : ChildProcess.Run) (r : Result unit)
    : M (T * Files) unit :=
  fun s =>
    match run with
    | ChildProcess.spawned _ => (r, (fst s, child_files w (snd s)))
    | ChildProcess.spawn_failed _ => (r, s)
    end.

(** The child after the timer. The timer that finds the child running
    sends SIGTERM and rejects at once, without waiting for the child to
    end: the child runs on while the [catch] block of [synthesize]
    deletes the output file, until the signal ends it. [late_files] is
    what it does to the files after that deletion. The rejection of the
    timer is the one error of the [try] block with the code [TIMEOUT];
    a child that has closed, or has not started, writes no more. *)
Definition killed_child (w : World) (error : Exn) : M (T * Files) unit :=
  fun s =>
    match error with
    | TTSError _ TIMEOUT _ _ => (Ok tt, (fst s, late_files w (snd s)))
    | _ => (Ok tt, s)
    end.

(** A method of the engine alone, run on the engine with the files. *)
Definition on_this {A : Type} (m : M T A) : M (T * Files) A :=
  fun s => let '(r, t') := m (fst s) in (r, (t', snd s)).
End Fs.

(** ** Helpers shared by the two engines' [synthesize] *)

(** [new Date().toISOString().replace(/[:.]/g, '-').slice(0, 19)] *)
Fixpoint dashes (s : string) : string :=
  match s with
  | EmptyString => EmptyString
  | String c r =>
      String (if (Ascii.eqb c ":" || Ascii.eqb c ".")%char then "-"%char else c)
             (dashes r)
  end.

Definition timestamp (w : World) : string := JS.take 19 (dashes (now_iso w)).

(** [/[a-zA-Z0-9\s]/] *)
Definition isPreviewChar (c : ascii) : bool :=
  let n := N_of_ascii c in
  (((97 <=? n) && (n <=? 122)) || ((65 <=? n) && (n <=? 90))
   || ((48 <=? n) && (n <=? 57)))%N
  || JS.isWhiteSpace c.

Fixpoint keepPreviewChars (s : string) : string :=
  match s with
  | EmptyString => EmptyString
  | String c r =>
      if isPreviewChar c then String c (keepPreviewChars r) else keepPreviewChars r
  end.

(** [.replace(/\s+/g, '_')]; [inRun] says that the character before was
    white space. *)
Fixpoint underscores (inRun : bool) (s : string) : string :=
  match s with
  | EmptyString => EmptyString
  | String c r =>
      if JS.isWhiteSpace c
      then (if inRun then underscores true r else String "_"%char (underscores true r))
      else String c (underscores false r)
  end.

Definition textPreview (text : string) : string :=
  JS.toLowerCase (underscores false (keepPreviewChars (JS.take 30 text))).

(** [!request.text || request.text.trim().length === 0] *)
Definition isBlank (text : string) : bool :=
  String.eqb text EmptyString || (JS.length (JS.trim text) =? 0).

(** ** The native-command engine (engines/macos-engine.ts) *)

Module MacOSEngine.

Definition name : string := "macos".

Record t : Type := mk {
  voices : list Voice.t;
  initialized : bool;
  outputDir : string;
  tempDir : string
}.

(** [new MacOSEngine(outputDir, tempDir)] *)
Definition new (outputDir tempDir : string) : t :=
  {| voices := []; initialized := false;
     outputDir := outputDir; tempDir := tempDir |}.

Definition set_voices (vs : list Voice.t) (this : t) : t :=
  {| voices := vs; initialized := initialized this;
     outputDir := outputDir this; tempDir := tempDir this |}.

Definition set_initialized (b : bool) (this : t) : t :=
  {| voices := voices this; initialized := b;
     outputDir := outputDir this; tempDir := tempDir this |}.

Definition resolveVoice (this : t) (requestedVoice : option string)
    : Result (option Voice.t) :=
  match JS.truthy requestedVoice with
  | None =>
      Ok (JS.or (find (fun v => String.eqb (Voice.name v) "Alex") (voices this))
                (head (voices this)))
  | Some requestedVoice =>
      match find (fun v =>
                    String.eqb (JS.toLowerCase (Voice.name v))
                               (JS.toLowerCase requestedVoice)
                    || String.eqb (JS.toLowerCase (Voice.id v))
                                  (JS.toLowerCase requestedVoice))
                 (voices this) with
      | Some voice => Ok (Some voice)
      | None =>
          Throw (TTSError ("Voice " +:+ JS.dquote +:+ requestedVoice +:+ JS.dquote
                           +:+ " not found")
                          VOICE_NOT_FOUND (Some name) None)
      end
  end.

Definition calculateRate (speed : option spec_float) : JS.integral :=
  match speed with
  | Some x =>
      if JS.falsyNumber speed then JS.Int 200
      else
        let rate := JS.round (JS.mul x JS.n200) in
        JS.max 80 (JS.min 400 rate)
  | None => JS.Int 200
  end.

(** [[a-z]] and [[A-Z]] *)
Definition isLower (c : ascii) : bool :=
  let n := N_of_ascii c in ((97 <=? n) && (n <=? 122))%N.
Definition isUpper (c : ascii) : bool :=
  let n := N_of_ascii c in ((65 <=? n) && (n <=? 90))%N.

(** [line.match] with the pattern of [parseVoices]: a name without
    white space, white space, a locale of two lower-case letters, an
    underscore and two upper-case letters, optional white space, a hash
    sign, optional white space, and a description without line
    terminator up to the end. The result holds the three groups. Every
    quantifier of the pattern is followed by something that its own
    characters cannot match, so the greedy match is the only one. *)
Definition matchVoiceLine (line : string) : option (string * string * string) :=
  let '(name, afterName) := JS.span (fun c => negb (JS.isWhiteSpace c)) line in
  let '(gap, afterGap) := JS.span JS.isWhiteSpace afterName in
  match name, gap, afterGap with
  | String _ _, String _ _,
    String l1 (String l2 (String u (String r1 (String r2 afterLocale)))) =>
      if isLower l1 && isLower l2 && Ascii.eqb u "_" && isUpper r1 && isUpper r2
      then
        let locale :=
          String l1 (String l2 (String u (String r1 (String r2 EmptyString)))) in
        match snd (JS.span JS.isWhiteSpace afterLocale) with
        | String hash afterHash =>
            if Ascii.eqb hash "#" then
              let description := snd (JS.span JS.isWhiteSpace afterHash) in
              if JS.every (fun c => negb (JS.isLineTerminator c)) description
              then Some (name, locale, description)
              else None
            else None
        | EmptyString => None
        end
      else None
  | _, _, _ => None
  end.

Definition maleIndicators : list string :=
  ["male"; "man"; "masculine"; "alex"; "daniel"; "fred"; "jorge"; "juan";
   "diego"; "thomas"; "jacques"; "xander"].

Definition femaleIndicators : list string :=
  ["female"; "woman"; "feminine"; "allison"; "ava"; "kate"; "kathy";
   "samantha"; "susan"; "tessa"; "victoria"; "karen"; "monica"; "paulina";
   "alice"; "am" +:+ String (ascii_of_N 233) "lie"; "anna"; "ellen"; "joana";
   "luciana"].

Definition inferGender (name description : string) : Gender :=
  let lowerName := JS.toLowerCase name in
  let lowerDesc := JS.toLowerCase description in
  if existsb (fun indicator =>
                JS.includes lowerName indicator || JS.includes lowerDesc indicator)
             maleIndicators
  then male
  else if existsb (fun indicator =>
                     JS.includes lowerName indicator
                     || JS.includes lowerDesc indicator)
                  femaleIndicators
  then female
  else neutral.

Definition parseVoices (output : string) : list Voice.t :=
  let lines :=
    List.filter (fun line => negb (String.eqb (JS.trim line) EmptyString))
                (JS.split (ascii_of_N 10) output) in
  flat_map
    (fun line =>
       match matchVoiceLine line with
       | Some (name, locale, description) =>
           [ {| Voice.id := "macos-" +:+ JS.toLowerCase name;
                Voice.name := name;
                Voice.language := JS.replace "_" "-" (JS.toLowerCase locale);
                Voice.gender := Some (inferGender name description);
                Voice.description := Some (JS.trim description);
                Voice.engine := macos;
                Voice.quality := balanced |} ]
       | None => []
       end)
    lines.

Section Methods.
Variable w : World.

Definition loadVoices : M t unit :=
  tryCatch
    (match say_listing w with
     | Some vs => modify (set_voices vs)
     | None => throw (Error "Command failed: say -v ?")
     end)
    (fun error =>
       throw (TTSError "Failed to load macOS voices"
                       ENGINE_NOT_AVAILABLE (Some name) (Some error))).

Definition initialize : M t unit :=
  let* this := get in
  if initialized this then ret tt
  else if negb (String.eqb (platform w) "darwin") then
    throw (TTSError "macOS Say engine is only available on macOS"
                    ENGINE_NOT_AVAILABLE (Some name) None)
  else
    tryCatch
      ((if which_say w then ret tt
        else throw (Error "Command failed: which say")) ;;
       loadVoices ;;
       modify (set_initialized true))
      (fun error =>
         throw (TTSError "macOS Say command not available"
                         ENGINE_NOT_AVAILABLE (Some name) (Some error))).

(** [process.platform === 'darwin'] and [which say] succeeds. *)
Definition isAvailable : bool :=
  String.eqb (platform w) "darwin" && which_say w.

Definition executeSay (args : list string) : M (t * Files) unit :=
  let run := say_run w args in
  run_child w run
    (ChildProcess.promise_of_run
       (fun code _ stderr =>
          match code with
          | Some 0 => Ok tt
          | _ => Throw (Error ("say command failed with code "
                               +:+ JS.showCode code +:+ ": " +:+ stderr))
          end)
       Error
       (TTSError "Synthesis timeout" TIMEOUT (Some name) None)
       run).

Definition ensureDirectoryExists (dir : string) : M (t * Files) unit :=
  tryCatch (mkdir w dir)
    (fun error =>
       throw (TTSError ("Failed to create directory: " +:+ dir)
                       FILE_OPERATION_FAILED (Some name) (Some error))).

Definition outputPath (this : t) (voice : Voice.t) (text : string) : string :=
  path_join (outputDir this)
    ("macos_" +:+ Voice.name voice +:+ "_" +:+ timestamp w +:+ "_"
     +:+ textPreview text +:+ ".aiff").

(** The [try] statement of [synthesize], entered once [outputPath] is
    determined. *)
Definition attempt (request : SynthesisRequest.t) (voice : Voice.t)
    : M (t * Files) AudioResult.t :=
  let text := SynthesisRequest.text request in
  let* s1 := get in
  let this := fst s1 in
  let outputPath := outputPath this voice text in
  tryCatch
    (ensureDirectoryExists (outputDir this) ;;
     let rate := calculateRate (SynthesisRequest.speed request) in
     let args := ["-v"; Voice.name voice; "-r"; JS.showIntegral rate;
                  "-o"; outputPath; text] in
     executeSay args ;;
     let* size := stat_size outputPath in
     ret {| AudioResult.filePath := outputPath;
            AudioResult.format := "aiff";
            AudioResult.duration := None;
            AudioResult.size := size;
            AudioResult.metadata :=
              {| AudioResult.voice := Voice.name voice;
                 AudioResult.engine := name;
                 AudioResult.textLength := JS.length text;
                 AudioResult.synthesisTime := now_end w - now_start w |} |})
    (fun error =>
       tryCatch (unlink w outputPath) (fun _ => ret tt) ;;
       (* the host: a child that the timer has killed may still write *)
       killed_child w error ;;
       match error with
       | TTSError _ _ _ _ => throw error
       | Error _ =>
           throw (TTSError "Synthesis failed" SYNTHESIS_FAILED
                           (Some name) (Some error))
       end).

Definition synthesize (request : SynthesisRequest.t)
    : M (t * Files) AudioResult.t :=
  let text := SynthesisRequest.text request in
  let* s0 := get in
  (if initialized (fst s0) then ret tt else on_this initialize) ;;
  if isBlank text then
    throw (TTSError "Text cannot be empty" INVALID_PARAMETERS (Some name) None)
  else if 50000 <? JS.length text then
    throw (TTSError "Text too long for macOS Say (max 50,000 characters)"
                    TEXT_TOO_LONG (Some name) None)
  else
    let* s1 := get in
    let* resolved :=
      await (resolveVoice (fst s1) (SynthesisRequest.voice request)) in
    match resolved with
    | None =>
        (* [voice.name] of [undefined] *)
        throw (Error "Cannot read properties of undefined (reading 'name')")
    | Some voice => attempt request voice
    end.

Definition cleanup : M t unit :=
  modify (fun this => set_voices [] (set_initialized false this)).
Definition listVoices : M t (list Voice.t) :=
  let* this := get in
  (if initialized this then ret tt else initialize) ;;
  let* this := get in
  ret (voices this).

End Methods.

End MacOSEngine.

(** ** The external-process engine (engines/kokoro-engine.ts) *)

Module KokoroEngine.

Definition name : string := "kokoro".

Record t : Type := mk {
  voices : list Voice.t;
  initialized : bool;
  outputDir : string;
  tempDir : string;
  pythonExecutable : option string
}.

(** [new KokoroEngine(outputDir, tempDir)] *)
Definition new (outputDir tempDir : string) : t :=
  {| voices := []; initialized := false;
     outputDir := outputDir; tempDir := tempDir; pythonExecutable := None |}.

Definition set_voices (vs : list Voice.t) (this : t) : t :=
  {| voices := vs; initialized := initialized this;
     outputDir := outputDir this; tempDir := tempDir this;
     pythonExecutable := pythonExecutable this |}.

Definition set_initialized (b : bool) (this : t) : t :=
  {| voices := voices this; initialized := b;
     outputDir := outputDir this; tempDir := tempDir this;
     pythonExecutable := pythonExecutable this |}.

Definition set_pythonExecutable (p : string) (this : t) : t :=
  {| voices := voices this; initialized := initialized this;
     outputDir := outputDir this; tempDir := tempDir this;
     pythonExecutable := Some p |}.

Definition kv (id name language : string) (gender : Gender) (description : string)
    : Voice.t :=
  {| Voice.id := id; Voice.name := name; Voice.language := language;
     Voice.gender := Some gender; Voice.description := Some description;
     Voice.engine := kokoro; Voice.quality := high |}.

(** The catalog assigned by [loadVoices]. *)
Definition catalog : list Voice.t :=
  [ kv "kokoro-af" "AF (American Female)" "en-us" female "Young American female voice";
    kv "kokoro-af_bella" "AF_BELLA" "en-us" female "Bella - warm American female";
    kv "kokoro-af_sarah" "AF_SARAH" "en-us" female "Sarah - clear American female";
    kv "kokoro-am_adam" "AM_ADAM" "en-us" male "Adam - deep American male";
    kv "kokoro-am_michael" "AM_MICHAEL" "en-us" male "Michael - natural American male";
    kv "kokoro-bf_emma" "BF_EMMA" "en-gb" female "Emma - British female";
    kv "kokoro-bm_george" "BM_GEORGE" "en-gb" male "George - British male";
    kv "kokoro-es_am_antonio" "ES_AM_ANTONIO" "es-es" male "Antonio - Spanish male";
    kv "kokoro-es_af_maria" "ES_AF_MARIA" "es-es" female "Maria - Spanish female";
    kv "kokoro-fr_am_pierre" "FR_AM_PIERRE" "fr-fr" male "Pierre - French male";
    kv "kokoro-fr_af_sophie" "FR_AF_SOPHIE" "fr-fr" female "Sophie - French female";
    kv "kokoro-ja_af_yuki" "JA_AF_YUKI" "ja-jp" female "Yuki - Japanese female";
    kv "kokoro-ja_am_hiroshi" "JA_AM_HIROSHI" "ja-jp" male "Hiroshi - Japanese male";
    kv "kokoro-de_af_anna" "DE_AF_ANNA" "de-de" female "Anna - German female";
    kv "kokoro-de_am_hans" "DE_AM_HANS" "de-de" male "Hans - German male";
    kv "kokoro-it_af_giulia" "IT_AF_GIULIA" "it-it" female "Giulia - Italian female";
    kv "kokoro-it_am_marco" "IT_AM_MARCO" "it-it" male "Marco - Italian male";
    kv "kokoro-pt_af_maria" "PT_AF_MARIA" "pt-br" female "Maria - Portuguese female";
    kv "kokoro-pt_am_joao" "PT_AM_JOAO" "pt-br" male
       ("Jo" +:+ String (ascii_of_N 227) "o - Portuguese male");
    kv "kokoro-zh_af_mei" "ZH_AF_MEI" "zh-cn" female "Mei - Chinese female";
    kv "kokoro-zh_am_wei" "ZH_AM_WEI" "zh-cn" male "Wei - Chinese male" ].

Definition resolveVoice (this : t) (requestedVoice : option string)
    : Result (option Voice.t) :=
  match JS.truthy requestedVoice with
  | None =>
      Ok (JS.or (find (fun v => String.eqb (Voice.id v) "kokoro-af_sarah")
                      (voices this))
                (head (voices this)))
  | Some requestedVoice =>
      match find (fun v =>
                    String.eqb (JS.toLowerCase (Voice.name v))
                               (JS.toLowerCase requestedVoice)
                    || String.eqb (JS.toLowerCase (Voice.id v))
                                  (JS.toLowerCase requestedVoice)
                    || JS.includes (JS.toLowerCase (Voice.name v))
                                   (JS.toLowerCase requestedVoice))
                 (voices this) with
      | Some voice => Ok (Some voice)
      | None =>
          Throw (TTSError ("Voice " +:+ JS.dquote +:+ requestedVoice +:+ JS.dquote
                           +:+ " not found in Kokoro engine")
                          VOICE_NOT_FOUND (Some name) None)
      end
  end.

(** The two [replace] calls on the text: a backslash goes before a
    double quote, and a line feed becomes a backslash and an n. *)
Fixpoint escapeText (s : string) : string :=
  match s with
  | EmptyString => EmptyString
  | String c r =>
      if Ascii.eqb c (ascii_of_N 34) then
        String (ascii_of_N 92) (String c (escapeText r))
      else if Ascii.eqb c (ascii_of_N 10) then
        String (ascii_of_N 92) (String "n"%char (escapeText r))
      else String c (escapeText r)
  end.

(** [voice.name.replace(/^kokoro-/, '')] *)
Definition stripKokoroPrefix (s : string) : string :=
  if String.prefix "kokoro-" s
  then String.substring 7 (String.length s - 7) s else s.

(** The generated script. The fixed text of the Python function
    [synthesize_with_kokoro], which stands between the imports and the
    main block, is left out; the main block carries the three parameters
    and prints the success marker. *)
Definition generateKokoroScript (text : string) (voice : Voice.t)
    (outputPath : string) : string :=
  let voiceName := stripKokoroPrefix (Voice.name voice) in
  let q := JS.dquote in
  let q3 := q +:+ q +:+ q in
  let nl := JS.newline in
  "#!/usr/bin/env python3" +:+ nl
  +:+ "import os" +:+ nl
  +:+ "import sys" +:+ nl
  +:+ "import numpy as np" +:+ nl
  +:+ "import soundfile as sf" +:+ nl
  +:+ "from kokoro import KPipeline" +:+ nl
  +:+ nl
  +:+ "if __name__ == " +:+ q +:+ "__main__" +:+ q +:+ ":" +:+ nl
  +:+ "    text = " +:+ q3 +:+ escapeText text +:+ q3 +:+ nl
  +:+ "    voice_name = " +:+ q +:+ voiceName +:+ q +:+ nl
  +:+ "    output_path = " +:+ q +:+ outputPath +:+ q +:+ nl
  +:+ "    " +:+ nl
  +:+ "    try:" +:+ nl
  +:+ "        synthesize_with_kokoro(text, voice_name, output_path)" +:+ nl
  +:+ "        print(" +:+ q +:+ "SUCCESS" +:+ q +:+ ")" +:+ nl
  +:+ "    except Exception as e:" +:+ nl
  +:+ "        print(f" +:+ q +:+ "ERROR: {e}" +:+ q +:+ ", file=sys.stderr)" +:+ nl
  +:+ "        sys.exit(1)" +:+ nl.

(** The ['close'] handler of [executeKokoro]. *)
Definition onSynthesisClose (code : option Z) (stdout stderr : string)
    : Result unit :=
  if match code with Some 0 => true | _ => false end
     && JS.includes stdout "SUCCESS"
  then Ok tt
  else
    Throw (TTSError ("Kokoro synthesis failed (exit code " +:+ JS.showCode code
                     +:+ "):" +:+ JS.newline +:+ "STDOUT: " +:+ stdout
                     +:+ JS.newline +:+ "STDERR: " +:+ stderr)
                    SYNTHESIS_FAILED (Some name) None).

(** The ['close'] handler of [verifyKokoroInstallation]. *)
Definition onVerifyClose (code : option Z) (stdout stderr : string)
    : Result unit :=
  if match code with Some 0 => true | _ => false end
     && JS.includes stdout "SUCCESS"
  then Ok tt
  else
    Throw (Error ("Kokoro verification failed (code " +:+ JS.showCode code
                  +:+ "): "
                  +:+ (if String.eqb stderr EmptyString then stdout else stderr))).

Definition KNOWN_WORKING_PYTHON : string := "/opt/miniconda3/bin/python3".

Definition candidates : list string :=
  ["python3"; "/opt/homebrew/bin/python3"; "/usr/bin/python3"].

(** The candidates of [checkPythonAvailability]. *)
Definition pythonCandidates : list string :=
  ["/opt/miniconda3/bin/python3"; "python3"; "python"; "/usr/bin/python3";
   "/opt/homebrew/bin/python3"].

(** [a || b] on strings, [b] being a string. *)
Definition orString (a : option string) (b : string) : string :=
  match JS.truthy a with Some s => s | None => b end.

(** [buildEnvironment()], of [process.env] as the map of the variables
    that are set: an object literal, in which a later property replaces
    an earlier one of the same key. The spread of
    [process.env.PYTHONPATH && { ... }] adds the property when the
    variable is set and not empty, and nothing otherwise. *)
Definition buildEnvironment (env : gmap string string) : gmap string string :=
  let e := env in
  let e := <["PYTHONUNBUFFERED" := "1"]> e in
  let e := <["PYTHONIOENCODING" := "utf-8"]> e in
  let e := <["PYTHONDONTWRITEBYTECODE" := "1"]> e in
  let e := <["PYTHONWARNINGS" := "ignore"]> e in
  let e := match JS.truthy (env !! "PYTHONPATH") with
           | Some pythonpath => <["PYTHONPATH" := pythonpath]> e
           | None => e
           end in
  let e := <["PATH" := orString (env !! "PATH")
                         "/opt/miniconda3/bin:/usr/bin:/bin"]> e in
  let e := <["HOME" := orString (env !! "HOME") EmptyString]> e in
  let e := <["USER" := orString (env !! "USER") EmptyString]> e in
  let e := <["LC_ALL" := "en_US.UTF-8"]> e in
  <["LANG" := "en_US.UTF-8"]> e.

(** The variables that [buildEnvironment] sets itself. *)
Definition forcedVariables : list (string * string) :=
  [("PYTHONUNBUFFERED", "1"); ("PYTHONIOENCODING", "utf-8");
   ("PYTHONDONTWRITEBYTECODE", "1"); ("PYTHONWARNINGS", "ignore");
   ("LC_ALL", "en_US.UTF-8"); ("LANG", "en_US.UTF-8")].

Section Methods.
Variable w : World.

Definition testPythonExecutable (executable : string) : Result unit :=
  ChildProcess.promise_of_run
    (fun code _ _ =>
       match code with
       | Some 0 => Ok tt
       | _ => Throw (Error ("Python executable " +:+ executable +:+ " failed"))
       end)
    Error
    (Error ("Python executable " +:+ executable +:+ " timeout"))
    (python_version w executable).

(** The [for] loop over the candidates. *)
Fixpoint firstWorking (cs : list string) : Result string :=
  match cs with
  | [] =>
      Throw (Error "No Python executable works. Install miniconda3 at /opt/miniconda3/ or set PYTHON_EXECUTABLE.")
  | candidate :: rest =>
      match testPythonExecutable candidate with
      | Ok _ => Ok candidate
      | Throw _ => firstWorking rest
      end
  end.

Definition findPythonExecutable : Result string :=
  match testPythonExecutable KNOWN_WORKING_PYTHON with
  | Ok _ => Ok KNOWN_WORKING_PYTHON
  | Throw _ =>
      match JS.truthy (env_PYTHON_EXECUTABLE w) with
      | Some fromEnv =>
          match testPythonExecutable fromEnv with
          | Ok _ => Ok fromEnv
          | Throw _ => firstWorking candidates
          end
      | None => firstWorking candidates
      end
  end.

Definition verifyKokoroInstallation : M t unit :=
  let* this := get in
  match JS.truthy (pythonExecutable this) with
  | None => throw (Error "Python executable not detected")
  | Some executable =>
      await (ChildProcess.promise onVerifyClose
               (Error "Kokoro verification timeout")
               (kokoro_check w executable))
  end.

Definition detectPythonEnvironment : M t unit :=
  tryCatch
    (let* executable := await findPythonExecutable in
     modify (set_pythonExecutable executable) ;;
     verifyKokoroInstallation)
    (fun error =>
       throw (TTSError ("Failed to detect Python environment: "
                        +:+ exn_message error)
                       ENGINE_NOT_AVAILABLE (Some name) (Some error))).

Definition loadVoices : M t unit := modify (set_voices catalog).

Definition initialize : M t unit :=
  let* this := get in
  if initialized this then ret tt
  else
    tryCatch
      (detectPythonEnvironment ;;
       loadVoices ;;
       modify (set_initialized true))
      (fun error =>
         (* Don't throw - let the engine be unavailable but don't crash
            the server *)
         ret tt).

Definition executeKokoro (scriptPath : string) : M (t * Files) unit :=
  let* s := get in
  match JS.truthy (pythonExecutable (fst s)) with
  | None =>
      throw (TTSError "Python executable not detected - initialization may have failed"
                      ENGINE_NOT_AVAILABLE (Some name) None)
  | Some executable =>
      let run := python_run w executable scriptPath in
      run_child w run
        (ChildProcess.promise_of_run onSynthesisClose
           (fun message =>
              TTSError ("Failed to spawn Python process: " +:+ message)
                       ENGINE_NOT_AVAILABLE (Some name) (Some (Error message)))
           (TTSError "Kokoro synthesis timeout (30 seconds)" TIMEOUT
                     (Some name) None)
           run)
  end.

Definition ensureDirectoryExists (dir : string) : M (t * Files) unit :=
  tryCatch (mkdir w dir)
    (fun error =>
       throw (TTSError ("Failed to create directory: " +:+ dir)
                       FILE_OPERATION_FAILED (Some name) (Some error))).

Definition outputPath (this : t) (voice : Voice.t) (text : string) : string :=
  path_join (outputDir this)
    ("kokoro_" +:+ Voice.name voice +:+ "_" +:+ timestamp w +:+ "_"
     +:+ textPreview text +:+ ".wav").

Definition scriptPath (this : t) : string :=
  path_join (tempDir this) ("kokoro_" +:+ JS.showZ (now_script w) +:+ ".py").

(** The [try] statement of [synthesize], entered once [outputPath] is
    determined. *)
Definition attempt (request : SynthesisRequest.t) (voice : Voice.t)
    : M (t * Files) AudioResult.t :=
  let text := SynthesisRequest.text request in
  let* s1 := get in
  let this := fst s1 in
  let outputPath := outputPath this voice text in
  tryCatch
    (ensureDirectoryExists (outputDir this) ;;
     let pythonScript := generateKokoroScript text voice outputPath in
     let scriptPath := scriptPath this in
     writeFile w scriptPath pythonScript ;;
     executeKokoro scriptPath ;;
     (* Clean up script *)
     unlink w scriptPath ;;
     let* size := stat_size outputPath in
     ret {| AudioResult.filePath := outputPath;
            AudioResult.format := "wav";
            AudioResult.duration := None;
            AudioResult.size := size;
            AudioResult.metadata :=
              {| AudioResult.voice := Voice.name voice;
                 AudioResult.engine := name;
                 AudioResult.textLength := JS.length text;
                 AudioResult.synthesisTime := now_end w - now_start w |} |})
    (fun error =>
       tryCatch (unlink w outputPath) (fun _ => ret tt) ;;
       (* the host: a child that the timer has killed may still write *)
       killed_child w error ;;
       match error with
       | TTSError _ _ _ _ => throw error
       | Error _ =>
           throw (TTSError "Kokoro synthesis failed" SYNTHESIS_FAILED
                           (Some name) (Some error))
       end).

Definition synthesize (request : SynthesisRequest.t)
    : M (t * Files) AudioResult.t :=
  let text := SynthesisRequest.text request in
  let* s0 := get in
  (if initialized (fst s0) then ret tt else on_this initialize) ;;
  if isBlank text then
    throw (TTSError "Text cannot be empty" INVALID_PARAMETERS (Some name) None)
  else if 50000 <? JS.length text then
    throw (TTSError "Text too long for Kokoro TTS (max 50,000 characters)"
                    TEXT_TOO_LONG (Some name) None)
  else
    let* s1 := get in
    let* resolved :=
      await (resolveVoice (fst s1) (SynthesisRequest.voice request)) in
    match resolved with
    | None =>
        (* [voice.name] of [undefined] *)
        throw (Error "Cannot read properties of undefined (reading 'name')")
    | Some voice => attempt request voice
    end.

Definition cleanup : M t unit :=
  modify (fun this => set_voices [] (set_initialized false this)).
Definition listVoices : M t (list Voice.t) :=
  let* this := get in
  (if initialized this then ret tt else initialize) ;;
  let* this := get in
  ret (voices this).

Variable x : Execa.

(** [checkPythonAvailability]: the [executable] of the result when its
    [success] is true, [None] when it is false. The loop goes on after a
    candidate that exits with another code or makes [execa] throw. *)
Fixpoint firstAvailable (cs : list string) : option string :=
  match cs with
  | [] => None
  | python :: rest =>
      match execa_version x python with
      | Ok (Some 0) => Some python
      | _ => firstAvailable rest
      end
  end.

Definition checkPythonAvailability : option string :=
  firstAvailable pythonCandidates.

(** [checkKokoroImport]: the [success] field of the result; the other
    fields go to the log. *)
Definition checkKokoroImport (pythonExecutable : string) : bool :=
  match execa_import x pythonExecutable with
  | Ok (Some 0) => true
  | _ => false
  end.

Definition isAvailable : bool :=
  match checkPythonAvailability with
  | None => false
  | Some executable => checkKokoroImport executable
  end.

End Methods.

End KokoroEngine.

(** ** The playback controller (tools/audio-player.ts) *)

Module AudioPlayer.

Inductive Signal : Type := SIGSTOP | SIGCONT | SIGTERM.

(** The singleton. A spawned [afplay] child is known by its number. *)
Record t : Type := mk {
  currentProcess : option nat;
  isPaused : bool;
  currentFile : option string;
  mostRecentFile : option string
}.

(** The player with the children spawned so far and the signals sent to
    them, latest first. *)
Record Host : Type := mkHost {
  this : t;
  spawned : nat;
  signals : list (nat * Signal)
}.

(** [new AudioPlayer()] in a fresh host. *)
Definition instance : Host :=
  {| this := {| currentProcess := None; isPaused := false;
                currentFile := None; mostRecentFile := None |};
     spawned := 0%nat; signals := [] |}.

Record Reply : Type := mkReply {
  message : string;
  status : string;
  file : option string
}.

Definition update (f : t -> t) : M Host unit :=
  modify (fun h => {| this := f (this h); spawned := spawned h;
                      signals := signals h |}).

Definition set_currentProcess (p : option nat) (a : t) : t :=
  {| currentProcess := p; isPaused := isPaused a;
     currentFile := currentFile a; mostRecentFile := mostRecentFile a |}.

Definition set_isPaused (b : bool) (a : t) : t :=
  {| currentProcess := currentProcess a; isPaused := b;
     currentFile := currentFile a; mostRecentFile := mostRecentFile a |}.

Definition set_currentFile (f : option string) (a : t) : t :=
  {| currentProcess := currentProcess a; isPaused := isPaused a;
     currentFile := f; mostRecentFile := mostRecentFile a |}.

Definition setMostRecentFile (filePath : string) : M Host unit :=
  update (fun a =>
    {| currentProcess := currentProcess a; isPaused := isPaused a;
       currentFile := currentFile a; mostRecentFile := Some filePath |}).

(** [child.kill(signal)] *)
Definition kill (child : nat) (sig : Signal) : M Host unit :=
  modify (fun h => {| this := this h; spawned := spawned h;
                      signals := (child, sig) :: signals h |}).

(** [spawn('afplay', [filePath])]; [ok] says whether the call returns a
    child rather than throwing. *)
Definition spawn (ok : bool) : M Host nat :=
  fun h =>
    if ok then
      (Ok (spawned h),
       {| this := this h; spawned := S (spawned h); signals := signals h |})
    else (Throw (Error "spawn afplay EAGAIN"), h).

Definition stop : M Host Reply :=
  let* h := get in
  match currentProcess (this h) with
  | Some child =>
      kill child SIGTERM ;;
      update (set_currentProcess None) ;;
      update (set_currentFile None) ;;
      update (set_isPaused false) ;;
      ret {| message := "Audio playback stopped"; status := "stopped"; file := None |}
  | None =>
      ret {| message := "No active playback to stop"; status := "stopped";
             file := None |}
  end.

Definition play (audioPath : option string) (spawn_ok : bool) : M Host Reply :=
  let* h := get in
  match JS.truthy (JS.or (JS.truthy audioPath) (mostRecentFile (this h))) with
  | None =>
      throw (TTSError "No audio file specified and no recent file available"
                      FILE_NOT_FOUND None None)
  | Some filePath =>
      (* Stop current playback if any *)
      stop ;;
      tryCatch
        (let* child := spawn spawn_ok in
         update (set_currentProcess (Some child)) ;;
         update (set_currentFile (Some filePath)) ;;
         update (set_isPaused false) ;;
         ret {| message := "Started playing audio file"; status := "playing";
                file := Some filePath |})
        (fun error =>
           throw (TTSError ("Failed to start audio playback: "
                            +:+ exn_message error)
                           PLAYBACK_FAILED None None))
  end.

(** The ['close'] listener that [play] puts on the child. *)
Definition onClose : M Host unit :=
  update (set_currentProcess None) ;;
  update (set_currentFile None) ;;
  update (set_isPaused false).

Definition pause : M Host Reply :=
  let* h := get in
  match currentProcess (this h), isPaused (this h) with
  | Some child, false =>
      (* Send SIGSTOP to pause the process *)
      kill child SIGSTOP ;;
      update (set_isPaused true) ;;
      ret {| message := "Audio playback paused"; status := "paused"; file := None |}
  | _, _ =>
      ret {| message := "No active playback to pause"; status := "stopped";
             file := None |}
  end.

Definition resume : M Host Reply :=
  let* h := get in
  match currentProcess (this h), isPaused (this h) with
  | Some child, true =>
      (* Send SIGCONT to resume the process *)
      kill child SIGCONT ;;
      update (set_isPaused false) ;;
      ret {| message := "Audio playback resumed"; status := "playing"; file := None |}
  | cur, _ =>
      ret {| message := "No paused playback to resume";
             status := match cur with Some _ => "playing" | None => "stopped" end;
             file := None |}
  end.

Record Status : Type := mkStatus {
  status_status : string;
  status_file : option string;
  status_isPaused : bool
}.

Definition getStatus (a : t) : Status :=
  {| status_status :=
       match currentProcess a with
       | Some _ => if isPaused a then "paused" else "playing"
       | None => "stopped"
       end;
     status_file := JS.truthy (currentFile a);
     status_isPaused := isPaused a |}.

(** The [action] of a [play_audio] request. *)
Inductive Action : Type := action_play | action_pause | action_stop | action_resume.

Definition playAudio (audioPath : option string) (action : Action)
    (spawn_ok : bool) : M Host Reply :=
  match action with
  | action_play => play audioPath spawn_ok
  | action_pause => pause
  | action_stop => stop
  | action_resume => resume
  end.

(** What can happen to the singleton: a request, the ['close'] event of
    a child spawned by [play], or [setMostRecentFile] after a synthesis. *)
Inductive Step : Type :=
| request (audioPath : option string) (action : Action) (spawn_ok : bool)
| child_closed
| most_recent (filePath : string).

Definition step (st : Step) (h : Host) : Host :=
  match st with
  | request audioPath action spawn_ok => snd (playAudio audioPath action spawn_ok h)
  | child_closed => snd (onClose h)
  | most_recent filePath => snd (setMostRecentFile filePath h)
  end.

Inductive reachable : Host -> Prop :=
| reachable_instance : reachable instance
| reachable_step (st : Step) (h : Host) :
    reachable h -> reachable (step st h).

(** No tracked child means no tracked file and no pause. *)
Definition consistent (a : t) : Prop :=
  currentProcess a = None -> currentFile a = None /\ isPaused a = false.

(** The parameters of a [play_audio] call as they arrive. *)
Record Params : Type := mkParams {
  p_audioPath : option string;
  p_action : option string
}.

(** [z.infer<typeof playAudioSchema>] *)
Record PlayAudioRequest : Type := mkRequest {
  audioPath : option string;
  action : Action
}.

Definition parseAction (raw : option string) : option Action :=
  match raw with
  | None => Some action_play
  | Some raw =>
      if String.eqb raw "play" then Some action_play
      else if String.eqb raw "pause" then Some action_pause
      else if String.eqb raw "stop" then Some action_stop
      else if String.eqb raw "resume" then Some action_resume
      else None
  end.

(** [playAudioSchema.parse(request)]; [None] is a [ZodError]. *)
Definition parse (params : Params) : option PlayAudioRequest :=
  match parseAction (p_action params) with
  | Some a => Some {| audioPath := p_audioPath params; action := a |}
  | None => None
  end.

(** [playAudioHandler]. A [ZodError] is an [Error] that is no [TTSError];
    [zodError] is what the template literal makes of it. The payload
    returned is the reply of [playAudio], which the source serializes. *)
Definition playAudioHandler (zodError : string) (params : Params)
    (spawn_ok : bool) : M Host Reply :=
  tryCatch
    (match parse params with
     | None => throw (Error zodError)
     | Some validatedRequest =>
         playAudio (audioPath validatedRequest) (action validatedRequest) spawn_ok
     end)
    (fun error =>
       match error with
       | TTSError _ _ _ _ => throw error
       | Error text =>
           throw (TTSError ("Audio playback failed: " +:+ text)
                           PLAYBACK_FAILED None None)
       end).

End AudioPlayer.

(** ** The router (tools/synthesize-text.ts) *)

Module SynthesizeText.

(** The parameters of a [synthesize_text] call as they arrive: every field
    is absent or holds a value of the JavaScript type that the schema
    expects, the enumerations still being strings. *)
Record Params : Type := mkParams {
  p_text : option string;
  p_voice : option string;
  p_engine : option string;
  p_outputFormat : option string;
  p_speed : option spec_float;
  p_quality : option string
}.

(** [z.infer<typeof synthesizeTextSchema>] *)
Record SynthesizeTextParams : Type := mkValidated {
  text : string;
  voice : option string;
  engine : EnginePreference;
  outputFormat : OutputFormat;
  speed : spec_float;
  quality : Quality
}.

Definition parseEngine (raw : option string) : option EnginePreference :=
  match raw with
  | None => Some pref_auto
  | Some raw =>
      if String.eqb raw "macos" then Some pref_macos
      else if String.eqb raw "kokoro" then Some pref_kokoro
      else if String.eqb raw "auto" then Some pref_auto
      else None
  end.

Definition parseOutputFormat (raw : option string) : option OutputFormat :=
  match raw with
  | None => Some aiff
  | Some raw =>
      if String.eqb raw "wav" then Some wav
      else if String.eqb raw "mp3" then Some mp3
      else if String.eqb raw "m4a" then Some m4a
      else if String.eqb raw "aiff" then Some aiff
      else None
  end.

Definition parseQuality (raw : option string) : option Quality :=
  match raw with
  | None => Some balanced
  | Some raw =>
      if String.eqb raw "fast" then Some fast
      else if String.eqb raw "balanced" then Some balanced
      else if String.eqb raw "high" then Some high
      else None
  end.

(** [z.number().min(0.1).max(3.0).optional().default(1.0)] *)
Definition parseSpeed (raw : option spec_float) : option spec_float :=
  match raw with
  | None => Some JS.n1
  | Some x => if JS.leb JS.n0_1 x && JS.leb x JS.n3 then Some x else None
  end.

(** [z.string().min(1).max(50000)] *)
Definition parseText (raw : option string) : option string :=
  match raw with
  | None => None
  | Some t => if (1 <=? JS.length t) && (JS.length t <=? 50000) then Some t else None
  end.

(** [synthesizeTextSchema.parse(params)]; [None] is a [ZodError]. *)
Definition parse (params : Params) : option SynthesizeTextParams :=
  match parseText (p_text params), parseEngine (p_engine params),
        parseOutputFormat (p_outputFormat params), parseSpeed (p_speed params),
        parseQuality (p_quality params) with
  | Some t, Some e, Some f, Some x, Some q =>
      Some {| text := t; voice := p_voice params; engine := e;
              outputFormat := f; speed := x; quality := q |}
  | _, _, _, _, _ => None
  end.

(** What the handler returns: the JSON payloads, by their kind. *)
Inductive Response : Type :=
| success (result : AudioResult.t)
| invalid_parameters
| failure (message : string) (code : ErrorCode) (engine : option string)
| internal_error (message : string).

Section Router.
(** The engine objects of the registry, and the state they work on. *)
Context {Engine S : Type}.
Variable engine_name : Engine -> string.
Variable engine_synthesize : Engine -> SynthesisRequest.t -> M S AudioResult.t.
(** [audioPlayer.setMostRecentFile] *)
Variable setMostRecentFile : string -> M S unit.

Definition selectEngine (preference : EnginePreference)
    (engines : gmap string Engine) : option Engine :=
  match preference with
  | pref_macos => JS.or (engines !! "macos") None
  | pref_kokoro => JS.or (engines !! "kokoro") None
  | pref_auto =>
      (* Auto selection: prefer Kokoro for quality, fallback to macOS
         for speed *)
      JS.or (engines !! "kokoro") (JS.or (engines !! "macos") None)
  end.

(** The selection step of [synthesizeTextHandler]: [selectEngine], and
    the [throw] when it returns [null]. *)
Definition requireEngine (preference : EnginePreference)
    (engines : gmap string Engine) : Result Engine :=
  match selectEngine preference engines with
  | Some engine => Ok engine
  | None =>
      Throw (TTSError "No available TTS engines" ENGINE_NOT_AVAILABLE None None)
  end.

Definition synthesizeTextHandler (params : Params)
    (engines : gmap string Engine) : M S Response :=
  match parse params with
  | None => ret invalid_parameters
  | Some validatedParams =>
      tryCatch
        (let* engine := await (requireEngine (engine validatedParams) engines) in
         let request :=
           {| SynthesisRequest.text := text validatedParams;
              SynthesisRequest.voice := voice validatedParams;
              SynthesisRequest.engine := Some (engine_name engine);
              SynthesisRequest.outputFormat := Some (outputFormat validatedParams);
              SynthesisRequest.speed := Some (speed validatedParams);
              SynthesisRequest.quality := Some (quality validatedParams) |} in
         let* result := engine_synthesize engine request in
         (* Track the most recent file for audio player *)
         setMostRecentFile (AudioResult.filePath result) ;;
         ret (success result))
        (fun error =>
           match error with
           | TTSError message code engine _ => ret (failure message code engine)
           | Error message => ret (internal_error message)
           end)
  end.
End Router.

End SynthesizeText.

(** ** The voice list (tools/list-voices.ts) *)

Module ListVoices.

(** The [engine] parameter of a [list_voices] call. *)
Inductive EngineFilter : Type := only_macos | only_kokoro | all.

Definition filterName (f : EngineFilter) : string :=
  match f with
  | only_macos => "macos"
  | only_kokoro => "kokoro"
  | all => "all"
  end.

Record Params : Type := mkParams {
  p_engine : option string;
  p_language : option string;
  p_gender : option string
}.

(** [z.infer<typeof listVoicesSchema>] *)
Record ListVoicesParams : Type := mkValidated {
  engine : EngineFilter;
  language : option string;
  gender : option Gender
}.

Definition parseEngine (raw : option string) : option EngineFilter :=
  match raw with
  | None => Some all
  | Some raw =>
      if String.eqb raw "macos" then Some only_macos
      else if String.eqb raw "kokoro" then Some only_kokoro
      else if String.eqb raw "all" then Some all
      else None
  end.

Definition parseGender (raw : option string) : option (option Gender) :=
  match raw with
  | None => Some None
  | Some raw =>
      if String.eqb raw "male" then Some (Some male)
      else if String.eqb raw "female" then Some (Some female)
      else if String.eqb raw "neutral" then Some (Some neutral)
      else None
  end.

(** [listVoicesSchema.parse(params)]; [None] is a [ZodError]. *)
Definition parse (params : Params) : option ListVoicesParams :=
  match parseEngine (p_engine params), parseGender (p_gender params) with
  | Some e, Some g =>
      Some {| engine := e; language := p_language params; gender := g |}
  | _, _ => None
  end.

(** The test of the language filter on a voice. *)
Definition languageMatches (targetLang : string) (voice : Voice.t) : bool :=
  JS.includes (JS.toLowerCase (Voice.language voice)) targetLang
  || JS.startsWith (JS.toLowerCase (Voice.language voice))
                    (hd EmptyString (JS.split "-" targetLang)).

Definition genderMatches (gender : Gender) (voice : Voice.t) : bool :=
  match Voice.gender voice with
  | Some g => Gender_eqb g gender
  | None => false
  end.

(** The two [if] statements under [Apply filters]. *)
Definition applyFilters (validatedParams : ListVoicesParams)
    (allVoices : list Voice.t) : list Voice.t :=
  let filteredVoices := allVoices in
  let filteredVoices :=
    match JS.truthy (language validatedParams) with
    | Some language =>
        let targetLang := JS.toLowerCase language in
        List.filter (languageMatches targetLang) filteredVoices
    | None => filteredVoices
    end in
  match gender validatedParams with
  | Some gender => List.filter (genderMatches gender) filteredVoices
  | None => filteredVoices
  end.

(** What the handler returns, by its kind: the voices of the payload in
    the order of the sort (the payload groups them by engine and counts
    them), or the report of a [ZodError]. *)
Inductive Response : Type :=
| success (filteredVoices : list Voice.t)
| invalid_parameters.

Section Handler.
Context {Engine S : Type}.
Variable engine_listVoices : Engine -> M S (list Voice.t).
(** [filteredVoices.sort(...)] with the comparator of the handler, which
    compares by [localeCompare]. *)
Variable sort : list Voice.t -> list Voice.t.

(** The [for] loop over the entries of the registry, in the order of
    their insertion. *)
Fixpoint collect (filter : EngineFilter) (entries : list (string * Engine))
    (allVoices : list Voice.t) : M S (list Voice.t) :=
  match entries with
  | [] => ret allVoices
  | (engineName, engine) :: rest =>
      let* allVoices :=
        if String.eqb (filterName filter) "all"
           || String.eqb (filterName filter) engineName
        then
          tryCatch
            (let* voices := engine_listVoices engine in
             ret (allVoices ++ voices)%list)
            (fun error => ret allVoices)
        else ret allVoices in
      collect filter rest allVoices
  end.

Definition listVoicesHandler (params : Params)
    (entries : list (string * Engine)) : M S Response :=
  match parse params with
  | None => ret invalid_parameters
  | Some validatedParams =>
      let* allVoices := collect (engine validatedParams) entries [] in
      ret (success (sort (applyFilters validatedParams allVoices)))
  end.
End Handler.
End ListVoices.

(** ** The health check (tools/health-check.ts) *)

Module HealthCheck.



Section Handler.
Context {Engine S : Type}.
Variable engine_isAvailable : Engine -> M S bool.
Variable engine_listVoices : Engine -> M S (list Voice.t).



End Handler.
End HealthCheck.

(** ** The server (server.ts) *)

Module Server.

(** The two engine objects that [initializeEngines] makes. *)
Inductive Engine : Type := macosEngine | kokoroEngine.

Definition engine_name (engine : Engine) : string :=
  match engine with
  | macosEngine => MacOSEngine.name
  | kokoroEngine => KokoroEngine.name
  end.

(** The objects that the handlers work on: the two engines, the regular
    files and the playback singleton. *)
Record t : Type := mk {
  macos : MacOSEngine.t;
  kokoro : KokoroEngine.t;
  files : Files;
  audioPlayer : AudioPlayer.Host
}.

(** A method of the macOS engine, of the Kokoro engine or of the player,
    run on the server. *)
Definition on_macos {A : Type} (m : M (MacOSEngine.t * Files) A) : M t A :=
  fun s =>
    let '(r, (e, fs)) := m (macos s, files s) in
    (r, {| macos := e; kokoro := kokoro s; files := fs;
           audioPlayer := audioPlayer s |}).

Definition on_kokoro {A : Type} (m : M (KokoroEngine.t * Files) A) : M t A :=
  fun s =>
    let '(r, (e, fs)) := m (kokoro s, files s) in
    (r, {| macos := macos s; kokoro := e; files := fs;
           audioPlayer := audioPlayer s |}).

Definition on_player {A : Type} (m : M AudioPlayer.Host A) : M t A :=
  fun s =>
    let '(r, p) := m (audioPlayer s) in
    (r, {| macos := macos s; kokoro := kokoro s; files := files s;
           audioPlayer := p |}).

(** The entries of a registry made by [initializeEngines], in the order
    of their insertion: [macos] is set before [kokoro]. *)
Definition entries (engines : gmap string Engine) : list (string * Engine) :=
  match engines !! "macos" with Some e => [("macos", e)] | None => [] end
  ++ match engines !! "kokoro" with Some e => [("kokoro", e)] | None => [] end.

Section Host.
Variable w : World.
Variable x : Execa.

Definition engine_synthesize (engine : Engine) (request : SynthesisRequest.t)
    : M t AudioResult.t :=
  match engine with
  | macosEngine => on_macos (MacOSEngine.synthesize w request)
  | kokoroEngine => on_kokoro (KokoroEngine.synthesize w request)
  end.

Definition engine_listVoices (engine : Engine) : M t (list Voice.t) :=
  match engine with
  | macosEngine => on_macos (on_this (MacOSEngine.listVoices w))
  | kokoroEngine => on_kokoro (on_this (KokoroEngine.listVoices w))
  end.

(** The [synthesize_text] tool: [synthesizeTextHandler] on the engines
    of the server, with the playback singleton. *)
Definition synthesize_text (params : SynthesizeText.Params)
    (engines : gmap string Engine) : M t SynthesizeText.Response :=
  SynthesizeText.synthesizeTextHandler engine_name engine_synthesize
    (fun filePath => on_player (AudioPlayer.setMostRecentFile filePath))
    params engines.

(** The [play_audio] tool. *)
Definition play_audio (zodError : string) (params : AudioPlayer.Params)
    (spawn_ok : bool) : M t AudioPlayer.Reply :=
  on_player (AudioPlayer.playAudioHandler zodError params spawn_ok).

(** [initializeEngines], from the two directories that it reads from the
    environment: the registry, and the two engine objects as it leaves
    them. An engine that is not registered is dropped by the source. *)
Definition initializeEngines (outputDir tempDir : string)
    : gmap string Engine * (MacOSEngine.t * KokoroEngine.t) :=
  let macosObject := MacOSEngine.new outputDir tempDir in
  let '(engineMap, macosObject) :=
    (* Initialize macOS engine *)
    if MacOSEngine.isAvailable w then
      match MacOSEngine.initialize w macosObject with
      | (Ok _, initialized) => (<["macos" := macosEngine]> ∅, initialized)
      | (Throw _, failed) => (∅, failed)
      end
    else (∅, macosObject) in
  let kokoroObject := KokoroEngine.new outputDir tempDir in
  let '(engineMap, kokoroObject) :=
    (* Initialize Kokoro engine *)
    if KokoroEngine.isAvailable x then
      match KokoroEngine.initialize w kokoroObject with
      | (Ok _, initialized) => (<["kokoro" := kokoroEngine]> engineMap, initialized)
      | (Throw _, failed) => (engineMap, failed)
      end
    else (engineMap, kokoroObject) in
  (engineMap, (macosObject, kokoroObject)).


(** The [list_voices] and [health_check] tools. *)
Definition list_voices (sort : list Voice.t -> list Voice.t)
    (params : ListVoices.Params) (engines : gmap string Engine)
    : M t ListVoices.Response :=
  ListVoices.listVoicesHandler engine_listVoices sort params (entries engines).

End Host.
End Server.

(** ** Notions used to state the properties *)

(** A voice whose name or id is the request, letter case apart. *)
Definition exact_match (requested : string) (v : Voice.t) : bool :=
  String.eqb (JS.toLowerCase (Voice.name v)) (JS.toLowerCase requested)
  || String.eqb (JS.toLowerCase (Voice.id v)) (JS.toLowerCase requested).

(** A voice whose name, in lower case, contains the request in lower
    case. *)
Definition partial_match (requested : string) (v : Voice.t) : bool :=
  JS.includes (JS.toLowerCase (Voice.name v)) (JS.toLowerCase requested).

(** How a child went: [Some (code, out, err)] when it exited with [code]
    after writing [out] to its standard output and [err] to its standard
    error, [None] when it has not exited by the time the timer fires.
    [out] and [err] start as what was written before. *)
Fixpoint exit_of (out err : string) (evs : list ChildProcess.Event)
    : option (option Z * string * string) :=
  match evs with
  | [] => None
  | ChildProcess.stdout_data d :: rest => exit_of (out +:+ d) err rest
  | ChildProcess.stderr_data d :: rest => exit_of out (err +:+ d) rest
  | ChildProcess.close code :: _ => Some (code, out, err)
  end.

(** A thrown value that is a [TTSError] tagged with the engine [name]. *)
Definition tagged (name : string) (e : Exn) : Prop :=
  exists message code cause, e = TTSError message code (Some name) cause.

(** [clamp(x, lo, hi)], as the specification writes the rate. *)
Definition clamp (x : JS.integral) (lo hi : Z) : JS.integral :=
  match x with
  | JS.NaN => JS.NaN
  | JS.NegInfinity => JS.Int lo
  | JS.Infinity => JS.Int hi
  | JS.Int z => JS.Int (if z <? lo then lo else if hi <? z then hi else z)
  end.

(** *** Binary64 rounding, on integers

    The notions below describe what [SFmul] computes; they are used to
    prove that the rate is monotonic. *)

Module Binary64.

(** [M / 2 ^ n] rounded to the nearest integer, a tie going to the even
    one. *)
Definition rne (M n : Z) : Z :=
  let q := M / 2 ^ n in
  let r := M mod 2 ^ n in
  if 2 * r <? 2 ^ n then q
  else if 2 ^ n <? 2 * r then q + 1
  else if Z.even q then q else q + 1.

(** What [n] steps of [shr_1] make of the mantissa [M]: the quotient by
    [2 ^ n], with the two bits that place the remainder against the half. *)
Definition shifted (M : Z) (n : nat) : shr_record :=
  let r := M mod 2 ^ Z.of_nat n in
  {| shr_m := M / 2 ^ Z.of_nat n;
     shr_r := 2 ^ Z.of_nat n <=? 2 * r;
     shr_s := negb (r =? 0) && negb (2 * r =? 2 ^ Z.of_nat n) |}.

(** [binary_round_aux] on an exact mantissa, with the shifts written as
    divisions. *)
Definition round_aux (sx : bool) (M E : Z) : spec_float :=
  let n := Z.max 0 (fexp 53 1024 (Zdigits2 M + E) - E) in
  let m2 := rne M n in
  let e' := E + n in
  let n2 := Z.max 0 (fexp 53 1024 (Zdigits2 m2 + e') - e') in
  match m2 / 2 ^ n2 with
  | Z0 => S754_zero sx
  | Zpos m =>
      if e' + n2 <=? 1024 - 53 then S754_finite sx m (e' + n2) else S754_infinity sx
  | Zneg _ => S754_nan
  end.

(** A positive [V], in some unit, rounded to 53 significant bits and to
    a multiple of [2 ^ 45] units: with the unit [2 ^ -1119], the value of
    the double nearest to [V]. *)
Definition flv (V : Z) : Z :=
  let t := Z.max (Z.log2 V + 1 - 53) 45 in
  rne V t * 2 ^ t.

(** The clamp as [calculateRate] writes it, and on integers. *)
Definition clampI (x : JS.integral) : JS.integral := JS.max 80 (JS.min 400 x).
Definition clampZ (z : Z) : Z := Z.max 80 (Z.min 400 z).

(** [Math.round] of a value given in units of [2 ^ -1119]. *)
Definition rho (W : Z) : Z := (W + 2 ^ 1118) / 2 ^ 1119.

(** A positive double, in units of [2 ^ -1074]. *)
Definition scaled (x : spec_float) : Z :=
  match x with
  | S754_finite false m e => Zpos m * 2 ^ (e + 1074)
  | _ => 0
  end.

End Binary64.

(** A lower-case letter, a digit or an underscore. *)
Definition isFileNameChar (c : ascii) : bool :=
  let n := N_of_ascii c in
  (((97 <=? n) && (n <=? 122)) || ((48 <=? n) && (n <=? 57)) || (n =? 95))%N.

(** The two characters backslash and n. *)
Definition backslash_n : string := String (ascii_of_N 92) "n".

(** The executables that [findPythonExecutable] tries, in its order. *)
Definition pythonSearchOrder (w : World) : list string :=
  KokoroEngine.KNOWN_WORKING_PYTHON
  :: match JS.truthy (env_PYTHON_EXECUTABLE w) with
     | Some fromEnv => [fromEnv]
     | None => []
     end
  ++ KokoroEngine.candidates.

(** The arguments with which [synthesize] of the macOS engine spawns
    [say]. *)
Definition say_arguments (w : World) (this : MacOSEngine.t)
    (request : SynthesisRequest.t) (voice : Voice.t) : list string :=
  ["-v"; Voice.name voice;
   "-r"; JS.showIntegral (MacOSEngine.calculateRate (SynthesisRequest.speed request));
   "-o"; MacOSEngine.outputPath w this voice (SynthesisRequest.text request);
   SynthesisRequest.text request].

(** What the [catch] block of [synthesize] rethrows. *)
Definition rethrown (name wrapped : string) (error : Exn) : Exn :=
  match error with
  | TTSError _ _ _ _ => error
  | Error _ => TTSError wrapped SYNTHESIS_FAILED (Some name) (Some error)
  end.

(** The files once [synthesize] of the Kokoro engine has written its
    script. *)
Definition written (w : World) (this : KokoroEngine.t)
    (request : SynthesisRequest.t) (voice : Voice.t) (files : Files) : Files :=
  <[KokoroEngine.scriptPath w this :=
      KokoroEngine.generateKokoroScript (SynthesisRequest.text request) voice
        (KokoroEngine.outputPath w this voice (SynthesisRequest.text request))]>
    files.

(** The runs in which the [try] block of [synthesize] of the macOS
    engine completes: the output directory is made, the [say] child
    exits with code 0, and the output file is there. *)
Definition macos_run_succeeds (w : World) (this : MacOSEngine.t)
    (request : SynthesisRequest.t) (voice : Voice.t) (files : Files) : Prop :=
  mkdir_ok w (MacOSEngine.outputDir this) = true
  /\ (exists events out err,
        say_run w (say_arguments w this request voice) = ChildProcess.spawned events
        /\ exit_of EmptyString EmptyString events = Some (Some 0, out, err))
  /\ child_files w files
     !! MacOSEngine.outputPath w this voice (SynthesisRequest.text request)
     <> None.

(** The [say] child has started and has not closed when the timer
    fires. *)
Definition macos_run_times_out (w : World) (this : MacOSEngine.t)
    (request : SynthesisRequest.t) (voice : Voice.t) : Prop :=
  mkdir_ok w (MacOSEngine.outputDir this) = true
  /\ exists events,
       say_run w (say_arguments w this request voice) = ChildProcess.spawned events
       /\ exit_of EmptyString EmptyString events = None.

(** The runs in which the [try] block of [synthesize] of the Kokoro
    engine completes: the output directory is made, the script is
    written, the Python child exits with code 0 after printing the
    marker, the script is removed, and the output file is there. *)
Definition kokoro_run_succeeds (w : World) (this : KokoroEngine.t)
    (request : SynthesisRequest.t) (voice : Voice.t) (files : Files) : Prop :=
  mkdir_ok w (KokoroEngine.outputDir this) = true
  /\ writeFile_ok w (KokoroEngine.scriptPath w this) = true
  /\ exists executable events out err,
       JS.truthy (KokoroEngine.pythonExecutable this) = Some executable
       /\ python_run w executable (KokoroEngine.scriptPath w this)
          = ChildProcess.spawned events
       /\ exit_of EmptyString EmptyString events = Some (Some 0, out, err)
       /\ JS.includes out "SUCCESS" = true
       /\ child_files w (written w this request voice files)
          !! KokoroEngine.scriptPath w this <> None
       /\ unlink_ok w (KokoroEngine.scriptPath w this) = true
       /\ delete (KokoroEngine.scriptPath w this)
            (child_files w (written w this request voice files))
          !! KokoroEngine.outputPath w this voice (SynthesisRequest.text request)
          <> None.

(** The Python child has started and has not closed when the timer
    fires. *)
Definition kokoro_run_times_out (w : World) (this : KokoroEngine.t) : Prop :=
  mkdir_ok w (KokoroEngine.outputDir this) = true
  /\ writeFile_ok w (KokoroEngine.scriptPath w this) = true
  /\ exists executable events,
       JS.truthy (KokoroEngine.pythonExecutable this) = Some executable
       /\ python_run w executable (KokoroEngine.scriptPath w this)
          = ChildProcess.spawned events
       /\ exit_of EmptyString EmptyString events = None.

(** The files after the [catch] block of [synthesize] has tried to
    delete the file at [op], the error of the deletion being ignored. *)
Definition cleaned (w : World) (op : string) (files : Files) : Files :=
  if unlink_ok w op then delete op files else files.

(** The files after what a child killed by the timer still writes: the
    error of the timer is the one with the code [TIMEOUT]. *)
Definition after_kill (w : World) (error : Exn) (files : Files) : Files :=
  match exn_code error with
  | Some TIMEOUT => late_files w files
  | _ => files
  end.

(** The voices that a call of [listVoices] gives to a caller that
    catches what it throws. *)
Definition listed (r : Result (list Voice.t)) : list Voice.t :=
  match r with Ok voices => voices | Throw _ => [] end.

(** The codes with which a tool call that passed the validation can
    fail. *)
Definition failure_codes : list ErrorCode :=
  [ENGINE_NOT_AVAILABLE; INVALID_PARAMETERS; VOICE_NOT_FOUND;
   FILE_OPERATION_FAILED; SYNTHESIS_FAILED; TIMEOUT].

(** The children named by the player and by the signals have been
    spawned. *)
Definition children_known (h : AudioPlayer.Host) : Prop :=
  (forall child,
     AudioPlayer.currentProcess (AudioPlayer.this h) = Some child ->
     (child < AudioPlayer.spawned h)%nat)
  /\ (forall child sig,
        In (child, sig) (AudioPlayer.signals h) ->
        (child < AudioPlayer.spawned h)%nat).

(** ** Hosts and requests used as concrete inputs *)

Module Scenario.
Import ChildProcess.

Definition alex : Voice.t :=
  {| Voice.id := "macos-alex"; Voice.name := "Alex"; Voice.language := "en-us";
     Voice.gender := Some male;
     Voice.description := Some "Most people recognize me by my voice.";
     Voice.engine := macos; Voice.quality := balanced |}.

Definition samantha : Voice.t :=
  {| Voice.id := "macos-samantha"; Voice.name := "Samantha";
     Voice.language := "en-us"; Voice.gender := Some female;
     Voice.description := Some "Hello, my name is Samantha.";
     Voice.engine := macos; Voice.quality := balanced |}.

(** A host on which [say] is missing and no Python answers. *)
Definition linux : World :=
  {| platform := "linux"; which_say := false; say_listing := None;
     env_PYTHON_EXECUTABLE := None;
     python_version := fun _ => spawn_failed "spawn ENOENT";
     kokoro_check := fun _ => [close (Some 1)];
     mkdir_ok := fun _ => true; writeFile_ok := fun _ => true;
     unlink_ok := fun _ => true;
     now_iso := "2025-06-01T10:20:30.456Z";
     now_start := 1748773230456; now_script := 1748773230460;
     now_end := 1748773231500;
     say_run := fun _ => spawn_failed "spawn say ENOENT";
     python_run := fun _ _ => spawn_failed "spawn ENOENT";
     child_files := fun files => files;
     late_files := fun files => files |}.

(** A Mac with Kokoro installed, on which the synthesis child writes
    part of the audio file and then exits with code 1 without the
    marker. *)
Definition failing (outputPath : string) : World :=
  {| platform := "darwin"; which_say := true;
     say_listing := Some [alex; samantha];
     env_PYTHON_EXECUTABLE := None;
     python_version := fun _ => spawned [stdout_data "Python 3.12.4"; close (Some 0)];
     kokoro_check := fun _ =>
       [stdout_data "SUCCESS: Kokoro package verification complete"; close (Some 0)];
     mkdir_ok := fun _ => true; writeFile_ok := fun _ => true;
     unlink_ok := fun _ => true;
     now_iso := "2025-06-01T10:20:30.456Z";
     now_start := 1748773230456; now_script := 1748773230460;
     now_end := 1748773231500;
     say_run := fun _ => spawned [stderr_data "Voice not ready"; close (Some 1)];
     python_run := fun _ _ =>
       spawned [stderr_data "Kokoro synthesis error: out of memory"; close (Some 1)];
     child_files := fun files => <[outputPath := "RIFF"]> files;
     late_files := fun files => files |}.

(** The same host, on which the Python child exits with code 0 and has
    not printed the marker. *)
Definition silent : World :=
  let w := failing "/out/none.wav" in
  {| platform := platform w; which_say := which_say w;
     say_listing := say_listing w;
     env_PYTHON_EXECUTABLE := env_PYTHON_EXECUTABLE w;
     python_version := python_version w; kokoro_check := kokoro_check w;
     mkdir_ok := mkdir_ok w; writeFile_ok := writeFile_ok w;
     unlink_ok := unlink_ok w;
     now_iso := now_iso w; now_start := now_start w;
     now_script := now_script w; now_end := now_end w;
     say_run := say_run w;
     python_run := fun _ _ =>
       spawned [stdout_data "Pipeline initialized successfully"; close (Some 0)];
     child_files := fun files => files;
     late_files := fun files => files |}.

(** The same host, on which both synthesis children write the audio
    file and exit with code 0, the Python child after printing the
    marker. *)
Definition working (outputPath : string) : World :=
  let w := failing outputPath in
  {| platform := platform w; which_say := which_say w;
     say_listing := say_listing w;
     env_PYTHON_EXECUTABLE := env_PYTHON_EXECUTABLE w;
     python_version := python_version w; kokoro_check := kokoro_check w;
     mkdir_ok := mkdir_ok w; writeFile_ok := writeFile_ok w;
     unlink_ok := unlink_ok w;
     now_iso := now_iso w; now_start := now_start w;
     now_script := now_script w; now_end := now_end w;
     say_run := fun _ => spawned [close (Some 0)];
     python_run := fun _ _ =>
       spawned [stdout_data "Pipeline initialized successfully";
                stdout_data ("SUCCESS" +:+ JS.newline); close (Some 0)];
     child_files := child_files w; late_files := late_files w |}.

Definition hello : SynthesisRequest.t :=
  {| SynthesisRequest.text := "Hello, world!"; SynthesisRequest.voice := None;
     SynthesisRequest.engine := Some "kokoro";
     SynthesisRequest.outputFormat := Some aiff;
     SynthesisRequest.speed := None; SynthesisRequest.quality := Some balanced |}.

(** 50,001 spaces. *)
Definition spaces : SynthesisRequest.t :=
  {| SynthesisRequest.text := JS.repeat " " 50001; SynthesisRequest.voice := None;
     SynthesisRequest.engine := None; SynthesisRequest.outputFormat := None;
     SynthesisRequest.speed := None; SynthesisRequest.quality := None |}.

(** 50,001 letters. *)
Definition letters : SynthesisRequest.t :=
  {| SynthesisRequest.text := JS.repeat "a" 50001; SynthesisRequest.voice := None;
     SynthesisRequest.engine := None; SynthesisRequest.outputFormat := None;
     SynthesisRequest.speed := None; SynthesisRequest.quality := None |}.

(** An engine of each kind, fresh and after a successful
    initialization. *)
Definition mac_fresh : MacOSEngine.t := MacOSEngine.new "/out" "/tmp".
Definition mac_ready : MacOSEngine.t :=
  {| MacOSEngine.voices := [alex; samantha]; MacOSEngine.initialized := true;
     MacOSEngine.outputDir := "/out"; MacOSEngine.tempDir := "/tmp" |}.
Definition kokoro_fresh : KokoroEngine.t := KokoroEngine.new "/out" "/tmp".
Definition kokoro_ready : KokoroEngine.t :=
  {| KokoroEngine.voices := KokoroEngine.catalog;
     KokoroEngine.initialized := true;
     KokoroEngine.outputDir := "/out"; KokoroEngine.tempDir := "/tmp";
     KokoroEngine.pythonExecutable := Some KokoroEngine.KNOWN_WORKING_PYTHON |}.

Definition af_sarah : Voice.t :=
  KokoroEngine.kv "kokoro-af_sarah" "AF_SARAH" "en-us" female
                  "Sarah - clear American female".

Definition kokoro_out : string :=
  "/out/kokoro_AF_SARAH_2025-06-01T10-20-30_hello_world.wav".
Definition kokoro_script : string := "/tmp/kokoro_1748773230460.py".
Definition mac_out : string :=
  "/out/macos_Alex_2025-06-01T10-20-30_hello_world.aiff".

(** The hosts on which the child of the Kokoro engine, or of the macOS
    engine, fails or works. *)
Definition kokoro_failing : World := failing kokoro_out.
Definition mac_failing : World := failing mac_out.
Definition kokoro_working : World := working kokoro_out.
Definition mac_working : World := working mac_out.

(** The host of [mac_failing], on which no file can be removed. *)
Definition mac_locked : World :=
  let w := mac_failing in
  {| platform := platform w; which_say := which_say w;
     say_listing := say_listing w;
     env_PYTHON_EXECUTABLE := env_PYTHON_EXECUTABLE w;
     python_version := python_version w; kokoro_check := kokoro_check w;
     mkdir_ok := mkdir_ok w; writeFile_ok := writeFile_ok w;
     unlink_ok := fun _ => false;
     now_iso := now_iso w; now_start := now_start w;
     now_script := now_script w; now_end := now_end w;
     say_run := say_run w; python_run := python_run w;
     child_files := child_files w; late_files := late_files w |}.

(** The host of [kokoro_failing], on which the Python child has written
    part of the audio file and has not closed when the timer fires, and
    writes once more before the signal ends it. *)
Definition kokoro_hanging : World :=
  let w := kokoro_failing in
  {| platform := platform w; which_say := which_say w;
     say_listing := say_listing w;
     env_PYTHON_EXECUTABLE := env_PYTHON_EXECUTABLE w;
     python_version := python_version w; kokoro_check := kokoro_check w;
     mkdir_ok := mkdir_ok w; writeFile_ok := writeFile_ok w;
     unlink_ok := unlink_ok w;
     now_iso := now_iso w; now_start := now_start w;
     now_script := now_script w; now_end := now_end w;
     say_run := say_run w;
     python_run := fun _ _ =>
       spawned [stdout_data "Pipeline initialized successfully"];
     child_files := child_files w;
     late_files := fun files => <[kokoro_out := "RIFFWAVE"]> files |}.

(** The player after [play] of a file, then after [pause], and after
    [stop]. *)
Definition playing : AudioPlayer.Host :=
  AudioPlayer.step (AudioPlayer.request (Some "/out/a.aiff") AudioPlayer.action_play true)
    AudioPlayer.instance.
Definition paused : AudioPlayer.Host :=
  AudioPlayer.step (AudioPlayer.request None AudioPlayer.action_pause true) playing.
Definition stopped : AudioPlayer.Host :=
  AudioPlayer.step (AudioPlayer.request None AudioPlayer.action_stop true) playing.

(** A registry with the native-command engine alone. *)
Definition mac_only : gmap string string := {[ "macos" := "the macOS engine" ]}.

(** The numbers 0, 0.75 and 1.3. *)
Definition zero : spec_float := S754_zero false.
Definition n0_75 : spec_float := S754_finite false 6755399441055744 (-53).
Definition n1_3 : spec_float := S754_finite false 5854679515581645 (-52).
(** Three lines of the voice listing of [say]. *)
Definition listing : string :=
  "Alex                en_US    # Most people recognize me by my voice."
  +:+ JS.newline
  +:+ "Bad News            en_US    # The light you see is a train."
  +:+ JS.newline
  +:+ "Samantha            en_US    # Hello, my name is Samantha."
  +:+ JS.newline.

Definition parsed_samantha : Voice.t :=
  {| Voice.id := "macos-samantha"; Voice.name := "Samantha";
     Voice.language := "en-us"; Voice.gender := Some male;
     Voice.description := Some "Hello, my name is Samantha.";
     Voice.engine := macos; Voice.quality := balanced |}.

(** A Mac on which [python] alone answers, and it has Kokoro. *)
Definition only_python : World :=
  let w := working mac_out in
  {| platform := platform w; which_say := which_say w;
     say_listing := say_listing w;
     env_PYTHON_EXECUTABLE := env_PYTHON_EXECUTABLE w;
     python_version := fun executable =>
       if String.eqb executable "python"
       then spawned [stdout_data "Python 3.12.4"; close (Some 0)]
       else spawn_failed "spawn ENOENT";
     kokoro_check := kokoro_check w;
     mkdir_ok := mkdir_ok w; writeFile_ok := writeFile_ok w;
     unlink_ok := unlink_ok w;
     now_iso := now_iso w; now_start := now_start w;
     now_script := now_script w; now_end := now_end w;
     say_run := say_run w; python_run := python_run w;
     child_files := child_files w; late_files := late_files w |}.

Definition only_python_execa : Execa :=
  {| execa_version := fun executable =>
       if String.eqb executable "python" then Ok (Some 0) else Ok None;
     execa_import := fun _ => Ok (Some 0) |}.

(** The registry with both engines, and a server whose Kokoro engine has
    not been initialized. *)
Definition both : gmap string Server.Engine :=
  {[ "macos" := Server.macosEngine; "kokoro" := Server.kokoroEngine ]}.

Definition server : Server.t :=
  {| Server.macos := mac_ready; Server.kokoro := kokoro_fresh;
     Server.files := ∅; Server.audioPlayer := AudioPlayer.instance |}.

Definition ready_server : Server.t :=
  {| Server.macos := mac_ready; Server.kokoro := kokoro_ready;
     Server.files := ∅; Server.audioPlayer := AudioPlayer.instance |}.

Definition hello_params : SynthesizeText.Params :=
  {| SynthesizeText.p_text := Some "Hello, world!";
     SynthesizeText.p_voice := None; SynthesizeText.p_engine := None;
     SynthesizeText.p_outputFormat := None; SynthesizeText.p_speed := None;
     SynthesizeText.p_quality := None |}.

Definition hello_validated : SynthesizeText.SynthesizeTextParams :=
  {| SynthesizeText.text := "Hello, world!"; SynthesizeText.voice := None;
     SynthesizeText.engine := pref_auto; SynthesizeText.outputFormat := aiff;
     SynthesizeText.speed := JS.n1; SynthesizeText.quality := balanced |}.

Definition hello_mp3 : SynthesisRequest.t :=
  {| SynthesisRequest.text := "Hello, world!"; SynthesisRequest.voice := None;
     SynthesisRequest.engine := Some "kokoro";
     SynthesisRequest.outputFormat := Some mp3;
     SynthesisRequest.speed := Some JS.n3; SynthesisRequest.quality := Some high |}.

End Scenario.

(** * Properties *)

Ltac run :=
  cbv [bind ret throw tryCatch get put modify await on_this
       unlink stat_size writeFile mkdir run_child killed_child] in *;
  cbn [fst snd] in *.

Example trim_example : JS.trim "  a b  " = "a b".
Proof. reflexivity. Qed.

Example toLowerCase_example : JS.toLowerCase "AF_Sarah (Female)" = "af_sarah (female)".
Proof. reflexivity. Qed.

Example includes_example :
  JS.includes ("Done" +:+ JS.newline +:+ "SUCCESS" +:+ JS.newline) "SUCCESS" = true
  /\ JS.includes "SUCCES" "SUCCESS" = false.
Proof. split; reflexivity. Qed.

Example textPreview_example :
  textPreview "Hello,   world! It's 9 o'clock somewhere" = "hello_world_its_9_oclock".
Proof. reflexivity. Qed.

Example timestamp_example :
  timestamp Scenario.mac_failing = "2025-06-01T10-20-30".
Proof. reflexivity. Qed.

(** 2.5 rounds to 3, -2.5 to -2, and the literal 200 is the number 200. *)
Example round_examples :
  JS.round (S754_finite false 5 (-1)) = JS.Int 3
  /\ JS.round (S754_finite true 5 (-1)) = JS.Int (-2)
  /\ JS.valid JS.n200 = true /\ JS.round JS.n200 = JS.Int 200.
Proof. repeat split; reflexivity. Qed.

(** 0.1 * 200 is the double 20, and 1.3 * 200 the double 260. *)
Example mul_examples :
  JS.mul JS.n0_1 JS.n200 = S754_finite false 5629499534213120 (-48)
  /\ JS.mul (S754_finite false 5854679515581645 (-52)) JS.n200
     = S754_finite false 4573968371548160 (-44).
Proof. split; vm_compute; reflexivity. Qed.

Example kokoro_out_is_outputPath :
  KokoroEngine.outputPath Scenario.kokoro_failing
    Scenario.kokoro_ready Scenario.af_sarah "Hello, world!" = Scenario.kokoro_out.
Proof. vm_compute. reflexivity. Qed.

Example kokoro_script_is_scriptPath :
  KokoroEngine.scriptPath Scenario.kokoro_failing
    Scenario.kokoro_ready = Scenario.kokoro_script.
Proof. vm_compute. reflexivity. Qed.

Example mac_out_is_outputPath :
  MacOSEngine.outputPath Scenario.mac_failing
    Scenario.mac_ready Scenario.alex "Hello, world!" = Scenario.mac_out.
Proof. vm_compute. reflexivity. Qed.

Example fresh_kokoro_initializes :
  KokoroEngine.initialize Scenario.kokoro_failing Scenario.kokoro_fresh
  = (Ok tt, Scenario.kokoro_ready).
Proof. vm_compute. reflexivity. Qed.

Example fresh_mac_initializes :
  MacOSEngine.initialize Scenario.mac_failing Scenario.mac_fresh
  = (Ok tt, Scenario.mac_ready).
Proof. vm_compute. reflexivity. Qed.

(** A synthesis that succeeds on each engine: the audio file is there,
    and the script of the Kokoro engine is gone. *)
Example kokoro_synthesis_succeeds :
  KokoroEngine.synthesize Scenario.kokoro_working Scenario.hello
    (Scenario.kokoro_ready, ∅)
  = (Ok {| AudioResult.filePath := Scenario.kokoro_out;
           AudioResult.format := "wav"; AudioResult.duration := None;
           AudioResult.size := 4;
           AudioResult.metadata :=
             {| AudioResult.voice := "AF_SARAH"; AudioResult.engine := "kokoro";
                AudioResult.textLength := 13; AudioResult.synthesisTime := 1044 |} |},
     (Scenario.kokoro_ready, {[ Scenario.kokoro_out := "RIFF" ]})).
Proof. vm_compute. reflexivity. Qed.

Example macos_synthesis_succeeds :
  MacOSEngine.synthesize Scenario.mac_working Scenario.hello (Scenario.mac_fresh, ∅)
  = (Ok {| AudioResult.filePath := Scenario.mac_out;
           AudioResult.format := "aiff"; AudioResult.duration := None;
           AudioResult.size := 4;
           AudioResult.metadata :=
             {| AudioResult.voice := "Alex"; AudioResult.engine := "macos";
                AudioResult.textLength := 13; AudioResult.synthesisTime := 1044 |} |},
     (Scenario.mac_ready, {[ Scenario.mac_out := "RIFF" ]})).
Proof. vm_compute. reflexivity. Qed.

(** ** The playback controller *)

Section Playback.
Import AudioPlayer.

Lemma stop_clears (h : Host) :
  currentProcess (this (snd (stop h))) = None
  /\ currentFile (this (snd (stop h))) = None
  /\ isPaused (this (snd (stop h))) = false
     \/ snd (stop h) = h /\ currentProcess (this h) = None.
Proof.
  unfold stop. run.
  destruct (currentProcess (this h)) as [child|] eqn:Hcur.
  - left. cbv [kill update]. run. auto.
  - right. auto.
Qed.

Lemma stop_consistent (h : Host) :
  consistent (this h) -> consistent (this (snd (stop h))).
Proof.
  intros Hc. destruct (stop_clears h) as [(_ & Hf & Hp) | [Heq _]].
  - intros _. auto.
  - rewrite Heq. exact Hc.
Qed.

Lemma play_consistent (audioPath : option string) (spawn_ok : bool) (h : Host) :
  consistent (this h) -> consistent (this (snd (play audioPath spawn_ok h))).
Proof.
  intros Hc. unfold play. run.
  destruct (JS.truthy (JS.or (JS.truthy audioPath) (mostRecentFile (this h))))
    as [filePath|]; [|exact Hc].
  pose proof (stop_consistent h Hc) as Hs.
  destruct (stop h) as [[reply|e] h1]; cbn [snd] in *; [|exact Hs].
  unfold spawn. destruct spawn_ok.
  - cbv [update]. run. intros Hnone. cbn in Hnone. discriminate.
  - exact Hs.
Qed.

Lemma pause_consistent (h : Host) :
  consistent (this h) -> consistent (this (snd (pause h))).
Proof.
  intros Hc. unfold pause. run.
  destruct (currentProcess (this h)) as [child|] eqn:Hcur; [|exact Hc].
  destruct (isPaused (this h)); [exact Hc|].
  cbv [kill update]. run. intros Hnone. cbn in Hnone. congruence.
Qed.

Lemma resume_consistent (h : Host) :
  consistent (this h) -> consistent (this (snd (resume h))).
Proof.
  intros Hc. unfold resume. run.
  destruct (currentProcess (this h)) as [child|] eqn:Hcur.
  - destruct (isPaused (this h)); [|exact Hc].
    cbv [kill update]. run. intros Hnone. cbn in Hnone. congruence.
  - destruct (isPaused (this h)); exact Hc.
Qed.

Lemma onClose_consistent (h : Host) : consistent (this (snd (onClose h))).
Proof. unfold onClose. cbv [update]. run. intros _. cbn. auto. Qed.

Lemma step_consistent (st : Step) (h : Host) :
  consistent (this h) -> consistent (this (step st h)).
Proof.
  intros Hc. destruct st as [audioPath [| | |] spawn_ok | | filePath]; cbn [step playAudio].
  - now apply play_consistent.
  - now apply pause_consistent.
  - now apply stop_consistent.
  - now apply resume_consistent.
  - apply onClose_consistent.
  - unfold setMostRecentFile. cbv [update]. run. exact Hc.
Qed.

(** C9. Whenever the player tracks no child ([currentProcess] is null),
    [currentFile] is null and [isPaused] is false: this holds of the new
    singleton, every request ([play], [pause], [resume], [stop]) and the
    ['close'] callback of a child keep it, and so it holds in every
    reachable state. *)
Theorem player_state_consistent :
  consistent (this instance)
  /\ (forall (st : Step) (h : Host),
        consistent (this h) -> consistent (this (step st h)))
  /\ (forall h : Host, reachable h -> consistent (this h)).
Proof.
  split; [|split].
  - intros _. cbn. auto.
  - exact step_consistent.
  - intros h Hr. induction Hr as [|st h _ IH].
    + intros _. cbn. auto.
    + now apply step_consistent.
Qed.

(** The state after [play] of a file and then [stop]. *)
Lemma player_state_consistent_witness :
  reachable Scenario.stopped
  /\ currentProcess (this Scenario.stopped) = None
  /\ currentFile (this Scenario.stopped) = None
  /\ isPaused (this Scenario.stopped) = false.
Proof.
  assert (Hr : reachable Scenario.stopped)
    by (do 2 apply reachable_step; apply reachable_instance).
  split; [exact Hr|]. split; [reflexivity|].
  exact (proj2 (proj2 player_state_consistent) Scenario.stopped Hr eq_refl).
Defined.

(** C10. [pause] on a player that is already paused changes nothing (the
    child stays tracked, no signal is sent, [currentFile] and the pause
    flag stay) and replies with status [stopped], while [getStatus]
    reports [paused] for this very state. *)
Theorem pause_when_paused (h : Host) (child : nat) :
  currentProcess (this h) = Some child ->
  isPaused (this h) = true ->
  pause h = (Ok {| message := "No active playback to pause";
                   status := "stopped"; file := None |}, h)
  /\ status_status (getStatus (this h)) = "paused".
Proof.
  intros Hcur Hp. unfold pause, getStatus. run. rewrite Hcur, Hp. auto.
Qed.

(** [play] of a file, then [pause], then [pause] again. *)
Lemma pause_when_paused_witness :
  currentProcess (this Scenario.paused) = Some 0%nat
  /\ isPaused (this Scenario.paused) = true
  /\ step (request None action_pause true) Scenario.paused = Scenario.paused
  /\ fst (pause Scenario.paused)
     = Ok {| message := "No active playback to pause";
             status := "stopped"; file := None |}
  /\ status_status (getStatus (this Scenario.paused)) = "paused".
Proof.
  pose proof (pause_when_paused Scenario.paused 0%nat eq_refl eq_refl)
    as [Hpause Hstatus].
  split; [reflexivity|]. split; [reflexivity|].
  split; [cbn [step playAudio]; now rewrite Hpause|].
  split; [now rewrite Hpause | exact Hstatus].
Defined.
End Playback.

(** ** The router *)

Section Selection.
Import SynthesizeText.
Context {Engine : Type}.
Implicit Type engines : gmap string Engine.

Lemma requireEngine_explicit (key : string) (preference : EnginePreference) engines :
  selectEngine preference engines = engines !! key ->
  (forall e, engines !! key = Some e -> requireEngine preference engines = Ok e)
  /\ (engines !! key = None ->
      requireEngine preference engines
      = Throw (TTSError "No available TTS engines" ENGINE_NOT_AVAILABLE None None)).
Proof.
  intros Hsel. unfold requireEngine. rewrite Hsel.
  split; [intros e He | intros He]; now rewrite He.
Qed.

(** C3. An explicit engine name selects the engine registered under
    exactly that name and fails with EngineNotAvailable when there is
    none; [auto] selects the engine registered as [kokoro] if there is
    one, else the one registered as [macos], and fails with
    EngineNotAvailable when neither is registered. *)
Theorem engine_selection engines :
  (forall e, engines !! "macos" = Some e -> requireEngine pref_macos engines = Ok e)
  /\ (engines !! "macos" = None ->
      requireEngine pref_macos engines
      = Throw (TTSError "No available TTS engines" ENGINE_NOT_AVAILABLE None None))
  /\ (forall e, engines !! "kokoro" = Some e -> requireEngine pref_kokoro engines = Ok e)
  /\ (engines !! "kokoro" = None ->
      requireEngine pref_kokoro engines
      = Throw (TTSError "No available TTS engines" ENGINE_NOT_AVAILABLE None None))
  /\ (forall e, engines !! "kokoro" = Some e -> requireEngine pref_auto engines = Ok e)
  /\ (forall e, engines !! "kokoro" = None -> engines !! "macos" = Some e ->
                requireEngine pref_auto engines = Ok e)
  /\ (engines !! "kokoro" = None -> engines !! "macos" = None ->
      requireEngine pref_auto engines
      = Throw (TTSError "No available TTS engines" ENGINE_NOT_AVAILABLE None None)).
Proof.
  destruct (requireEngine_explicit "macos" pref_macos engines) as [Hm1 Hm0].
  { unfold selectEngine, JS.or. now destruct (engines !! "macos"). }
  destruct (requireEngine_explicit "kokoro" pref_kokoro engines) as [Hk1 Hk0].
  { unfold selectEngine, JS.or. now destruct (engines !! "kokoro"). }
  repeat split; auto.
  - intros e He. unfold requireEngine, selectEngine, JS.or. now rewrite He.
  - intros e Hk He. unfold requireEngine, selectEngine, JS.or. now rewrite Hk, He.
  - intros Hk Hm. unfold requireEngine, selectEngine, JS.or. now rewrite Hk, Hm.
Qed.
End Selection.

(** A registry with the native-command engine alone: [auto] falls back to
    it, and [kokoro] is not available. *)
Lemma engine_selection_witness :
  SynthesizeText.requireEngine pref_auto Scenario.mac_only = Ok "the macOS engine"
  /\ SynthesizeText.requireEngine pref_kokoro Scenario.mac_only
     = Throw (TTSError "No available TTS engines" ENGINE_NOT_AVAILABLE None None).
Proof.
  pose proof (engine_selection Scenario.mac_only) as (_ & _ & _ & Hk0 & _ & Hauto & _).
  split.
  - apply Hauto; reflexivity.
  - apply Hk0; reflexivity.
Defined.

(** What the schema lets through: a text of 1 to 50,000 characters and a
    speed that is not zero. *)
Lemma parse_accepts (params : SynthesizeText.Params)
    (v : SynthesizeText.SynthesizeTextParams) :
  SynthesizeText.parse params = Some v ->
  1 <= JS.length (SynthesizeText.text v) <= 50000
  /\ JS.leb JS.n0_1 (SynthesizeText.speed v) = true
  /\ JS.leb (SynthesizeText.speed v) JS.n3 = true.
Proof.
  unfold SynthesizeText.parse, SynthesizeText.parseText, SynthesizeText.parseSpeed.
  destruct (SynthesizeText.p_text params) as [t|]; [|discriminate].
  destruct (Z.leb_spec 1 (JS.length t)); [|discriminate].
  destruct (Z.leb_spec (JS.length t) 50000); [|discriminate]. cbn [andb].
  destruct (SynthesizeText.parseEngine _); [|discriminate].
  destruct (SynthesizeText.parseOutputFormat _); [|discriminate].
  destruct (SynthesizeText.p_speed params) as [x|].
  - destruct (JS.leb JS.n0_1 x) eqn:Hlow; [|discriminate].
    destruct (JS.leb x JS.n3) eqn:Hhigh; [|discriminate]. cbn [andb].
    destruct (SynthesizeText.parseQuality _); [|discriminate].
    intros [= <-]. cbn. auto.
  - destruct (SynthesizeText.parseQuality _); [|discriminate].
    intros [= <-]. cbn. split; [lia|]. split; reflexivity.
Qed.

Section Handler.
Context {Engine S : Type}.
Variable engine_name : Engine -> string.
Variable engine_synthesize : Engine -> SynthesisRequest.t -> M S AudioResult.t.
Variable setMostRecentFile : string -> M S unit.

(** The handler returns a payload whatever happens below it. *)
Lemma handler_returns (params : SynthesizeText.Params)
    (engines : gmap string Engine) (s : S) :
  exists response s',
    SynthesizeText.synthesizeTextHandler engine_name engine_synthesize
      setMostRecentFile params engines s = (Ok response, s').
Proof.
  unfold SynthesizeText.synthesizeTextHandler.
  destruct (SynthesizeText.parse params) as [v|]; [|unfold ret; eauto].
  unfold tryCatch.
  match goal with |- context [match ?body s with _ => _ end] =>
    destruct (body s) as [[response|[m|m c g o]] s'] end; unfold ret; eauto.
Qed.

(** A text of more than 50,000 characters stops at the validation: no
    engine is selected and nothing changes. *)
Lemma long_text_stops_at_validation (params : SynthesizeText.Params)
    (engines : gmap string Engine) (s : S) (t : string) :
  SynthesizeText.p_text params = Some t ->
  50000 < JS.length t ->
  SynthesizeText.synthesizeTextHandler engine_name engine_synthesize
    setMostRecentFile params engines s = (Ok SynthesizeText.invalid_parameters, s).
Proof.
  intros Ht Hlong. unfold SynthesizeText.synthesizeTextHandler.
  destruct (SynthesizeText.parse params) as [v|] eqn:Hparse; [|reflexivity].
  exfalso. pose proof (parse_accepts params v Hparse) as [Hlen _].
  unfold SynthesizeText.parse, SynthesizeText.parseText in Hparse.
  rewrite Ht in Hparse.
  destruct (Z.leb_spec (JS.length t) 50000); [lia|].
  rewrite andb_false_r in Hparse. discriminate.
Qed.
End Handler.

(** ** Child processes *)

Section Children.
Import ChildProcess.
Variable onClose : option Z -> string -> string -> Result unit.

Lemma settled_stays (evs : list Event) (l : Listener) (r : Result unit) :
  settled l = Some r ->
  settled (fold_left (on_event onClose) evs l) = Some r.
Proof.
  revert l. induction evs as [|ev evs IH]; intros l Hl; [exact Hl|].
  cbn [fold_left]. apply IH.
  destruct ev; cbn [on_event settled]; try exact Hl.
  unfold settle. now rewrite Hl.
Qed.

Lemma settled_by_exit (evs : list Event) (l : Listener) :
  settled l = None ->
  settled (fold_left (on_event onClose) evs l)
  = match exit_of (stdout l) (stderr l) evs with
    | Some (code, out, err) => Some (onClose code out err)
    | None => None
    end.
Proof.
  revert l. induction evs as [|ev evs IH]; intros l Hl; [exact Hl|].
  cbn [fold_left exit_of]. destruct ev as [d|d|code].
  - rewrite IH by exact Hl. reflexivity.
  - rewrite IH by exact Hl. reflexivity.
  - apply settled_stays. cbn [on_event]. unfold settle. now rewrite Hl.
Qed.

(** The promise is settled by the exit of the child, else by the timer. *)
Lemma promise_exit (onTimeout : Exn) (evs : list Event) :
  promise onClose onTimeout evs
  = match exit_of EmptyString EmptyString evs with
    | Some (code, out, err) => onClose code out err
    | None => Throw onTimeout
    end.
Proof.
  unfold promise, deliver. rewrite settled_by_exit by reflexivity.
  now destruct (exit_of _ _ evs) as [[[code out] err]|].
Qed.
End Children.

Lemma onSynthesisClose_ok (code : option Z) (out err : string) :
  KokoroEngine.onSynthesisClose code out err = Ok tt
  <-> code = Some 0 /\ JS.includes out "SUCCESS" = true.
Proof.
  unfold KokoroEngine.onSynthesisClose.
  destruct code as [[|p|p]|]; cbn [andb];
    try (split; [discriminate | intros [? _]; discriminate]).
  destruct (JS.includes out "SUCCESS"); split; auto; try discriminate.
  intros [_ ?]; discriminate.
Qed.

(** C5. A run of the Kokoro synthesis child counts as a success exactly
    when the child exits with code 0 and its standard output contains
    [SUCCESS]; a child that exits with code 0 without the marker makes
    [executeKokoro] fail with SynthesisFailed. *)
Theorem kokoro_success_needs_marker (w : World) (this : KokoroEngine.t)
    (files : Files) (scriptPath executable : string)
    (evs : list ChildProcess.Event) :
  JS.truthy (KokoroEngine.pythonExecutable this) = Some executable ->
  python_run w executable scriptPath = ChildProcess.spawned evs ->
  (fst (KokoroEngine.executeKokoro w scriptPath (this, files)) = Ok tt
   <-> exists out err,
         exit_of EmptyString EmptyString evs = Some (Some 0, out, err)
         /\ JS.includes out "SUCCESS" = true)
  /\ (forall out err,
        exit_of EmptyString EmptyString evs = Some (Some 0, out, err) ->
        JS.includes out "SUCCESS" = false ->
        exists message,
          fst (KokoroEngine.executeKokoro w scriptPath (this, files))
          = Throw (TTSError message SYNTHESIS_FAILED (Some "kokoro") None)).
Proof.
  intros Hexe Hrun.
  unfold KokoroEngine.executeKokoro. run. rewrite Hexe, Hrun. cbn [fst].
  cbn [ChildProcess.promise_of_run]. rewrite promise_exit.
  destruct (exit_of EmptyString EmptyString evs) as [[[code out] err]|].
  - split.
    + rewrite onSynthesisClose_ok. split.
      * intros [-> Hinc]. eauto.
      * intros (out' & err' & Heq & Hinc). injection Heq as -> -> ->. auto.
    + intros out' err' Heq Hinc. injection Heq as -> -> ->.
      unfold KokoroEngine.onSynthesisClose. rewrite Hinc. cbn [andb]. eauto.
  - split.
    + split; [discriminate | intros (out & err & Heq & _); discriminate].
    + intros out err Heq. discriminate.
Qed.

(** The Python child prints a progress line and exits with code 0: the run
    is a failure. *)
Lemma kokoro_success_needs_marker_witness :
  exists message,
    fst (KokoroEngine.executeKokoro Scenario.silent Scenario.kokoro_script
           (Scenario.kokoro_ready, ∅))
    = Throw (TTSError message SYNTHESIS_FAILED (Some "kokoro") None).
Proof.
  refine (proj2 (kokoro_success_needs_marker Scenario.silent Scenario.kokoro_ready ∅
                   Scenario.kokoro_script KokoroEngine.KNOWN_WORKING_PYTHON
                   [ChildProcess.stdout_data "Pipeline initialized successfully";
                    ChildProcess.close (Some 0)]
                   eq_refl eq_refl)
                "Pipeline initialized successfully" EmptyString eq_refl eq_refl).
Defined.

(** ** Voice resolution *)

Lemma truthy_nonempty (s : string) : s <> EmptyString -> JS.truthy (Some s) = Some s.
Proof. destruct s; [congruence | reflexivity]. Qed.

Section Find.
Context {A : Type} (f : A -> bool).

Lemma find_found (l : list A) :
  (exists x, In x l /\ f x = true) -> exists y, find f l = Some y.
Proof.
  intros (x & Hin & Hfx).
  destruct (find f l) as [y|] eqn:Hfind; [eauto|].
  pose proof (find_none f l Hfind x Hin). congruence.
Qed.

Lemma find_missing (l : list A) :
  (forall x, In x l -> f x = false) -> find f l = None.
Proof.
  intros Hall. destruct (find f l) as [y|] eqn:Hfind; [|reflexivity].
  apply find_some in Hfind as [Hin Hfy]. rewrite (Hall y Hin) in Hfy. discriminate.
Qed.
End Find.

Lemma macos_resolve_explicit (this : MacOSEngine.t) (requested : string) :
  requested <> EmptyString ->
  MacOSEngine.resolveVoice this (Some requested)
  = match find (exact_match requested) (MacOSEngine.voices this) with
    | Some v => Ok (Some v)
    | None =>
        Throw (TTSError ("Voice " +:+ JS.dquote +:+ requested +:+ JS.dquote
                         +:+ " not found")
                        VOICE_NOT_FOUND (Some "macos") None)
    end.
Proof.
  intros Hne. unfold MacOSEngine.resolveVoice. now rewrite truthy_nonempty.
Qed.

Lemma kokoro_resolve_explicit (this : KokoroEngine.t) (requested : string) :
  requested <> EmptyString ->
  KokoroEngine.resolveVoice this (Some requested)
  = match find (fun v => exact_match requested v || partial_match requested v)
               (KokoroEngine.voices this) with
    | Some v => Ok (Some v)
    | None =>
        Throw (TTSError ("Voice " +:+ JS.dquote +:+ requested +:+ JS.dquote
                         +:+ " not found in Kokoro engine")
                        VOICE_NOT_FOUND (Some "kokoro") None)
    end.
Proof.
  intros Hne. unfold KokoroEngine.resolveVoice. now rewrite truthy_nonempty.
Qed.

(** The Kokoro engine resolves [sarah], which is the name or id of no
    voice, letter case apart: it does not fail with VoiceNotFound. *)
Lemma kokoro_resolves_partial_name :
  forallb (fun v => negb (exact_match "sarah" v)) KokoroEngine.catalog = true
  /\ KokoroEngine.resolveVoice Scenario.kokoro_ready (Some "sarah")
     = Ok (Some Scenario.af_sarah).
Proof. split; vm_compute; reflexivity. Qed.

(** C2, as the code has it. A request that names a voice is resolved by
    the macOS engine to a catalog voice whose name or id is the request,
    letter case apart, and by the Kokoro engine to a catalog voice whose
    name or id is the request, letter case apart, or whose lower-cased
    name contains the lower-cased request; resolution succeeds when the
    catalog has such a voice and fails with VoiceNotFound when it has
    none. A request without a voice, or with the empty string for one,
    never fails on a catalog that is not empty: it resolves to [Alex]
    (macOS) or [kokoro-af_sarah] (Kokoro) when the catalog has it and to
    the first voice of the catalog otherwise; on the loaded Kokoro
    catalog this is [AF_SARAH]. *)
Theorem voice_resolution :
  (forall (this : MacOSEngine.t) (requested : string),
     requested <> EmptyString ->
     let voices := MacOSEngine.voices this in
     let resolved := MacOSEngine.resolveVoice this (Some requested) in
     (forall v, resolved = Ok (Some v) ->
                In v voices /\ exact_match requested v = true)
     /\ ((exists v, In v voices /\ exact_match requested v = true) ->
         exists v, resolved = Ok (Some v))
     /\ ((forall v, In v voices -> exact_match requested v = false) ->
         exists message,
           resolved = Throw (TTSError message VOICE_NOT_FOUND (Some "macos") None)))
  /\ (forall (this : KokoroEngine.t) (requested : string),
        requested <> EmptyString ->
        let voices := KokoroEngine.voices this in
        let resolved := KokoroEngine.resolveVoice this (Some requested) in
        (forall v, resolved = Ok (Some v) ->
                   In v voices
                   /\ (exact_match requested v = true
                       \/ partial_match requested v = true))
        /\ ((exists v, In v voices
                       /\ (exact_match requested v = true
                           \/ partial_match requested v = true)) ->
            exists v, resolved = Ok (Some v))
        /\ ((forall v, In v voices ->
                       exact_match requested v = false
                       /\ partial_match requested v = false) ->
            exists message,
              resolved = Throw (TTSError message VOICE_NOT_FOUND (Some "kokoro") None)))
  /\ (forall (this : MacOSEngine.t) (first : Voice.t) (rest : list Voice.t),
        MacOSEngine.voices this = first :: rest ->
        exists v,
          MacOSEngine.resolveVoice this None = Ok (Some v)
          /\ In v (first :: rest)
          /\ (Voice.name v = "Alex"
              \/ v = first
                 /\ forall u, In u (first :: rest) -> Voice.name u <> "Alex"))
  /\ (forall (this : KokoroEngine.t) (first : Voice.t) (rest : list Voice.t),
        KokoroEngine.voices this = first :: rest ->
        exists v,
          KokoroEngine.resolveVoice this None = Ok (Some v)
          /\ In v (first :: rest)
          /\ (Voice.id v = "kokoro-af_sarah"
              \/ v = first
                 /\ forall u, In u (first :: rest) -> Voice.id u <> "kokoro-af_sarah"))
  /\ (forall this : KokoroEngine.t,
        KokoroEngine.voices this = KokoroEngine.catalog ->
        KokoroEngine.resolveVoice this None = Ok (Some Scenario.af_sarah))
  /\ (forall this : MacOSEngine.t,
        MacOSEngine.resolveVoice this (Some EmptyString)
        = MacOSEngine.resolveVoice this None)
  /\ (forall this : KokoroEngine.t,
        KokoroEngine.resolveVoice this (Some EmptyString)
        = KokoroEngine.resolveVoice this None).
Proof.
  split; [|split; [|split; [|split; [|split; [|split; reflexivity]]]]].
  - intros this requested Hne voices resolved. subst voices resolved.
    rewrite macos_resolve_explicit by exact Hne.
    split; [|split].
    + intros v Hv.
      destruct (find _ _) as [u|] eqn:Hfind; [|discriminate].
      injection Hv as ->. now apply find_some in Hfind.
    + intros Hex. destruct (find_found (exact_match requested) _ Hex) as [y ->]. eauto.
    + intros Hall. rewrite find_missing by exact Hall. eauto.
  - intros this requested Hne voices resolved. subst voices resolved.
    rewrite kokoro_resolve_explicit by exact Hne.
    split; [|split].
    + intros v Hv.
      destruct (find _ _) as [u|] eqn:Hfind; [|discriminate].
      injection Hv as ->. apply find_some in Hfind as [Hin Hm].
      split; [exact Hin|]. now apply orb_true_iff in Hm.
    + intros (v & Hin & Hm).
      destruct (find_found (fun v => exact_match requested v || partial_match requested v)
                  (KokoroEngine.voices this)) as [y ->]; [|eauto].
      exists v. split; [exact Hin|]. now apply orb_true_iff.
    + intros Hall. rewrite find_missing; [eauto|].
      intros v Hin. destruct (Hall v Hin) as [-> ->]. reflexivity.
  - intros this first rest Hvoices. unfold MacOSEngine.resolveVoice.
    cbn [JS.truthy]. rewrite Hvoices. cbn [head]. unfold JS.or.
    destruct (find _ (first :: rest)) as [v|] eqn:Hfind.
    + apply find_some in Hfind as [Hin Heq]. apply String.eqb_eq in Heq. eauto.
    + exists first. split; [reflexivity|]. split; [now left|]. right.
      split; [reflexivity|]. intros u Hin Heq.
      pose proof (find_none _ _ Hfind u Hin) as Hno. cbn in Hno.
      rewrite Heq in Hno. discriminate.
  - intros this first rest Hvoices. unfold KokoroEngine.resolveVoice.
    cbn [JS.truthy]. rewrite Hvoices. cbn [head]. unfold JS.or.
    destruct (find _ (first :: rest)) as [v|] eqn:Hfind.
    + apply find_some in Hfind as [Hin Heq]. apply String.eqb_eq in Heq. eauto.
    + exists first. split; [reflexivity|]. split; [now left|]. right.
      split; [reflexivity|]. intros u Hin Heq.
      pose proof (find_none _ _ Hfind u Hin) as Hno. cbn in Hno.
      rewrite Heq in Hno. discriminate.
  - intros this Hvoices. unfold KokoroEngine.resolveVoice.
    cbn [JS.truthy]. rewrite Hvoices. reflexivity.
Qed.

(** On the loaded Kokoro catalog: [af_sarah] by id, [sarah] by a part of
    the name, and no [zelda]. *)
Lemma voice_resolution_witness :
  (exists v, KokoroEngine.resolveVoice Scenario.kokoro_ready (Some "KOKORO-AF_SARAH")
             = Ok (Some v))
  /\ (exists v, KokoroEngine.resolveVoice Scenario.kokoro_ready (Some "sarah")
                = Ok (Some v))
  /\ (exists message,
        KokoroEngine.resolveVoice Scenario.kokoro_ready (Some "zelda")
        = Throw (TTSError message VOICE_NOT_FOUND (Some "kokoro") None))
  /\ (exists message,
        MacOSEngine.resolveVoice Scenario.mac_ready (Some "sam")
        = Throw (TTSError message VOICE_NOT_FOUND (Some "macos") None)).
Proof.
  pose proof voice_resolution as (Hmac & Hkokoro & _).
  split; [|split; [|split]].
  - apply (Hkokoro Scenario.kokoro_ready "KOKORO-AF_SARAH"); [discriminate|].
    exists Scenario.af_sarah. split; [vm_compute; tauto | now left].
  - apply (Hkokoro Scenario.kokoro_ready "sarah"); [discriminate|].
    exists Scenario.af_sarah. split; [vm_compute; tauto | now right].
  - apply (Hkokoro Scenario.kokoro_ready "zelda"); [discriminate|].
    intros v Hin. cbn in Hin.
    repeat (destruct Hin as [<- | Hin]; [split; reflexivity|]). contradiction.
  - apply (Hmac Scenario.mac_ready "sam"); [discriminate|].
    intros v Hin. cbn in Hin.
    repeat (destruct Hin as [<- | Hin]; [reflexivity|]). contradiction.
Defined.

(** ** Initialization *)

Lemma macos_loadVoices_outcome (w : World) (this : MacOSEngine.t) :
  (exists vs, say_listing w = Some vs
              /\ MacOSEngine.loadVoices w this = (Ok tt, MacOSEngine.set_voices vs this))
  \/ (exists message cause,
        MacOSEngine.loadVoices w this
        = (Throw (TTSError message ENGINE_NOT_AVAILABLE (Some "macos") cause), this)).
Proof.
  unfold MacOSEngine.loadVoices. run.
  destruct (say_listing w) as [vs|]; [left | right]; eauto.
Qed.

Lemma macos_initialize_outcome (w : World) (this : MacOSEngine.t) :
  (exists this', MacOSEngine.initialize w this = (Ok tt, this')
                 /\ MacOSEngine.initialized this' = true)
  \/ (exists message cause,
        MacOSEngine.initialize w this
        = (Throw (TTSError message ENGINE_NOT_AVAILABLE (Some "macos") cause), this)
        /\ MacOSEngine.initialized this = false).
Proof.
  unfold MacOSEngine.initialize. run.
  destruct (MacOSEngine.initialized this) eqn:Hinit; [left; eauto|].
  destruct (String.eqb (platform w) "darwin"); cbn [negb]; [|right; eauto].
  destruct (which_say w); [|right; eauto].
  destruct (macos_loadVoices_outcome w this) as [(vs & _ & ->) | (m & c & ->)].
  - left. eexists. split; reflexivity.
  - right. eauto.
Qed.

Lemma kokoro_detect_outcome (w : World) (this : KokoroEngine.t) :
  exists r this',
    KokoroEngine.detectPythonEnvironment w this = (r, this')
    /\ KokoroEngine.voices this' = KokoroEngine.voices this
    /\ KokoroEngine.initialized this' = KokoroEngine.initialized this.
Proof.
  unfold KokoroEngine.detectPythonEnvironment, KokoroEngine.verifyKokoroInstallation.
  run.
  destruct (KokoroEngine.findPythonExecutable w) as [executable|e]; [|eauto].
  destruct (JS.truthy _); [|eauto].
  destruct (ChildProcess.promise _ _ _); eauto.
Qed.

Lemma kokoro_initialize_outcome (w : World) (this : KokoroEngine.t) :
  exists this',
    KokoroEngine.initialize w this = (Ok tt, this')
    /\ (KokoroEngine.initialized this' = true
        \/ KokoroEngine.initialized this' = false
           /\ KokoroEngine.voices this' = KokoroEngine.voices this).
Proof.
  unfold KokoroEngine.initialize. run.
  destruct (KokoroEngine.initialized this) eqn:Hinit; [eauto|].
  destruct (kokoro_detect_outcome w this) as (r & this' & -> & Hv & Hi).
  destruct r as [[]|e].
  - eexists. split; [reflexivity|]. now left.
  - exists this'. split; [reflexivity|]. right. split; congruence.
Qed.

(** On a host that is not a Mac, [initialize] of the macOS engine throws. *)
Lemma macos_initialize_throws :
  MacOSEngine.initialize Scenario.linux Scenario.mac_fresh
  = (Throw (TTSError "macOS Say engine is only available on macOS"
                     ENGINE_NOT_AVAILABLE (Some "macos") None),
     Scenario.mac_fresh).
Proof. reflexivity. Qed.

(** C8, as the code has it. [initialize] of the Kokoro engine always
    returns without throwing, with the engine initialized or else still
    uninitialized with its catalog unchanged. [initialize] of the macOS
    engine either returns with the engine initialized or throws a
    TTSError EngineNotAvailable tagged [macos], leaving the engine as it
    was, uninitialized. On an initialized engine both return at once and
    change nothing. *)
Theorem initialize_outcomes (w : World) :
  (forall this : KokoroEngine.t,
     exists this',
       KokoroEngine.initialize w this = (Ok tt, this')
       /\ (KokoroEngine.initialized this' = true
           \/ KokoroEngine.initialized this' = false
              /\ KokoroEngine.voices this' = KokoroEngine.voices this))
  /\ (forall this : MacOSEngine.t,
        (exists this', MacOSEngine.initialize w this = (Ok tt, this')
                       /\ MacOSEngine.initialized this' = true)
        \/ (exists message cause,
              MacOSEngine.initialize w this
              = (Throw (TTSError message ENGINE_NOT_AVAILABLE (Some "macos") cause),
                 this)
              /\ MacOSEngine.initialized this = false))
  /\ (forall this : KokoroEngine.t,
        KokoroEngine.initialized this = true ->
        KokoroEngine.initialize w this = (Ok tt, this))
  /\ (forall this : MacOSEngine.t,
        MacOSEngine.initialized this = true ->
        MacOSEngine.initialize w this = (Ok tt, this)).
Proof.
  split; [exact (kokoro_initialize_outcome w)|].
  split; [exact (macos_initialize_outcome w)|].
  split; intros this Hinit.
  - unfold KokoroEngine.initialize. run. now rewrite Hinit.
  - unfold MacOSEngine.initialize. run. now rewrite Hinit.
Qed.

(** On the host without Python the fresh Kokoro engine comes back from
    [initialize] uninitialized; the ready engines are left alone. *)
Lemma initialize_outcomes_witness :
  fst (KokoroEngine.initialize Scenario.linux Scenario.kokoro_fresh) = Ok tt
  /\ KokoroEngine.initialized
       (snd (KokoroEngine.initialize Scenario.linux Scenario.kokoro_fresh)) = false
  /\ MacOSEngine.initialize Scenario.linux Scenario.mac_ready
     = (Ok tt, Scenario.mac_ready).
Proof.
  split; [reflexivity|]. split; [reflexivity|].
  exact (proj2 (proj2 (proj2 (initialize_outcomes Scenario.linux)))
           Scenario.mac_ready eq_refl).
Defined.

(** ** The ceiling on the text *)

Lemma macos_lazy_initialize (w : World) (this : MacOSEngine.t) (files : Files) :
  (if MacOSEngine.initialized this then ret tt
   else on_this (MacOSEngine.initialize w)) (this, files)
  = (fst (MacOSEngine.initialize w this),
     (snd (MacOSEngine.initialize w this), files)).
Proof.
  destruct (MacOSEngine.initialized this) eqn:Hinit.
  - unfold MacOSEngine.initialize. run. now rewrite Hinit.
  - run. now destruct (MacOSEngine.initialize w this).
Qed.

Lemma kokoro_lazy_initialize (w : World) (this : KokoroEngine.t) (files : Files) :
  (if KokoroEngine.initialized this then ret tt
   else on_this (KokoroEngine.initialize w)) (this, files)
  = (Ok tt, (snd (KokoroEngine.initialize w this), files)).
Proof.
  destruct (kokoro_initialize_outcome w this) as (this' & Heq & _).
  destruct (KokoroEngine.initialized this) eqn:Hinit.
  - unfold KokoroEngine.initialize. run. now rewrite Hinit.
  - run. now rewrite Heq.
Qed.

(** Blank text of 50,001 characters is rejected as empty, not as too
    long, by either engine. *)
Lemma long_blank_text_is_invalid :
  50000 < JS.length (SynthesisRequest.text Scenario.spaces)
  /\ fst (KokoroEngine.synthesize Scenario.kokoro_failing
            Scenario.spaces (Scenario.kokoro_ready, ∅))
     = Throw (TTSError "Text cannot be empty" INVALID_PARAMETERS (Some "kokoro") None)
  /\ fst (MacOSEngine.synthesize Scenario.mac_failing
            Scenario.spaces (Scenario.mac_ready, ∅))
     = Throw (TTSError "Text cannot be empty" INVALID_PARAMETERS (Some "macos") None).
Proof. split; [|split]; vm_compute; reflexivity. Qed.

(** C1, as the code has it. For a text of more than 50,000 characters
    neither engine produces an audio result, and the files are left as
    they were. The Kokoro engine fails with TextTooLong when the text is
    not blank and with InvalidParameters when it is blank (empty after
    trimming). The macOS engine does the same once it is initialized or
    its lazy initialization succeeds, and otherwise fails with the
    error of [initialize]. *)
Theorem long_text_rejected (w : World) (request : SynthesisRequest.t) (files : Files) :
  50000 < JS.length (SynthesisRequest.text request) ->
  (forall this : KokoroEngine.t,
     exists e s',
       KokoroEngine.synthesize w request (this, files) = (Throw e, s')
       /\ snd s' = files
       /\ (isBlank (SynthesisRequest.text request) = false ->
           exists message, e = TTSError message TEXT_TOO_LONG (Some "kokoro") None)
       /\ (isBlank (SynthesisRequest.text request) = true ->
           exists message, e = TTSError message INVALID_PARAMETERS (Some "kokoro") None))
  /\ (forall this : MacOSEngine.t,
        exists e s',
          MacOSEngine.synthesize w request (this, files) = (Throw e, s')
          /\ snd s' = files
          /\ (fst (MacOSEngine.initialize w this) = Ok tt ->
              (isBlank (SynthesisRequest.text request) = false ->
               exists message, e = TTSError message TEXT_TOO_LONG (Some "macos") None)
              /\ (isBlank (SynthesisRequest.text request) = true ->
                  exists message,
                    e = TTSError message INVALID_PARAMETERS (Some "macos") None))
          /\ (forall e0, fst (MacOSEngine.initialize w this) = Throw e0 -> e = e0)).
Proof.
  intros Hlong. apply Z.ltb_lt in Hlong.
  set (text := SynthesisRequest.text request) in *. split; intros this.
  - unfold KokoroEngine.synthesize. fold text.
    unfold bind at 1. unfold get at 1. unfold bind at 1. cbn [fst snd].
    rewrite kokoro_lazy_initialize.
    destruct (isBlank text) eqn:Hblank.
    + run. do 2 eexists. split; [reflexivity|]. split; [reflexivity|].
      split; [discriminate | eauto].
    + rewrite Hlong. run. do 2 eexists. split; [reflexivity|].
      split; [reflexivity|]. split; [eauto | discriminate].
  - unfold MacOSEngine.synthesize. fold text.
    unfold bind at 1. unfold get at 1. unfold bind at 1. cbn [fst snd].
    rewrite macos_lazy_initialize.
    destruct (MacOSEngine.initialize w this) as [[[]|e0] this']; cbn [fst snd].
    + destruct (isBlank text) eqn:Hblank.
      * run. do 2 eexists. split; [reflexivity|]. split; [reflexivity|].
        split; [intros _; split; [discriminate | eauto] | discriminate].
      * rewrite Hlong. run. do 2 eexists. split; [reflexivity|].
        split; [reflexivity|].
        split; [intros _; split; [eauto | discriminate] | discriminate].
    + do 2 eexists. split; [reflexivity|]. split; [reflexivity|].
      split; [discriminate | congruence].
Qed.

(** 50,001 letters on the ready Kokoro engine: TextTooLong. *)
Lemma long_text_rejected_witness :
  exists e s',
    KokoroEngine.synthesize Scenario.kokoro_failing
      Scenario.letters (Scenario.kokoro_ready, ∅) = (Throw e, s')
    /\ exists message, e = TTSError message TEXT_TOO_LONG (Some "kokoro") None.
Proof.
  assert (Hlong : 50000 < JS.length (SynthesisRequest.text Scenario.letters))
    by (vm_compute; reflexivity).
  destruct (proj1 (long_text_rejected Scenario.kokoro_failing
                     Scenario.letters ∅ Hlong) Scenario.kokoro_ready)
    as (e & s' & Heq & _ & Hnonblank & _).
  exists e, s'. split; [exact Heq|]. apply Hnonblank. vm_compute. reflexivity.
Defined.

(** ** Cleaning up after a failed synthesis *)

Lemma tagged_intro (name message : string) (code : ErrorCode) (cause : option Exn) :
  tagged name (TTSError message code (Some name) cause).
Proof. unfold tagged. eauto. Qed.

Lemma delete_absent (files : Files) (p : string) :
  files !! p = None -> delete p files = files.
Proof. apply delete_id. Qed.

(** The deletion in the [catch] block, whose error is ignored. *)
Lemma unlink_exact {T : Type} (w : World) (op : string) (s : T * Files) :
  tryCatch (unlink w op) (fun _ => ret tt) s = (Ok tt, (fst s, cleaned w op (snd s))).
Proof.
  unfold cleaned. run. destruct (snd s !! op) eqn:Hop.
  - destruct (unlink_ok w op); [reflexivity|]. now destruct s.
  - rewrite delete_absent by exact Hop. destruct (unlink_ok w op); now destruct s.
Qed.

Lemma catch_exact {T A : Type} (w : World) (name wrapped op : string)
    (error : Exn) (s : T * Files) :
  (tryCatch (unlink w op) (fun _ => ret tt) ;;
   killed_child w error ;;
   match error with
   | TTSError _ _ _ _ => throw error
   | Error _ => throw (TTSError wrapped SYNTHESIS_FAILED (Some name) (Some error))
   end) s
  = (Throw (rethrown name wrapped error) : Result A,
     (fst s, after_kill w error (cleaned w op (snd s)))).
Proof.
  unfold bind at 1. rewrite unlink_exact.
  unfold bind, killed_child, after_kill, throw. cbn [fst snd].
  destruct error as [m|m c n cause]; [reflexivity|]. now destruct c.
Qed.

Lemma cleaned_absent (w : World) (op : string) (files : Files) :
  unlink_ok w op = true -> cleaned w op files !! op = None.
Proof. unfold cleaned. intros ->. apply lookup_delete_eq. Qed.

Lemma macos_try_block (w : World) (this : MacOSEngine.t) (files : Files)
    (r : Z -> AudioResult.t) (args : list string) (op : string) :
  (MacOSEngine.ensureDirectoryExists w (MacOSEngine.outputDir this) ;;
   MacOSEngine.executeSay w args ;;
   let* size := stat_size op in ret (r size)) (this, files)
  = if mkdir_ok w (MacOSEngine.outputDir this) then
      match say_run w args with
      | ChildProcess.spawn_failed message => (Throw (Error message), (this, files))
      | ChildProcess.spawned events =>
          match exit_of EmptyString EmptyString events with
          | Some (Some 0, _, _) =>
              match child_files w files !! op with
              | Some content =>
                  (Ok (r (JS.length content)), (this, child_files w files))
              | None =>
                  (Throw (Error ("ENOENT: no such file or directory, stat '"
                                 +:+ op +:+ "'")),
                   (this, child_files w files))
              end
          | Some (code, _, err) =>
              (Throw (Error ("say command failed with code "
                             +:+ JS.showCode code +:+ ": " +:+ err)),
               (this, child_files w files))
          | None =>
              (Throw (TTSError "Synthesis timeout" TIMEOUT (Some "macos") None),
               (this, child_files w files))
          end
      end
    else
      (Throw (TTSError ("Failed to create directory: " +:+ MacOSEngine.outputDir this)
                       FILE_OPERATION_FAILED (Some "macos")
                       (Some (Error ("EACCES: permission denied, mkdir '"
                                     +:+ MacOSEngine.outputDir this +:+ "'")))),
       (this, files)).
Proof.
  unfold MacOSEngine.ensureDirectoryExists, MacOSEngine.executeSay.
  unfold bind at 1. unfold tryCatch, mkdir. cbn [fst snd].
  destruct (mkdir_ok w _); [|reflexivity].
  unfold bind at 1. unfold run_child. cbn [fst snd].
  destruct (say_run w args) as [message|events];
    cbn [ChildProcess.promise_of_run]; [reflexivity|].
  rewrite promise_exit.
  destruct (exit_of _ _ events) as [[[[[|p|p]|] out] err]|]; try reflexivity.
  run. now destruct (child_files w files !! op).
Qed.

Lemma macos_attempt_exact (w : World) (request : SynthesisRequest.t)
    (voice : Voice.t) (this : MacOSEngine.t) (files : Files) :
  MacOSEngine.attempt w request voice (this, files)
  = match
      (MacOSEngine.ensureDirectoryExists w (MacOSEngine.outputDir this) ;;
       MacOSEngine.executeSay w (say_arguments w this request voice) ;;
       let* size := stat_size (MacOSEngine.outputPath w this voice
                                 (SynthesisRequest.text request)) in
       ret {| AudioResult.filePath :=
                MacOSEngine.outputPath w this voice (SynthesisRequest.text request);
              AudioResult.format := "aiff";
              AudioResult.duration := None;
              AudioResult.size := size;
              AudioResult.metadata :=
                {| AudioResult.voice := Voice.name voice;
                   AudioResult.engine := MacOSEngine.name;
                   AudioResult.textLength :=
                     JS.length (SynthesisRequest.text request);
                   AudioResult.synthesisTime := now_end w - now_start w |} |})
        (this, files)
    with
    | (Ok a, s') => (Ok a, s')
    | (Throw e, s') =>
        (Throw (rethrown "macos" "Synthesis failed" e),
         (fst s',
          after_kill w e
            (cleaned w
               (MacOSEngine.outputPath w this voice (SynthesisRequest.text request))
               (snd s'))))
    end.
Proof.
  unfold MacOSEngine.attempt, say_arguments.
  unfold bind at 1. unfold get at 1. cbn [fst].
  unfold tryCatch at 1.
  match goal with |- context [match ?b (this, files) with _ => _ end] =>
    destruct (b (this, files)) as [[a|e] s'] end; [reflexivity|].
  unfold MacOSEngine.name. now rewrite catch_exact.
Qed.

Lemma kokoro_try_block (w : World) (this : KokoroEngine.t) (files : Files)
    (r : Z -> AudioResult.t) (script sp op : string) :
  (KokoroEngine.ensureDirectoryExists w (KokoroEngine.outputDir this) ;;
   writeFile w sp script ;;
   KokoroEngine.executeKokoro w sp ;;
   unlink w sp ;;
   let* size := stat_size op in ret (r size)) (this, files)
  = if mkdir_ok w (KokoroEngine.outputDir this) then
      if writeFile_ok w sp then
        match JS.truthy (KokoroEngine.pythonExecutable this) with
        | None =>
            (Throw (TTSError "Python executable not detected - initialization may have failed"
                             ENGINE_NOT_AVAILABLE (Some "kokoro") None),
             (this, <[sp := script]> files))
        | Some executable =>
            match python_run w executable sp with
            | ChildProcess.spawn_failed message =>
                (Throw (TTSError ("Failed to spawn Python process: " +:+ message)
                                 ENGINE_NOT_AVAILABLE (Some "kokoro")
                                 (Some (Error message))),
                 (this, <[sp := script]> files))
            | ChildProcess.spawned events =>
                match exit_of EmptyString EmptyString events with
                | None =>
                    (Throw (TTSError "Kokoro synthesis timeout (30 seconds)" TIMEOUT
                                     (Some "kokoro") None),
                     (this, child_files w (<[sp := script]> files)))
                | Some (code, out, err) =>
                    match KokoroEngine.onSynthesisClose code out err with
                    | Throw e =>
                        (Throw e, (this, child_files w (<[sp := script]> files)))
                    | Ok _ =>
                        match child_files w (<[sp := script]> files) !! sp with
                        | None =>
                            (Throw (Error ("ENOENT: no such file or directory, unlink '"
                                           +:+ sp +:+ "'")),
                             (this, child_files w (<[sp := script]> files)))
                        | Some _ =>
                            if unlink_ok w sp then
                              match delete sp (child_files w (<[sp := script]> files))
                                    !! op with
                              | Some content =>
                                  (Ok (r (JS.length content)),
                                   (this,
                                    delete sp (child_files w (<[sp := script]> files))))
                              | None =>
                                  (Throw (Error ("ENOENT: no such file or directory, stat '"
                                                 +:+ op +:+ "'")),
                                   (this,
                                    delete sp (child_files w (<[sp := script]> files))))
                              end
                            else
                              (Throw (Error ("EACCES: permission denied, unlink '"
                                             +:+ sp +:+ "'")),
                               (this, child_files w (<[sp := script]> files)))
                        end
                    end
                end
            end
        end
      else
        (Throw (Error ("EACCES: permission denied, open '" +:+ sp +:+ "'")),
         (this, files))
    else
      (Throw (TTSError ("Failed to create directory: " +:+ KokoroEngine.outputDir this)
                       FILE_OPERATION_FAILED (Some "kokoro")
                       (Some (Error ("EACCES: permission denied, mkdir '"
                                     +:+ KokoroEngine.outputDir this +:+ "'")))),
       (this, files)).
Proof.
  unfold KokoroEngine.ensureDirectoryExists.
  unfold bind at 1. unfold tryCatch, mkdir. cbn [fst snd].
  destruct (mkdir_ok w _); [|reflexivity].
  unfold bind at 1. unfold writeFile. cbn [fst snd].
  destruct (writeFile_ok w sp); [|reflexivity].
  unfold bind at 1. unfold KokoroEngine.executeKokoro.
  unfold bind at 1. unfold get at 1. cbn [fst snd].
  destruct (JS.truthy (KokoroEngine.pythonExecutable this)) as [executable|];
    [|reflexivity].
  unfold run_child. cbn [fst snd].
  destruct (python_run w executable sp) as [message|events];
    cbn [ChildProcess.promise_of_run]; [reflexivity|].
  rewrite promise_exit.
  destruct (exit_of _ _ events) as [[[code out] err]|]; [|reflexivity].
  destruct (KokoroEngine.onSynthesisClose code out err) as [[]|e]; [|reflexivity].
  run. destruct (child_files w (<[sp:=script]> files) !! sp); cbn [fst snd];
    [|reflexivity].
  destruct (unlink_ok w sp); cbn [fst snd]; [|reflexivity].
  now destruct (delete sp (child_files w (<[sp:=script]> files)) !! op).
Qed.

Lemma kokoro_attempt_exact (w : World) (request : SynthesisRequest.t)
    (voice : Voice.t) (this : KokoroEngine.t) (files : Files) :
  KokoroEngine.attempt w request voice (this, files)
  = match
      (KokoroEngine.ensureDirectoryExists w (KokoroEngine.outputDir this) ;;
       writeFile w (KokoroEngine.scriptPath w this)
         (KokoroEngine.generateKokoroScript (SynthesisRequest.text request) voice
            (KokoroEngine.outputPath w this voice (SynthesisRequest.text request))) ;;
       KokoroEngine.executeKokoro w (KokoroEngine.scriptPath w this) ;;
       unlink w (KokoroEngine.scriptPath w this) ;;
       let* size := stat_size (KokoroEngine.outputPath w this voice
                                 (SynthesisRequest.text request)) in
       ret {| AudioResult.filePath :=
                KokoroEngine.outputPath w this voice (SynthesisRequest.text request);
              AudioResult.format := "wav";
              AudioResult.duration := None;
              AudioResult.size := size;
              AudioResult.metadata :=
                {| AudioResult.voice := Voice.name voice;
                   AudioResult.engine := KokoroEngine.name;
                   AudioResult.textLength :=
                     JS.length (SynthesisRequest.text request);
                   AudioResult.synthesisTime := now_end w - now_start w |} |})
        (this, files)
    with
    | (Ok a, s') => (Ok a, s')
    | (Throw e, s') =>
        (Throw (rethrown "kokoro" "Kokoro synthesis failed" e),
         (fst s',
          after_kill w e
            (cleaned w
               (KokoroEngine.outputPath w this voice (SynthesisRequest.text request))
               (snd s'))))
    end.
Proof.
  unfold KokoroEngine.attempt.
  unfold bind at 1. unfold get at 1. cbn [fst].
  unfold tryCatch at 1.
  match goal with |- context [match ?b (this, files) with _ => _ end] =>
    destruct (b (this, files)) as [[a|e] s'] end; [reflexivity|].
  unfold KokoroEngine.name. now rewrite catch_exact.
Qed.

(** What a failed call leaves at the output path [op]: nothing, when the
    deletion is not refused and no child was killed by the timer; with a
    killed child, what that child still writes. *)
Lemma after_cleanup (w : World) (op : string) (error : Exn) (files : Files) :
  unlink_ok w op = true ->
  (exn_code error <> Some TIMEOUT ->
   after_kill w error (cleaned w op files) !! op = None)
  /\ (exn_code error = Some TIMEOUT ->
      exists deleted,
        deleted !! op = None
        /\ after_kill w error (cleaned w op files) = late_files w deleted).
Proof.
  intros Hok. unfold after_kill. split.
  - intros Hcode. destruct (exn_code error) as [[]|];
      try (now apply cleaned_absent). contradiction.
  - intros ->. exists (cleaned w op files). split; [now apply cleaned_absent|reflexivity].
Qed.

Lemma rethrown_code (name wrapped : string) (error : Exn) :
  exn_code (rethrown name wrapped error) = Some TIMEOUT
  <-> exn_code error = Some TIMEOUT.
Proof. destruct error; cbn; split; congruence. Qed.

Lemma after_kill_rethrown (w : World) (name wrapped : string) (error : Exn)
    (files : Files) :
  after_kill w (rethrown name wrapped error) files = after_kill w error files.
Proof. now destruct error. Qed.

Lemma macos_attempt_failure (w : World) (request : SynthesisRequest.t)
    (voice : Voice.t) (this : MacOSEngine.t) (files : Files)
    (outcome : Result AudioResult.t * (MacOSEngine.t * Files)) :
  outcome = MacOSEngine.attempt w request voice (this, files) ->
  ((exists e, fst outcome = Throw e) <->
   ~ macos_run_succeeds w this request voice files)
  /\ (forall e,
        fst outcome = Throw e ->
        tagged "macos" e
        /\ fst (snd outcome) = this
        /\ (exn_code e = Some TIMEOUT <-> macos_run_times_out w this request voice)
        /\ exists before,
             snd (snd outcome)
             = after_kill w e
                 (cleaned w
                    (MacOSEngine.outputPath w this voice
                       (SynthesisRequest.text request)) before)).
Proof.
  unfold macos_run_succeeds, macos_run_times_out.
  intros ->. rewrite macos_attempt_exact, macos_try_block.
  set (op := MacOSEngine.outputPath w this voice (SynthesisRequest.text request)).
  destruct (mkdir_ok w _) eqn:Hmk.
  2:{ split.
      - split; [intros _ [H _]; discriminate | eauto].
      - intros e [= <-]. cbn [fst snd rethrown]. split; [apply tagged_intro|].
        split; [reflexivity|]. split; [|eauto].
        split; [discriminate | intros [H _]; discriminate]. }
  destruct (say_run w _) as [message|events] eqn:Hrun.
  { split.
    - split; [|eauto]. intros _ (_ & (evs & out & err & H & _) & _). discriminate.
    - intros e [= <-]. cbn [fst snd rethrown]. split; [apply tagged_intro|].
      split; [reflexivity|]. split; [|eauto].
      split; [discriminate | intros (_ & evs & H & _); discriminate]. }
  destruct (exit_of _ _ events) as [[[code out] err]|] eqn:Hexit.
  2:{ split.
      - split; [|eauto]. intros _ (_ & (evs & out & err & [= <-] & H) & _).
        congruence.
      - intros e [= <-]. cbn [fst snd rethrown]. split; [apply tagged_intro|].
        split; [reflexivity|]. split; [|eauto].
        split; [eauto | reflexivity]. }
  assert (Hnot : forall e : Exn,
            exn_code (rethrown "macos" "Synthesis failed" e) = Some TIMEOUT ->
            exn_code e = Some TIMEOUT) by (intros e; apply rethrown_code).
  assert (Hrunning : ~ (true = true /\ exists evs,
            ChildProcess.spawned events = ChildProcess.spawned evs
            /\ exit_of EmptyString EmptyString evs = None)).
  { intros (_ & evs & [= <-] & H). congruence. }
  destruct code as [[|p|p]|];
    try (split;
         [split; [|eauto]; intros _ (_ & (evs & o & e' & [= <-] & H) & _); congruence
         |intros e [= <-]; cbn [fst snd rethrown]; split; [apply tagged_intro|];
          split; [reflexivity|]; split; [|eauto];
          split; [discriminate | intros H; destruct (Hrunning H)]]).
  destruct (child_files w files !! op) as [content|] eqn:Hop.
  - split.
    + split; [intros [e H]; discriminate|]. intros H. destruct H.
      split; [reflexivity|]. split; [eauto|discriminate].
    + intros e H. discriminate.
  - split.
    + split; [|eauto]. intros _ (_ & _ & H). now apply H.
    + intros e [= <-]. cbn [fst snd rethrown]. split; [apply tagged_intro|].
      split; [reflexivity|]. split; [|eauto].
      split; [discriminate | intros H; destruct (Hrunning H)].
Qed.

Lemma onSynthesisClose_throws (code : option Z) (out err : string) (e : Exn) :
  KokoroEngine.onSynthesisClose code out err = Throw e ->
  tagged "kokoro" e /\ exn_code e = Some SYNTHESIS_FAILED
  /\ ~ (code = Some 0 /\ JS.includes out "SUCCESS" = true).
Proof.
  intros H. split; [|split].
  - revert H. unfold KokoroEngine.onSynthesisClose.
    destruct (_ && _); [discriminate|]. intros [= <-]. apply tagged_intro.
  - revert H. unfold KokoroEngine.onSynthesisClose.
    destruct (_ && _); [discriminate|]. now intros [= <-].
  - intros Hok. apply (proj2 (onSynthesisClose_ok code out err)) in Hok. congruence.
Qed.

Lemma kokoro_attempt_failure (w : World) (request : SynthesisRequest.t)
    (voice : Voice.t) (this : KokoroEngine.t) (files : Files)
    (outcome : Result AudioResult.t * (KokoroEngine.t * Files)) :
  outcome = KokoroEngine.attempt w request voice (this, files) ->
  ((exists e, fst outcome = Throw e) <->
   ~ kokoro_run_succeeds w this request voice files)
  /\ (forall e,
        fst outcome = Throw e ->
        tagged "kokoro" e
        /\ fst (snd outcome) = this
        /\ (exn_code e = Some TIMEOUT <-> kokoro_run_times_out w this)
        /\ exists before,
             snd (snd outcome)
             = after_kill w e
                 (cleaned w
                    (KokoroEngine.outputPath w this voice
                       (SynthesisRequest.text request)) before)).
Proof.
  unfold kokoro_run_succeeds, kokoro_run_times_out.
  intros ->. rewrite kokoro_attempt_exact, kokoro_try_block. unfold written.
  set (op := KokoroEngine.outputPath w this voice (SynthesisRequest.text request)).
  set (sp := KokoroEngine.scriptPath w this).
  set (script := KokoroEngine.generateKokoroScript _ _ _).
  destruct (mkdir_ok w _) eqn:Hmk.
  2:{ split.
      - split; [intros _ [H _]; discriminate | eauto].
      - intros e [= <-]. cbn [fst snd rethrown]. split; [apply tagged_intro|].
        split; [reflexivity|]. split; [|eauto].
        split; [discriminate | intros [H _]; discriminate]. }
  destruct (writeFile_ok w sp) eqn:Hwr.
  2:{ split.
      - split; [intros _ (_ & H & _); discriminate | eauto].
      - intros e [= <-]. cbn [fst snd rethrown]. split; [apply tagged_intro|].
        split; [reflexivity|]. split; [|eauto].
        split; [discriminate | intros (_ & H & _); discriminate]. }
  destruct (JS.truthy (KokoroEngine.pythonExecutable this)) as [executable|] eqn:Hex.
  2:{ split.
      - split; [|eauto]. intros _ (_ & _ & x & evs & out & err & H & _). discriminate.
      - intros e [= <-]. cbn [fst snd rethrown]. split; [apply tagged_intro|].
        split; [reflexivity|]. split; [|eauto].
        split; [discriminate | intros (_ & _ & x & evs & H & _); discriminate]. }
  destruct (python_run w executable sp) as [message|events] eqn:Hrun.
  { split.
    - split; [|eauto].
      intros _ (_ & _ & x & evs & out & err & [= <-] & H & _). congruence.
    - intros e [= <-]. cbn [fst snd rethrown]. split; [apply tagged_intro|].
      split; [reflexivity|]. split; [|eauto].
      split; [discriminate|]. intros (_ & _ & x & evs & [= <-] & H & _). congruence. }
  destruct (exit_of _ _ events) as [[[code out] err]|] eqn:Hexit.
  2:{ split.
      - split; [|eauto].
        intros _ (_ & _ & x & evs & out & err & [= <-] & H & H' & _). congruence.
      - intros e [= <-]. cbn [fst snd rethrown]. split; [apply tagged_intro|].
        split; [reflexivity|]. split; [|eauto].
        split; [eauto 10 | reflexivity]. }
  assert (Hrunning : forall P : Prop,
            (true = true /\ true = true /\ exists x evs,
               Some executable = Some x
               /\ python_run w x sp = ChildProcess.spawned evs
               /\ exit_of EmptyString EmptyString evs = None) -> P).
  { intros P (_ & _ & x & evs & [= <-] & H & H'). congruence. }
  assert (Hsame : forall (P : Prop) x evs o e',
            Some executable = Some x ->
            python_run w x sp = ChildProcess.spawned evs ->
            exit_of EmptyString EmptyString evs = Some (Some 0, o, e') ->
            (code = Some 0 -> o = out -> P) -> P).
  { intros P x evs o e' [= <-] H H' HP. rewrite Hrun in H. injection H as <-.
    rewrite Hexit in H'. injection H' as -> -> _. now apply HP. }
  destruct (KokoroEngine.onSynthesisClose code out err) as [[]|e0] eqn:Hclose.
  2:{ apply onSynthesisClose_throws in Hclose as (Htag & Hcode & Hnot).
      destruct Htag as (m & c & cause & ->). cbn in Hcode. injection Hcode as ->.
      split.
      - split; [|eauto].
        intros _ (_ & _ & x & evs & o & e' & H1 & H2 & H3 & H4 & _).
        apply (Hsame False x evs o e' H1 H2 H3). intros -> ->. now apply Hnot.
      - intros e [= <-]. cbn [fst snd rethrown]. split; [apply tagged_intro|].
        split; [reflexivity|]. split; [|eauto].
        split; [discriminate | apply Hrunning]. }
  apply (proj1 (onSynthesisClose_ok code out err)) in Hclose as [-> Hmarker].
  destruct (child_files w (<[sp:=script]> files) !! sp) as [present|] eqn:Hsp.
  2:{ split.
      - split; [|eauto].
        intros _ (_ & _ & x & evs & o & e' & _ & _ & _ & _ & H & _). now apply H.
      - intros e [= <-]. cbn [fst snd rethrown]. split; [apply tagged_intro|].
        split; [reflexivity|]. split; [|eauto].
        split; [discriminate | apply Hrunning]. }
  destruct (unlink_ok w sp) eqn:Hun.
  2:{ split.
      - split; [|eauto].
        intros _ (_ & _ & x & evs & o & e' & _ & _ & _ & _ & _ & H & _). discriminate.
      - intros e [= <-]. cbn [fst snd rethrown]. split; [apply tagged_intro|].
        split; [reflexivity|]. split; [|eauto].
        split; [discriminate | apply Hrunning]. }
  destruct (delete sp (child_files w (<[sp:=script]> files)) !! op)
    as [content|] eqn:Hop.
  - split.
    + split; [intros [e H]; discriminate|]. intros H. destruct H.
      split; [reflexivity|]. split; [reflexivity|].
      exists executable, events, out, err. repeat split; try assumption; discriminate.
    + intros e H. discriminate.
  - split.
    + split; [|eauto].
      intros _ (_ & _ & x & evs & o & e' & _ & _ & _ & _ & _ & _ & H). now apply H.
    + intros e [= <-]. cbn [fst snd rethrown]. split; [apply tagged_intro|].
      split; [reflexivity|]. split; [|eauto].
      split; [discriminate | apply Hrunning].
Qed.

(** Past its checks, [synthesize] is its [try] statement. *)
Lemma macos_synthesize_attempt (w : World) (request : SynthesisRequest.t)
    (voice : Voice.t) (this this1 : MacOSEngine.t) (files : Files) :
  MacOSEngine.initialize w this = (Ok tt, this1) ->
  isBlank (SynthesisRequest.text request) = false ->
  JS.length (SynthesisRequest.text request) <= 50000 ->
  MacOSEngine.resolveVoice this1 (SynthesisRequest.voice request) = Ok (Some voice) ->
  MacOSEngine.synthesize w request (this, files)
  = MacOSEngine.attempt w request voice (this1, files).
Proof.
  intros Hinit Hblank Hlen Hvoice. apply Z.ltb_ge in Hlen.
  set (text := SynthesisRequest.text request) in *.
  unfold MacOSEngine.synthesize. fold text.
  unfold bind at 1. unfold get at 1. unfold bind at 1. cbn [fst snd].
  rewrite macos_lazy_initialize, Hinit. cbn [fst snd].
  rewrite Hblank, Hlen.
  unfold bind at 1. unfold get at 1. unfold bind at 1. unfold await. cbn [fst].
  now rewrite Hvoice.
Qed.

Lemma kokoro_synthesize_attempt (w : World) (request : SynthesisRequest.t)
    (voice : Voice.t) (this this1 : KokoroEngine.t) (files : Files) :
  KokoroEngine.initialize w this = (Ok tt, this1) ->
  isBlank (SynthesisRequest.text request) = false ->
  JS.length (SynthesisRequest.text request) <= 50000 ->
  KokoroEngine.resolveVoice this1 (SynthesisRequest.voice request) = Ok (Some voice) ->
  KokoroEngine.synthesize w request (this, files)
  = KokoroEngine.attempt w request voice (this1, files).
Proof.
  intros Hinit Hblank Hlen Hvoice. apply Z.ltb_ge in Hlen.
  set (text := SynthesisRequest.text request) in *.
  unfold KokoroEngine.synthesize. fold text.
  unfold bind at 1. unfold get at 1. unfold bind at 1. cbn [fst snd].
  rewrite kokoro_lazy_initialize, Hinit. cbn [fst snd].
  rewrite Hblank, Hlen.
  unfold bind at 1. unfold get at 1. unfold bind at 1. unfold await. cbn [fst].
  now rewrite Hvoice.
Qed.

(** C6. A call of [synthesize] that has determined its output path (the
    engine is initialized, the text has passed the checks, the voice is
    resolved) fails exactly when its [try] block does not complete: the
    directory cannot be made, the script cannot be written or removed,
    the child cannot start, exits with a failure or is killed by the
    timer, or the output file is not there. It then throws a TTSError
    tagged with the engine and leaves the engine as it was after its
    initialization, having tried once to delete the file at the output
    path. When this deletion is not refused, no file is at the output
    path after a failure that is not a timeout; after a timeout, whose
    child was killed and not waited for, the files are what that child
    has still made of files without one at the output path. *)
Theorem failed_synthesis_deletes_output (w : World)
    (request : SynthesisRequest.t) (voice : Voice.t) (files : Files) :
  isBlank (SynthesisRequest.text request) = false ->
  JS.length (SynthesisRequest.text request) <= 50000 ->
  (forall (this this1 : MacOSEngine.t)
          (outcome : Result AudioResult.t * (MacOSEngine.t * Files)),
     MacOSEngine.initialize w this = (Ok tt, this1) ->
     MacOSEngine.resolveVoice this1 (SynthesisRequest.voice request)
     = Ok (Some voice) ->
     outcome = MacOSEngine.synthesize w request (this, files) ->
     ((exists e, fst outcome = Throw e) <->
      ~ macos_run_succeeds w this1 request voice files)
     /\ forall e,
          fst outcome = Throw e ->
          tagged "macos" e
          /\ fst (snd outcome) = this1
          /\ (exn_code e = Some TIMEOUT <-> macos_run_times_out w this1 request voice)
          /\ (unlink_ok w (MacOSEngine.outputPath w this1 voice
                             (SynthesisRequest.text request)) = true ->
              (exn_code e <> Some TIMEOUT ->
               snd (snd outcome)
               !! MacOSEngine.outputPath w this1 voice (SynthesisRequest.text request)
               = None)
              /\ (exn_code e = Some TIMEOUT ->
                  exists deleted,
                    deleted
                    !! MacOSEngine.outputPath w this1 voice
                         (SynthesisRequest.text request) = None
                    /\ snd (snd outcome) = late_files w deleted)))
  /\ (forall (this this1 : KokoroEngine.t)
             (outcome : Result AudioResult.t * (KokoroEngine.t * Files)),
        KokoroEngine.initialize w this = (Ok tt, this1) ->
        KokoroEngine.resolveVoice this1 (SynthesisRequest.voice request)
        = Ok (Some voice) ->
        outcome = KokoroEngine.synthesize w request (this, files) ->
        ((exists e, fst outcome = Throw e) <->
         ~ kokoro_run_succeeds w this1 request voice files)
        /\ forall e,
             fst outcome = Throw e ->
             tagged "kokoro" e
             /\ fst (snd outcome) = this1
             /\ (exn_code e = Some TIMEOUT <-> kokoro_run_times_out w this1)
             /\ (unlink_ok w (KokoroEngine.outputPath w this1 voice
                                (SynthesisRequest.text request)) = true ->
                 (exn_code e <> Some TIMEOUT ->
                  snd (snd outcome)
                  !! KokoroEngine.outputPath w this1 voice
                       (SynthesisRequest.text request)
                  = None)
                 /\ (exn_code e = Some TIMEOUT ->
                     exists deleted,
                       deleted
                       !! KokoroEngine.outputPath w this1 voice
                            (SynthesisRequest.text request) = None
                       /\ snd (snd outcome) = late_files w deleted))).
Proof.
  intros Hblank Hlen. split; intros this this1 outcome Hinit Hvoice ->.
  - rewrite (macos_synthesize_attempt w request voice this this1 files
               Hinit Hblank Hlen Hvoice).
    destruct (macos_attempt_failure w request voice this1 files _ eq_refl)
      as [Hiff Hfail].
    split; [exact Hiff|]. intros e He.
    destruct (Hfail e He) as (Htag & Hthis & Htime & before & Hfiles).
    split; [exact Htag|]. split; [exact Hthis|]. split; [exact Htime|].
    intros Hok. rewrite Hfiles. now apply after_cleanup.
  - rewrite (kokoro_synthesize_attempt w request voice this this1 files
               Hinit Hblank Hlen Hvoice).
    destruct (kokoro_attempt_failure w request voice this1 files _ eq_refl)
      as [Hiff Hfail].
    split; [exact Hiff|]. intros e He.
    destruct (Hfail e He) as (Htag & Hthis & Htime & before & Hfiles).
    split; [exact Htag|]. split; [exact Hthis|]. split; [exact Htime|].
    intros Hok. rewrite Hfiles. now apply after_cleanup.
Qed.

(** The [say] child writes part of the audio file and exits with code 1:
    [synthesize] throws a tagged error, and the file is gone. *)
Lemma failed_synthesis_deletes_output_witness :
  child_files Scenario.mac_failing ∅ !! Scenario.mac_out = Some "RIFF"
  /\ exists e,
       fst (MacOSEngine.synthesize Scenario.mac_failing Scenario.hello
              (Scenario.mac_fresh, ∅)) = Throw e
       /\ tagged "macos" e
       /\ snd (snd (MacOSEngine.synthesize Scenario.mac_failing Scenario.hello
                      (Scenario.mac_fresh, ∅))) !! Scenario.mac_out = None.
Proof.
  split; [reflexivity|].
  destruct (proj1 (failed_synthesis_deletes_output Scenario.mac_failing
                     Scenario.hello Scenario.alex ∅ eq_refl
                     ltac:(vm_compute; discriminate))
              Scenario.mac_fresh Scenario.mac_ready _ eq_refl eq_refl eq_refl)
    as [Hiff Hfail].
  assert (Hnot : ~ macos_run_succeeds Scenario.mac_failing Scenario.mac_ready
                     Scenario.hello Scenario.alex ∅).
  { intros (_ & (events & out & err & Hrun & Hexit) & _).
    injection Hrun as <-. discriminate Hexit. }
  destruct (proj2 Hiff Hnot) as [e He]. exists e. split; [exact He|].
  destruct (Hfail e He) as (Htag & _ & Htime & Hgone).
  split; [exact Htag|].
  apply (Hgone eq_refl). intros Hcode. apply Htime in Hcode.
  destruct Hcode as (_ & events & Hrun & Hexit).
  injection Hrun as <-. discriminate Hexit.
Defined.

(** C6 as it is written fails on the code. On a host that refuses the
    removal, the [say] child writes part of the audio file and exits with
    code 1: [synthesize] throws SynthesisFailed and the partial file is
    still at the output path, the error of the deletion being ignored.
    And when the Python child is killed by the timer, it is not waited
    for: what it writes after the deletion is at the output path when
    it has ended. *)
Lemma failed_synthesis_can_leave_output :
  (thrown_code (fst (MacOSEngine.synthesize Scenario.mac_locked Scenario.hello
                       (Scenario.mac_ready, ∅)))
   = Some SYNTHESIS_FAILED
   /\ snd (snd (MacOSEngine.synthesize Scenario.mac_locked Scenario.hello
                  (Scenario.mac_ready, ∅))) !! Scenario.mac_out
      = Some "RIFF")
  /\ (thrown_code (fst (KokoroEngine.synthesize Scenario.kokoro_hanging
                          Scenario.hello (Scenario.kokoro_ready, ∅)))
      = Some TIMEOUT
      /\ unlink_ok Scenario.kokoro_hanging Scenario.kokoro_out = true
      /\ snd (snd (KokoroEngine.synthesize Scenario.kokoro_hanging Scenario.hello
                     (Scenario.kokoro_ready, ∅))) !! Scenario.kokoro_out
         = Some "RIFFWAVE").
Proof. repeat split; vm_compute; reflexivity. Qed.

(** ** The temp script *)

Lemma kokoro_script_removed_on_success (w : World) (request : SynthesisRequest.t)
    (voice : Voice.t) (this : KokoroEngine.t) (files : Files) (a : AudioResult.t)
    (s' : KokoroEngine.t * Files) :
  KokoroEngine.attempt w request voice (this, files) = (Ok a, s') ->
  snd s' !! KokoroEngine.scriptPath w this = None.
Proof.
  rewrite kokoro_attempt_exact, kokoro_try_block.
  destruct (mkdir_ok w _); [|discriminate].
  destruct (writeFile_ok w _); [|discriminate].
  destruct (JS.truthy _) as [executable|]; [|discriminate].
  destruct (python_run w executable _) as [message|events]; [discriminate|].
  destruct (exit_of _ _ events) as [[[code out] err]|]; [|discriminate].
  destruct (KokoroEngine.onSynthesisClose code out err) as [[]|e]; [|discriminate].
  destruct (child_files w _ !! KokoroEngine.scriptPath w this); [|discriminate].
  destruct (unlink_ok w _); [|discriminate].
  destruct (delete _ _ !! _); [|discriminate].
  intros [= _ <-]. apply lookup_delete_eq.
Qed.

(** C7 on the code. The Python child exits with code 1: [synthesize] of
    the Kokoro engine throws SynthesisFailed, the output file is removed,
    and the script written to the temp directory is still there. *)
Theorem kokoro_script_left_behind :
  thrown_code (fst (KokoroEngine.synthesize Scenario.kokoro_failing Scenario.hello
                      (Scenario.kokoro_ready, ∅)))
  = Some SYNTHESIS_FAILED
  /\ snd (snd (KokoroEngine.synthesize Scenario.kokoro_failing Scenario.hello
                 (Scenario.kokoro_ready, ∅))) !! Scenario.kokoro_out = None
  /\ snd (snd (KokoroEngine.synthesize Scenario.kokoro_failing Scenario.hello
                 (Scenario.kokoro_ready, ∅))) !! Scenario.kokoro_script
     = Some (KokoroEngine.generateKokoroScript "Hello, world!" Scenario.af_sarah
               Scenario.kokoro_out).
Proof. repeat split; vm_compute; reflexivity. Qed.

(** ** The speed-to-rate mapping *)

Section Rate.
Import Binary64.

(** Case analysis on every integer test of the goal. *)
Ltac split_test :=
  first
    [ match goal with |- context [(?x =? ?y)] => destruct (Z.eqb_spec x y) end
    | match goal with |- context [(?x <? ?y)] => destruct (Z.ltb_spec x y) end
    | match goal with |- context [(?x <=? ?y)] => destruct (Z.leb_spec x y) end ].

Ltac zbool :=
  repeat split_test;
  cbn [negb andb orb]; try reflexivity; try discriminate.

(** *** Shifting a mantissa to the right, as [shr] does *)

Lemma iter_pos_nat {A : Type} (f : A -> A) (p : positive) (x : A) :
  SpecFloat.iter_pos f p x = Nat.iter (Pos.to_nat p) f x.
Proof.
  revert x. induction p as [p IH|p IH|]; intros x; cbn [SpecFloat.iter_pos].
  - rewrite !IH. rewrite Pos2Nat.inj_xI.
    replace (S (2 * Pos.to_nat p)) with (Pos.to_nat p + S (Pos.to_nat p))%nat by lia.
    rewrite Nat.iter_add. f_equal. now rewrite Nat.iter_succ_r.
  - rewrite !IH. rewrite Pos2Nat.inj_xO.
    replace (2 * Pos.to_nat p)%nat with (Pos.to_nat p + Pos.to_nat p)%nat by lia.
    now rewrite Nat.iter_add.
  - reflexivity.
Qed.

Lemma shr_1_nonneg (m : Z) (r s : bool) :
  0 <= m ->
  shr_1 {| shr_m := m; shr_r := r; shr_s := s |}
  = {| shr_m := m / 2; shr_r := Z.odd m; shr_s := r || s |}.
Proof.
  intros Hm. destruct m as [|[p|p|]|p]; try lia; cbn [shr_1].
  - reflexivity.
  - f_equal. rewrite Pos2Z.inj_xI. apply Z.div_unique with (r := 1); lia.
  - f_equal. rewrite Pos2Z.inj_xO. apply Z.div_unique with (r := 0); lia.
  - reflexivity.
Qed.

Lemma shifted_step (M : Z) (n : nat) :
  0 <= M -> shr_1 (shifted M n) = shifted M (S n).
Proof.
  intros HM. unfold shifted.
  set (N := Z.of_nat n). assert (HN : 0 <= N) by lia.
  replace (Z.of_nat (S n)) with (N + 1) by lia.
  assert (Hpow : 2 ^ (N + 1) = 2 * 2 ^ N) by (rewrite Z.pow_add_r by lia; lia).
  assert (Hpos : 0 < 2 ^ N) by (apply Z.pow_pos_nonneg; lia).
  rewrite Hpow.
  set (q := M / 2 ^ N). set (r := M mod 2 ^ N).
  assert (HMq : M = 2 ^ N * q + r) by (apply Z.div_mod; lia).
  assert (Hr : 0 <= r < 2 ^ N) by (apply Z.mod_pos_bound; lia).
  assert (Hq : 0 <= q) by (apply Z.div_pos; lia).
  rewrite shr_1_nonneg by exact Hq.
  assert (Hq2 : q = 2 * (q / 2) + (if Z.odd q then 1 else 0)).
  { rewrite <- Zmod_odd. apply Z.div_mod. lia. }
  set (b := if Z.odd q then 1 else 0) in *.
  assert (Hb : 0 <= b <= 1) by (subst b; destruct (Z.odd q); lia).
  assert (Hdiv : M / (2 * 2 ^ N) = q / 2).
  { symmetry. apply Z.div_unique with (r := b * 2 ^ N + r); nia. }
  assert (Hmod : M mod (2 * 2 ^ N) = b * 2 ^ N + r).
  { symmetry. apply Z.mod_unique with (q := q / 2); nia. }
  rewrite Hdiv, Hmod. subst b.
  f_equal; destruct (Z.odd q); zbool; nia.
Qed.

Lemma shifted_0 (M : Z) : shifted M 0 = {| shr_m := M; shr_r := false; shr_s := false |}.
Proof.
  unfold shifted. cbn [Z.of_nat]. change (2 ^ 0) with 1.
  rewrite Z.div_1_r, Z.mod_1_r. reflexivity.
Qed.

Lemma shifted_iter (M : Z) (n : nat) :
  0 <= M ->
  Nat.iter n shr_1 {| shr_m := M; shr_r := false; shr_s := false |} = shifted M n.
Proof.
  intros HM. induction n as [|n IH].
  - symmetry. apply shifted_0.
  - rewrite Nat.iter_succ, IH. now apply shifted_step.
Qed.

Lemma shr_exact (M e n : Z) :
  0 <= M ->
  shr (shr_record_of_loc M loc_Exact) e n
  = (shifted M (Z.to_nat n), e + Z.max 0 n).
Proof.
  intros HM. cbn [shr_record_of_loc]. destruct n as [|p|p]; cbn [shr Z.to_nat].
  - rewrite shifted_0. f_equal; lia.
  - rewrite iter_pos_nat, shifted_iter by exact HM. f_equal; lia.
  - rewrite shifted_0. f_equal; lia.
Qed.

Lemma rne_of_shifted (M : Z) (n : nat) :
  round_nearest_even (shr_m (shifted M n)) (loc_of_shr_record (shifted M n))
  = rne M (Z.of_nat n).
Proof.
  unfold shifted, rne. cbn [shr_m loc_of_shr_record].
  set (N := Z.of_nat n).
  assert (Hpos : 0 < 2 ^ N) by (apply Z.pow_pos_nonneg; lia).
  pose proof (Z.mod_pos_bound M (2 ^ N) Hpos) as Hr.
  set (r := M mod 2 ^ N) in *. set (q := M / 2 ^ N).
  zbool; cbn [round_nearest_even]; try reflexivity; try lia.
Qed.

Lemma rne_bounds (M n : Z) :
  0 <= n -> M / 2 ^ n <= rne M n <= M / 2 ^ n + 1.
Proof.
  intros Hn. unfold rne. zbool; try lia. destruct (Z.even _); lia.
Qed.

Lemma rne_nonneg (M n : Z) : 0 <= M -> 0 <= n -> 0 <= rne M n.
Proof.
  intros HM Hn. pose proof (rne_bounds M n Hn).
  assert (0 <= M / 2 ^ n) by (apply Z.div_pos; [lia | apply Z.pow_pos_nonneg; lia]).
  lia.
Qed.


Lemma to_nat_max (n : Z) : Z.of_nat (Z.to_nat n) = Z.max 0 n.
Proof. lia. Qed.

Lemma binary_round_aux_exact (sx : bool) (M E : Z) :
  0 <= M ->
  binary_round_aux 53 1024 sx M E loc_Exact = round_aux sx M E.
Proof.
  intros HM. unfold binary_round_aux, shr_fexp, round_aux.
  rewrite shr_exact by exact HM.
  rewrite rne_of_shifted, to_nat_max.
  set (n := Z.max 0 _).
  rewrite shr_exact by (apply rne_nonneg; lia).
  cbn [shr_m shifted]. rewrite to_nat_max. reflexivity.
Qed.

Lemma pow2_pos (n : Z) : 0 <= n -> 0 < 2 ^ n.
Proof. intros. apply Z.pow_pos_nonneg; lia. Qed.

Lemma pow2_le (a b : Z) : 0 <= a <= b -> 2 ^ a <= 2 ^ b.
Proof. intros. apply Z.pow_le_mono_r; lia. Qed.

Lemma pow2_split (a b : Z) : 0 <= a -> 0 <= b -> 2 ^ (a + b) = 2 ^ a * 2 ^ b.
Proof. intros. apply Z.pow_add_r; lia. Qed.

Lemma digits2_pos_bounds (p : positive) :
  2 ^ (Zpos (digits2_pos p) - 1) <= Zpos p < 2 ^ Zpos (digits2_pos p).
Proof.
  induction p as [p IH|p IH|]; cbn [digits2_pos].
  - rewrite Pos2Z.inj_succ. replace (Z.succ (Zpos (digits2_pos p)) - 1)
      with (Zpos (digits2_pos p) - 1 + 1) by lia.
    rewrite Z.pow_succ_r by lia. rewrite pow2_split by lia. lia.
  - rewrite Pos2Z.inj_succ. replace (Z.succ (Zpos (digits2_pos p)) - 1)
      with (Zpos (digits2_pos p) - 1 + 1) by lia.
    rewrite Z.pow_succ_r by lia. rewrite pow2_split by lia. lia.
  - cbn. lia.
Qed.

Lemma Zdigits2_log2 (M : Z) : 0 < M -> Zdigits2 M = Z.log2 M + 1.
Proof.
  intros HM. destruct M as [|p|p]; try lia. cbn [Zdigits2].
  pose proof (digits2_pos_bounds p) as Hb.
  assert (Z.log2 (Zpos p) = Zpos (digits2_pos p) - 1); [|lia].
  apply Z.log2_unique; [lia|].
  replace (Z.succ (Zpos (digits2_pos p) - 1)) with (Zpos (digits2_pos p)) by lia.
  exact Hb.
Qed.

(** *** Rounding a quotient to the nearest integer, ties to even *)

Lemma rne_exact (q n : Z) : 0 <= n -> rne (q * 2 ^ n) n = q.
Proof.
  intros Hn. pose proof (pow2_pos n Hn). unfold rne.
  rewrite Z.div_mul, Z.mod_mul by lia. zbool; lia.
Qed.

Lemma rne_monotone (M1 M2 n : Z) :
  0 <= n -> M1 <= M2 -> rne M1 n <= rne M2 n.
Proof.
  intros Hn Hle. pose proof (pow2_pos n Hn) as Hpos.
  assert (Hq : M1 / 2 ^ n <= M2 / 2 ^ n) by (apply Z.div_le_mono; lia).
  destruct (Z.eq_dec (M1 / 2 ^ n) (M2 / 2 ^ n)) as [Heq|Hne].
  - pose proof (Z.div_mod M1 (2 ^ n) ltac:(lia)) as H1.
    pose proof (Z.div_mod M2 (2 ^ n) ltac:(lia)) as H2.
    assert (Hr : M1 mod 2 ^ n <= M2 mod 2 ^ n) by (rewrite Heq in H1; lia).
    unfold rne. rewrite Heq. zbool; try lia; destruct (Z.even _); lia.
  - pose proof (rne_bounds M1 n Hn). pose proof (rne_bounds M2 n Hn). lia.
Qed.

Lemma rne_scale (M n k : Z) :
  0 <= n -> 0 <= k -> rne (M * 2 ^ k) (n + k) = rne M n.
Proof.
  intros Hn Hk. pose proof (pow2_pos n Hn). pose proof (pow2_pos k Hk).
  unfold rne. rewrite pow2_split by lia.
  rewrite Z.div_mul_cancel_r by lia.
  rewrite Z.mul_mod_distr_r by lia.
  set (q := M / 2 ^ n). set (r := M mod 2 ^ n).
  zbool; try nia; destruct (Z.even q); nia.
Qed.

Lemma rne_le_pow (M n k : Z) :
  0 <= n -> 0 <= k -> M <= 2 ^ (k + n) -> rne M n <= 2 ^ k.
Proof.
  intros Hn Hk HM. rewrite <- (rne_exact (2 ^ k) n Hn).
  apply rne_monotone; [lia|]. rewrite <- pow2_split by lia. exact HM.
Qed.

Lemma rne_ge_pow (M n k : Z) :
  0 <= n -> 0 <= k -> 2 ^ (k + n) <= M -> 2 ^ k <= rne M n.
Proof.
  intros Hn Hk HM. rewrite <- (rne_exact (2 ^ k) n Hn).
  apply rne_monotone; [lia|]. rewrite <- pow2_split by lia. exact HM.
Qed.

(** *** The value of a rounded product, in units of [2 ^ -1119] *)


Lemma log2_lt_pow (V : Z) : 0 < V -> 2 ^ Z.log2 V <= V < 2 ^ (Z.log2 V + 1).
Proof. intros HV. pose proof (Z.log2_spec V HV). now rewrite <- Z.add_1_r in H. Qed.

Lemma flv_monotone (V1 V2 : Z) : 0 < V1 -> V1 <= V2 -> flv V1 <= flv V2.
Proof.
  intros H1 Hle. unfold flv.
  assert (Hlog : Z.log2 V1 <= Z.log2 V2) by (apply Z.log2_le_mono; lia).
  pose proof (Z.log2_nonneg V1). pose proof (Z.log2_nonneg V2).
  set (t1 := Z.max (Z.log2 V1 + 1 - 53) 45).
  set (t2 := Z.max (Z.log2 V2 + 1 - 53) 45).
  assert (Ht : t1 <= t2) by lia.
  destruct (Z.eq_dec t1 t2) as [Heq|Hne].
  - rewrite Heq. apply Z.mul_le_mono_nonneg_r; [apply Z.lt_le_incl, pow2_pos; lia|].
    apply rne_monotone; lia.
  - assert (Ht2 : t2 = Z.log2 V2 + 1 - 53) by lia.
    assert (Hl : Z.log2 V1 + 1 <= Z.log2 V2) by lia.
    pose proof (log2_lt_pow V1 H1) as [_ Hup].
    pose proof (log2_lt_pow V2 ltac:(lia)) as [Hlow _].
    (* flv V1 <= 2 ^ log2 V2 <= flv V2 *)
    apply Z.le_trans with (2 ^ Z.log2 V2).
    + set (k := Z.max 0 (Z.log2 V1 + 1 - t1)).
      assert (Hr : rne V1 t1 <= 2 ^ k).
      { apply rne_le_pow; [lia | lia |].
        apply Z.le_trans with (2 ^ (Z.log2 V1 + 1)); [lia | apply pow2_le; lia]. }
      apply Z.le_trans with (2 ^ k * 2 ^ t1).
      * apply Z.mul_le_mono_nonneg_r; [apply Z.lt_le_incl, pow2_pos; lia | exact Hr].
      * rewrite <- pow2_split by lia. apply pow2_le. lia.
    + assert (Hr : 2 ^ 52 <= rne V2 t2).
      { apply rne_ge_pow; [lia | lia |].
        replace (52 + t2) with (Z.log2 V2) by lia. exact Hlow. }
      replace (Z.log2 V2) with (52 + t2) at 1 by lia.
      rewrite pow2_split by lia.
      apply Z.mul_le_mono_nonneg_r; [apply Z.lt_le_incl, pow2_pos; lia | exact Hr].
Qed.

(** *** From the rounded product to the rate *)


Lemma clampI_Int (z : Z) : clampI (JS.Int z) = JS.Int (clampZ z).
Proof. reflexivity. Qed.

Lemma rho_monotone (W1 W2 : Z) : W1 <= W2 -> rho W1 <= rho W2.
Proof.
  intros Hle. unfold rho. apply Z.div_le_mono; [apply pow2_pos|]; lia.
Qed.

Lemma clampZ_monotone (a b : Z) : a <= b -> clampZ a <= clampZ b.
Proof. unfold clampZ. lia. Qed.

Lemma clampZ_range (a : Z) : 80 <= clampZ a <= 400.
Proof. unfold clampZ. lia. Qed.

Lemma pow2_1119 : 2 ^ 1119 = 2 * 2 ^ 1118.
Proof. change 1119 with (Z.succ 1118). apply Z.pow_succ_r. lia. Qed.

Lemma round_finite_pos (m : positive) (e : Z) :
  -1119 <= e ->
  JS.round (S754_finite false m e) = JS.Int (rho (Zpos m * 2 ^ (e + 1119))).
Proof.
  intros He. unfold JS.round, rho. cbn [cond_Zopp].
  pose proof pow2_1119 as H19. pose proof (pow2_pos 1118 ltac:(lia)) as H18.
  destruct e as [|p|k]; f_equal.
  - rewrite Z.pow_0_r, Z.mul_1_r. change (0 + 1119) with 1119.
    apply Z.div_unique with (r := 2 ^ 1118); lia.
  - rewrite pow2_split by lia.
    apply Z.div_unique with (r := 2 ^ 1118); lia.
  - rewrite Z.shiftr_div_pow2 by lia.
    assert (Hk : 1 <= Zpos k <= 1119) by lia.
    replace (2 ^ 1119) with (2 ^ Zpos k * 2 ^ (1119 - Zpos k))
      by (rewrite <- pow2_split by lia; f_equal; lia).
    replace (2 ^ 1118) with (2 ^ (Zpos k - 1) * 2 ^ (1119 - Zpos k))
      by (rewrite <- pow2_split by lia; f_equal; lia).
    replace (Zneg k + 1119) with (1119 - Zpos k) by lia.
    rewrite <- Z.mul_add_distr_r.
    rewrite Z.div_mul_cancel_r; [reflexivity | |];
      apply Z.neq_sym, Z.lt_neq, pow2_pos; lia.
Qed.

Lemma fexp_eq (e : Z) : fexp 53 1024 e = Z.max (e - 53) (-1074).
Proof. reflexivity. Qed.

Lemma Zdigits2_nonneg (m : Z) : 0 <= Zdigits2 m.
Proof. destruct m; cbn; lia. Qed.

Lemma Zdigits2_bounds (m : Z) :
  0 < m -> 2 ^ (Zdigits2 m - 1) <= m < 2 ^ Zdigits2 m.
Proof.
  intros Hm. destruct m as [|p|p]; try lia. apply digits2_pos_bounds.
Qed.

Lemma Zdigits2_le (m k : Z) : 0 <= k -> 0 <= m < 2 ^ k -> Zdigits2 m <= k.
Proof.
  intros Hk [H0 Hm]. destruct (Z.eq_dec m 0) as [->|Hne]; [cbn; lia|].
  pose proof (Zdigits2_bounds m ltac:(lia)) as [Hlow _].
  destruct (Z.le_gt_cases (Zdigits2 m) k) as [|Hgt]; [assumption|].
  assert (2 ^ k <= 2 ^ (Zdigits2 m - 1)) by (apply pow2_le; lia). lia.
Qed.

Lemma Zdigits2_pow (k : Z) : 0 <= k -> Zdigits2 (2 ^ k) = k + 1.
Proof.
  intros Hk. rewrite Zdigits2_log2 by (apply pow2_pos; lia).
  now rewrite Z.log2_pow2.
Qed.

(** The second shift of [binary_round_aux] loses nothing: a mantissa
    rounded up to [2 ^ 53] is halved, any other is kept. *)
Lemma renormalize (m2 e1 : Z) :
  0 <= m2 <= 2 ^ 53 -> -1074 <= e1 ->
  let n2 := Z.max 0 (fexp 53 1024 (Zdigits2 m2 + e1) - e1) in
  0 <= n2 /\ m2 / 2 ^ n2 * 2 ^ n2 = m2.
Proof.
  intros [H0 Hm] He n2. subst n2. rewrite fexp_eq.
  destruct (Z.eq_dec m2 (2 ^ 53)) as [->|Hne].
  - rewrite Zdigits2_pow by lia.
    replace (Z.max 0 (Z.max (53 + 1 + e1 - 53) (-1074) - e1)) with 1 by lia.
    split; [lia|]. change (2 ^ 1) with 2. change (2 ^ 53) with (2 ^ 52 * 2).
    now rewrite Z.div_mul by lia.
  - pose proof (Zdigits2_le m2 53 ltac:(lia) ltac:(lia)).
    replace (Z.max 0 (Z.max (Zdigits2 m2 + e1 - 53) (-1074) - e1)) with 0 by lia.
    split; [lia|]. change (2 ^ 0) with 1. rewrite Z.div_1_r. lia.
Qed.

Lemma rate_round_aux (M E : Z) :
  0 < M -> -1119 <= E -> E <= fexp 53 1024 (Zdigits2 M + E) ->
  clampI (JS.round (round_aux false M E))
  = JS.Int (clampZ (rho (flv (M * 2 ^ (E + 1119))))).
Proof.
  intros HM HE Hshift. unfold round_aux.
  set (e1 := fexp 53 1024 (Zdigits2 M + E)) in *.
  assert (He1 : e1 = Z.max (Zdigits2 M + E - 53) (-1074)) by apply fexp_eq.
  replace (Z.max 0 (e1 - E)) with (e1 - E) by lia.
  replace (E + (e1 - E)) with e1 by lia.
  set (m2 := rne M (e1 - E)).
  pose proof (Zdigits2_bounds M HM) as [_ HMd].
  assert (Hm2 : 0 <= m2 <= 2 ^ 53).
  { split; [apply rne_nonneg; lia|].
    apply rne_le_pow; [lia | lia |].
    apply Z.le_trans with (2 ^ Zdigits2 M); [lia|].
    apply pow2_le. pose proof (Zdigits2_nonneg M). lia. }
  destruct (renormalize m2 e1 Hm2 ltac:(lia)) as [Hn2 Hexact].
  set (n2 := Z.max 0 (fexp 53 1024 (Zdigits2 m2 + e1) - e1)) in *.
  (* the value on the right *)
  assert (Hflv : flv (M * 2 ^ (E + 1119)) = m2 / 2 ^ n2 * 2 ^ (e1 + n2 + 1119)).
  { unfold flv. rewrite Z.log2_mul_pow2 by lia.
    replace (Z.max (E + 1119 + Z.log2 M + 1 - 53) 45) with (e1 - E + (E + 1119)).
    2:{ rewrite (Zdigits2_log2 M HM) in He1. lia. }
    rewrite rne_scale by lia. fold m2.
    replace (e1 - E + (E + 1119)) with (e1 + 1119) by lia.
    replace (e1 + n2 + 1119) with (n2 + (e1 + 1119)) by lia.
    rewrite (pow2_split n2) by lia. rewrite <- Hexact at 1. ring. }
  rewrite Hflv.
  assert (Hm3 : 0 <= m2 / 2 ^ n2) by (apply Z.div_pos; [lia | apply pow2_pos; lia]).
  destruct (m2 / 2 ^ n2) as [|m3|m3] eqn:Hq; [| |lia].
  - reflexivity.
  - destruct (Z.leb_spec (e1 + n2) (1024 - 53)) as [Hfin|Hinf].
    + rewrite round_finite_pos by lia. reflexivity.
    + cbn [JS.round clampI JS.min JS.max]. f_equal. unfold clampZ.
      assert (400 <= rho (Zpos m3 * 2 ^ (e1 + n2 + 1119))); [|lia].
      unfold rho.
      apply Z.div_le_lower_bound; [apply pow2_pos; lia|].
      assert (2 ^ 1119 * 2 ^ 9 <= 2 ^ (e1 + n2 + 1119)).
      { rewrite <- pow2_split by lia. apply pow2_le. lia. }
      pose proof (pow2_pos 1118 ltac:(lia)).
      pose proof (pow2_pos 1119 ltac:(lia)).
      change (2 ^ 9) with 512 in *. nia.
Qed.




Lemma valid_finite (s : bool) (m : positive) (e : Z) :
  JS.valid (S754_finite s m e) = true ->
  -1074 <= e <= 971
  /\ Zpos (digits2_pos m) <= 53
  /\ (Zpos (digits2_pos m) = 53 \/ e = -1074).
Proof.
  unfold JS.valid, JS.prec, JS.emax, valid_binary, bounded, canonical_mantissa. rewrite fexp_eq.
  intros H. apply andb_true_iff in H as [Hc He].
  apply Z.eqb_eq in Hc. apply Z.leb_le in He. change (1024 - 53) with 971 in He. lia.
Qed.

Lemma mul_finite (sx : bool) (mx : positive) (ex : Z) :
  JS.mul (S754_finite sx mx ex) JS.n200
  = round_aux sx (Zpos mx * 7036874417766400) (ex - 45).
Proof.
  unfold JS.mul, JS.n200, SFmul, JS.prec, JS.emax.
  rewrite binary_round_aux_exact by lia.
  rewrite xorb_false_r. reflexivity.
Qed.

Lemma Zdigits2_ge (m k : Z) : 0 <= k -> 2 ^ k <= m -> k + 1 <= Zdigits2 m.
Proof.
  intros Hk Hm. pose proof (pow2_pos k Hk).
  pose proof (Zdigits2_bounds m ltac:(lia)) as [_ Hup].
  destruct (Z.le_gt_cases (k + 1) (Zdigits2 m)) as [|Hlt]; [assumption|].
  assert (2 ^ Zdigits2 m <= 2 ^ k)
    by (apply pow2_le; pose proof (Zdigits2_nonneg m); lia).
  lia.
Qed.

(** The rate of a positive double, from its value alone. *)
Lemma rate_of_positive (mx : positive) (ex : Z) :
  let x := S754_finite false mx ex in
  JS.valid x = true ->
  MacOSEngine.calculateRate (Some x)
  = JS.Int (clampZ (rho (flv (7036874417766400 * scaled x)))).
Proof.
  intros x Hvalid. apply valid_finite in Hvalid as (He & Hd & Hnorm).
  unfold MacOSEngine.calculateRate. cbn [JS.falsyNumber x]. unfold x. rewrite mul_finite.
  change (JS.max 80 (JS.min 400 ?r)) with (clampI r).
  rewrite rate_round_aux.
  - do 3 f_equal. cbn [scaled].
    replace (ex - 45 + 1119) with (ex + 1074) by lia. f_equal. ring.
  - lia.
  - lia.
  - rewrite fexp_eq. destruct Hnorm as [Hnormal | ->]; [|lia].
    pose proof (digits2_pos_bounds mx) as [Hlow _]. rewrite Hnormal in Hlow.
    assert (2 ^ 104 <= Zpos mx * 7036874417766400).
    { change (2 ^ 104) with (2 ^ (53 - 1) * 4503599627370496). nia. }
    pose proof (Zdigits2_ge (Zpos mx * 7036874417766400) 104 ltac:(lia) ltac:(lia)).
    lia.
Qed.

Lemma le_scaled (x y : spec_float) :
  JS.valid x = true -> JS.valid y = true ->
  (exists mx ex, x = S754_finite false mx ex) ->
  (exists my ey, y = S754_finite false my ey) ->
  SFleb x y = true ->
  0 < scaled x <= scaled y.
Proof.
  intros Hx Hy (mx & ex & ->) (my & ey & ->).
  apply valid_finite in Hx as (Hex & Hdx & _).
  apply valid_finite in Hy as (Hey & Hdy & Hny).
  cbn [scaled]. intros Hle.
  pose proof (pow2_pos (ex + 1074) ltac:(lia)) as Hpx.
  pose proof (pow2_pos (ey + 1074) ltac:(lia)) as Hpy.
  split; [lia|]. revert Hle. unfold SFleb, SFcompare.
  destruct (Z.compare_spec ex ey) as [->|Hlt|Hgt]; [| |discriminate].
  - rewrite Pos.compare_cont_spec. cbn [Pos.switch_Eq].
    destruct (Pos.compare_spec mx my) as [->|Hm|Hm]; [lia | nia | discriminate].
  - destruct Hny as [Hnormal|]; [|lia].
    pose proof (digits2_pos_bounds mx) as [_ Hupx].
    pose proof (digits2_pos_bounds my) as [Hlowy _]. rewrite Hnormal in Hlowy.
    assert (Hmx : Zpos mx < 2 ^ 53).
    { apply Z.lt_le_trans with (2 ^ Zpos (digits2_pos mx)); [lia | apply pow2_le; lia]. }
    assert (Hp : 2 * 2 ^ (ex + 1074) <= 2 ^ (ey + 1074)).
    { replace (ey + 1074) with (1 + (ey - ex - 1) + (ex + 1074)) by lia.
      rewrite (pow2_split (1 + (ey - ex - 1)) (ex + 1074)) by lia.
      rewrite (pow2_split 1 (ey - ex - 1)) by lia. change (2 ^ 1) with 2.
      pose proof (pow2_pos (ey - ex - 1) ltac:(lia)). nia. }
    change (2 ^ 53) with (2 * 2 ^ 52) in Hmx. change (53 - 1) with 52 in Hlowy.
    intros _. nia.
Qed.

Lemma round_aux_cases (sx : bool) (M E : Z) :
  0 <= M ->
  round_aux sx M E = S754_zero sx
  \/ (exists m e, round_aux sx M E = S754_finite sx m e)
  \/ round_aux sx M E = S754_infinity sx.
Proof.
  intros HM. unfold round_aux.
  set (n := Z.max 0 _). set (m2 := rne M n). set (n2 := Z.max 0 _).
  assert (H2 : 0 <= m2) by (apply rne_nonneg; lia).
  assert (H3 : 0 <= m2 / 2 ^ n2) by (apply Z.div_pos; [lia | apply pow2_pos; lia]).
  destruct (m2 / 2 ^ n2) as [|m3|m3]; [auto | | lia].
  destruct (_ <=? _); eauto.
Qed.

Lemma clampI_range (r : JS.integral) :
  r <> JS.NaN -> exists z, clampI r = JS.Int z /\ 80 <= z <= 400.
Proof.
  intros Hr. destruct r as [| | |z]; [congruence | | |]; cbn [clampI JS.min JS.max];
    eexists; (split; [reflexivity | lia]).
Qed.

Lemma round_negative (m : positive) (e : Z) :
  exists z, JS.round (S754_finite true m e) = JS.Int z /\ z <= 0.
Proof.
  unfold JS.round. cbn [cond_Zopp]. destruct e as [|p|k]; eexists; (split; [reflexivity|]).
  - lia.
  - pose proof (pow2_pos (Zpos p) ltac:(lia)). nia.
  - rewrite Z.shiftr_div_pow2 by lia.
    pose proof (pow2_pos (Zpos k - 1) ltac:(lia)).
    assert (2 ^ Zpos k = 2 * 2 ^ (Zpos k - 1)).
    { replace (Zpos k) with (1 + (Zpos k - 1)) at 1 by lia.
      rewrite pow2_split by lia. reflexivity. }
    assert ((- Zpos m + 2 ^ (Zpos k - 1)) / 2 ^ Zpos k < 1); [|lia].
    apply Z.div_lt_upper_bound; lia.
Qed.

(** Every speed below zero maps to the floor of the rate. *)
Lemma rate_of_negative (x : spec_float) :
  (exists m e, x = S754_finite true m e) \/ x = S754_infinity true ->
  MacOSEngine.calculateRate (Some x) = JS.Int 80.
Proof.
  intros [(m & e & ->) | ->]; [|reflexivity].
  unfold MacOSEngine.calculateRate. cbn [JS.falsyNumber]. rewrite mul_finite.
  destruct (round_aux_cases true (Zpos m * 7036874417766400) (e - 45) ltac:(lia))
    as [-> | [(m' & e' & ->) | ->]]; [reflexivity | | reflexivity].
  destruct (round_negative m' e') as (z & -> & Hz).
  cbn [JS.min JS.max]. f_equal. lia.
Qed.

Lemma rate_range (speed : option spec_float) :
  exists z, MacOSEngine.calculateRate speed = JS.Int z /\ 80 <= z <= 400.
Proof.
  destruct speed as [x|]; [|exists 200; split; [reflexivity | lia]].
  destruct x as [s|s| |s m e]; try (exists 200; split; [reflexivity | lia]).
  - destruct s; [exists 80 | exists 400]; (split; [reflexivity | lia]).
  - unfold MacOSEngine.calculateRate. cbn [JS.falsyNumber]. rewrite mul_finite.
    apply clampI_range.
    destruct (round_aux_cases s (Zpos m * 7036874417766400) (e - 45) ltac:(lia))
      as [-> | [(m' & e' & ->) | ->]]; destruct s; cbn; try discriminate;
      destruct e'; discriminate.
Qed.

Lemma rate_monotone (x y : spec_float) :
  JS.valid x = true -> JS.valid y = true ->
  JS.falsyNumber (Some x) = false -> JS.falsyNumber (Some y) = false ->
  SFleb x y = true ->
  exists zx zy,
    MacOSEngine.calculateRate (Some x) = JS.Int zx /\ MacOSEngine.calculateRate (Some y) = JS.Int zy
    /\ zx <= zy.
Proof.
  intros Hvx Hvy Hx Hy Hle.
  destruct (rate_range (Some x)) as (zx & Hzx & Hrx).
  destruct (rate_range (Some y)) as (zy & Hzy & Hry).
  exists zx, zy. split; [exact Hzx|]. split; [exact Hzy|].
  destruct x as [sx|[|]| |[|] mx ex]; try discriminate.
  - (* minus infinity *)
    rewrite rate_of_negative in Hzx by now right. injection Hzx as <-. lia.
  - (* plus infinity *)
    destruct y as [sy|[|]| |[|] my ey]; try discriminate.
    rewrite Hzx in Hzy. injection Hzy as ->. lia.
  - (* below zero *)
    rewrite rate_of_negative in Hzx by (left; eauto). injection Hzx as <-. lia.
  - (* above zero *)
    destruct y as [sy|[|]| |[|] my ey]; try discriminate.
    + cbn in Hzy. injection Hzy as <-. lia.
    + destruct (le_scaled _ _ Hvx Hvy ltac:(eauto) ltac:(eauto) Hle) as [Hpos Hxy].
      rewrite rate_of_positive in Hzx, Hzy by assumption.
      remember (scaled (S754_finite false mx ex)) as X eqn:HX.
      remember (scaled (S754_finite false my ey)) as Y eqn:HY.
      clear HX HY Hrx Hry.
      assert (Ex : zx = clampZ (rho (flv (7036874417766400 * X)))) by congruence.
      assert (Ey : zy = clampZ (rho (flv (7036874417766400 * Y)))) by congruence.
      rewrite Ex, Ey.
      apply clampZ_monotone, rho_monotone, flv_monotone.
      * apply Z.mul_pos_pos; [lia | exact Hpos].
      * apply Z.mul_le_mono_nonneg_l; [lia | exact Hxy].
Qed.

Lemma rate_is_clamp (x : spec_float) :
  JS.falsyNumber (Some x) = false ->
  MacOSEngine.calculateRate (Some x) = clamp (JS.round (JS.mul x JS.n200)) 80 400.
Proof.
  intros Hx. unfold MacOSEngine.calculateRate. rewrite Hx.
  destruct (JS.round _) as [| | |z]; cbn [JS.min JS.max clamp]; f_equal.
  zbool; lia.
Qed.

Lemma accepted_speed_not_falsy (x : spec_float) :
  JS.leb JS.n0_1 x = true -> JS.falsyNumber (Some x) = false.
Proof. destruct x; [discriminate | reflexivity | discriminate | reflexivity]. Qed.

(** At speed 0 the rate is 200, where the clamp of the rounded product
    is 80; and 0 is below 0.1, whose rate is 80. *)
Lemma zero_speed_rate :
  MacOSEngine.calculateRate (Some Scenario.zero) = JS.Int 200
  /\ clamp (JS.round (JS.mul Scenario.zero JS.n200)) 80 400 = JS.Int 80
  /\ JS.leb Scenario.zero JS.n0_1 = true
  /\ MacOSEngine.calculateRate (Some JS.n0_1) = JS.Int 80.
Proof. repeat split; vm_compute; reflexivity. Qed.

(** C4, as the code has it. For every speed that is not zero (nor NaN),
    and so for every speed from 0.1 up, the rate is
    [clamp(round(speed * 200), 80, 400)]; the rate of every speed,
    given or not, is an integer of [80, 400]; among the non-zero
    speeds the rate is monotonic non-decreasing; speed 0.1 gives 80,
    1.0 gives 200 and 3.0 gives 400; an absent, zero or NaN speed gives
    the default 200. *)
Theorem speed_to_rate :
  (forall x : spec_float,
     JS.falsyNumber (Some x) = false ->
     MacOSEngine.calculateRate (Some x)
     = clamp (JS.round (JS.mul x JS.n200)) 80 400)
  /\ (forall x : spec_float,
        JS.leb JS.n0_1 x = true -> JS.falsyNumber (Some x) = false)
  /\ (forall speed : option spec_float,
        exists z, MacOSEngine.calculateRate speed = JS.Int z /\ 80 <= z <= 400)
  /\ (forall x y : spec_float,
        JS.valid x = true -> JS.valid y = true ->
        JS.falsyNumber (Some x) = false -> JS.falsyNumber (Some y) = false ->
        JS.leb x y = true ->
        exists zx zy,
          MacOSEngine.calculateRate (Some x) = JS.Int zx
          /\ MacOSEngine.calculateRate (Some y) = JS.Int zy
          /\ zx <= zy)
  /\ MacOSEngine.calculateRate (Some JS.n0_1) = JS.Int 80
  /\ MacOSEngine.calculateRate (Some JS.n1) = JS.Int 200
  /\ MacOSEngine.calculateRate (Some JS.n3) = JS.Int 400
  /\ (forall speed : option spec_float,
        JS.falsyNumber speed = true ->
        MacOSEngine.calculateRate speed = JS.Int 200).
Proof.
  split; [exact rate_is_clamp|].
  split; [exact accepted_speed_not_falsy|].
  split; [exact rate_range|].
  split; [exact rate_monotone|].
  split; [vm_compute; reflexivity|].
  split; [vm_compute; reflexivity|].
  split; [vm_compute; reflexivity|].
  intros speed Hfalsy. unfold MacOSEngine.calculateRate.
  destruct speed as [x|]; [now rewrite Hfalsy | reflexivity].
Qed.

End Rate.

(** The speeds 0.75 and 1.3: the rates 150 and 260, in this order. *)
Lemma speed_to_rate_witness :
  MacOSEngine.calculateRate (Some Scenario.n0_75) = JS.Int 150
  /\ MacOSEngine.calculateRate (Some Scenario.n1_3) = JS.Int 260
  /\ exists zx zy,
       MacOSEngine.calculateRate (Some Scenario.n0_75) = JS.Int zx
       /\ MacOSEngine.calculateRate (Some Scenario.n1_3) = JS.Int zy
       /\ zx <= zy.
Proof.
  split; [vm_compute; reflexivity|]. split; [vm_compute; reflexivity|].
  exact (proj1 (proj2 (proj2 (proj2 speed_to_rate))) Scenario.n0_75 Scenario.n1_3
           eq_refl eq_refl eq_refl eq_refl eq_refl).
Defined.

(** * Further properties *)

(** ** Strings *)

Lemma append_nil (b : string) : EmptyString +:+ b = b.
Proof. reflexivity. Qed.

Lemma append_cons (x : ascii) (a b : string) :
  String x a +:+ b = String x (a +:+ b).
Proof. reflexivity. Qed.

Lemma append_assoc (a b c : string) : (a +:+ b) +:+ c = a +:+ (b +:+ c).
Proof.
  induction a as [|x a IH]; [reflexivity|].
  rewrite !append_cons. now rewrite IH.
Qed.

Lemma append_empty_r (a : string) : a +:+ EmptyString = a.
Proof.
  induction a as [|x a IH]; [reflexivity|]. rewrite append_cons. now rewrite IH.
Qed.

Lemma prefix_iff (a s : string) :
  String.prefix a s = true <-> exists b, s = a +:+ b.
Proof.
  revert s. induction a as [|x a IH]; intros s.
  - split; [intros _; now exists s | now destruct s].
  - destruct s as [|y s]; cbn [String.prefix].
    + split; [discriminate | intros [b Hb]; discriminate].
    + destruct (ascii_dec x y) as [->|Hne].
      * rewrite IH. split; intros [b Hb]; exists b.
        -- rewrite append_cons. now rewrite Hb.
        -- rewrite append_cons in Hb. now injection Hb.
      * split; [discriminate | intros [b Hb]].
        rewrite append_cons in Hb. congruence.
Qed.

Lemma includes_iff (hay needle : string) :
  JS.includes hay needle = true
  <-> exists pre post, hay = pre +:+ needle +:+ post.
Proof.
  induction hay as [|c hay IH]; cbn [JS.includes].
  - rewrite orb_false_r, prefix_iff. split.
    + intros [b Hb]. exists EmptyString, b. exact Hb.
    + intros (pre & post & H). destruct pre; [eauto|discriminate].
  - rewrite orb_true_iff, prefix_iff, IH. split.
    + intros [[b Hb]|(pre & post & H)].
      * exists EmptyString, b. exact Hb.
      * exists (String c pre), post. rewrite append_cons. now rewrite H.
    + intros (pre & post & H). destruct pre as [|x pre].
      * left. eauto.
      * right. rewrite append_cons in H. injection H as _ H. eauto.
Qed.

Lemma includes_trans (hay mid needle : string) :
  JS.includes hay mid = true -> JS.includes mid needle = true ->
  JS.includes hay needle = true.
Proof.
  rewrite !includes_iff. intros (p1 & q1 & ->) (p2 & q2 & ->).
  exists (p1 +:+ p2), (q2 +:+ q1). now rewrite !append_assoc.
Qed.

Lemma existsb_intro {A : Type} (f : A -> bool) (l : list A) (x : A) :
  In x l -> f x = true -> existsb f l = true.
Proof. intros Hin Hfx. apply existsb_exists. eauto. Qed.

(** X2. [MacOSEngine.inferGender] looks for the male indicators first, and [male]
    is part of [female], [man] part of [woman] and of [samantha]: a
    name or description that contains one of these three female
    indicators is inferred to be male. *)
Theorem infer_gender_male_first (name description word : string) :
  In word ["female"; "woman"; "samantha"] ->
  JS.includes (JS.toLowerCase name) word
  || JS.includes (JS.toLowerCase description) word = true ->
  MacOSEngine.inferGender name description = male.
Proof.
  intros Hword Hinc. unfold MacOSEngine.inferGender.
  assert (Hmale : exists m, In m MacOSEngine.maleIndicators /\ JS.includes word m = true).
  { cbn in Hword. destruct Hword as [<-|[<-|[<-|[]]]].
    - exists "male". split; [cbn; auto | reflexivity].
    - exists "man". split; [cbn; auto | reflexivity].
    - exists "man". split; [cbn; auto | reflexivity]. }
  destruct Hmale as (m & Hm & Hsub).
  rewrite (existsb_intro _ MacOSEngine.maleIndicators m Hm); [reflexivity|].
  apply orb_true_iff in Hinc. apply orb_true_iff.
  destruct Hinc as [H|H]; [left | right]; eapply includes_trans; eauto.
Qed.

(** ** The voice listing of the macOS engine *)

Lemma span_every (p : ascii -> bool) (s : string) :
  JS.every p (fst (JS.span p s)) = true.
Proof.
  induction s as [|c s IH]; [reflexivity|]. cbn [JS.span].
  destruct (p c) eqn:Hpc; [|reflexivity].
  destruct (JS.span p s) as [taken rest]. cbn [fst JS.every] in *.
  now rewrite Hpc, IH.
Qed.

Lemma lower_letter (c : ascii) :
  MacOSEngine.isLower c = true -> JS.lowerChar c = c /\ Ascii.eqb c "_" = false.
Proof.
  destruct c as [[] [] [] [] [] [] [] []]; vm_compute; intros H;
    solve [discriminate H | split; reflexivity].
Qed.

Lemma upper_letter (c : ascii) :
  MacOSEngine.isUpper c = true ->
  MacOSEngine.isLower (JS.lowerChar c) = true /\ Ascii.eqb (JS.lowerChar c) "_" = false.
Proof.
  destruct c as [[] [] [] [] [] [] [] []]; vm_compute; intros H;
    solve [discriminate H | split; reflexivity].
Qed.

Lemma matchVoiceLine_groups (line name locale description : string) :
  MacOSEngine.matchVoiceLine line = Some (name, locale, description) ->
  name <> EmptyString
  /\ JS.every (fun c => negb (JS.isWhiteSpace c)) name = true
  /\ exists a b c d,
       JS.replace "_" "-" (JS.toLowerCase locale)
       = String a (String b (String "-" (String c (String d EmptyString))))
       /\ MacOSEngine.isLower a && MacOSEngine.isLower b && MacOSEngine.isLower c && MacOSEngine.isLower d = true.
Proof.
  unfold MacOSEngine.matchVoiceLine.
  pose proof (span_every (fun c => negb (JS.isWhiteSpace c)) line) as Hname.
  destruct (JS.span (fun c => negb (JS.isWhiteSpace c)) line) as [nm afterName].
  cbn [fst] in Hname.
  destruct (JS.span JS.isWhiteSpace afterName) as [gap afterGap].
  destruct nm as [|n0 nm]; [discriminate|].
  destruct gap as [|g0 gap]; [discriminate|].
  destruct afterGap as [|l1 [|l2 [|u [|r1 [|r2 afterLocale]]]]]; try discriminate.
  destruct (MacOSEngine.isLower l1) eqn:H1; [|discriminate].
  destruct (MacOSEngine.isLower l2) eqn:H2; [|discriminate].
  destruct (Ascii.eqb u "_") eqn:Hu; [|discriminate].
  destruct (MacOSEngine.isUpper r1) eqn:H3; [|discriminate].
  destruct (MacOSEngine.isUpper r2) eqn:H4; [|discriminate]. cbn [andb].
  destruct (snd (JS.span JS.isWhiteSpace afterLocale)) as [|hash afterHash];
    [discriminate|].
  destruct (Ascii.eqb hash "#"); [|discriminate].
  destruct (JS.every (fun c => negb (JS.isLineTerminator c)) _); [|discriminate].
  intros [= <- <- <-]. split; [discriminate|]. split; [exact Hname|].
  apply Ascii.eqb_eq in Hu. subst u.
  destruct (lower_letter l1 H1) as [E1 N1]. destruct (lower_letter l2 H2) as [E2 N2].
  destruct (upper_letter r1 H3) as [L3 _]. destruct (upper_letter r2 H4) as [L4 _].
  exists l1, l2, (JS.lowerChar r1), (JS.lowerChar r2).
  cbn [JS.toLowerCase JS.replace]. rewrite E1, E2, N1, N2.
  split; [reflexivity|]. now rewrite H1, H2, L3, L4.
Qed.

(** X1. Every voice that [MacOSEngine.parseVoices] makes of a listing is well
    formed: its name is a non-empty word without white space, its id is
    [macos-] followed by the name in lower case, its language is two
    lower-case letters, a hyphen and two lower-case letters, its gender
    is what [MacOSEngine.inferGender] says of the name and the description, its
    description is trimmed, and it is a [macos] voice of [balanced]
    quality. A line whose name has a space in it gives no voice. *)
Theorem parsed_voices_well_formed (output : string) (v : Voice.t) :
  In v (MacOSEngine.parseVoices output) ->
  Voice.name v <> EmptyString
  /\ JS.every (fun c => negb (JS.isWhiteSpace c)) (Voice.name v) = true
  /\ Voice.id v = "macos-" +:+ JS.toLowerCase (Voice.name v)
  /\ (exists a b c d,
        Voice.language v
        = String a (String b (String "-" (String c (String d EmptyString))))
        /\ MacOSEngine.isLower a && MacOSEngine.isLower b && MacOSEngine.isLower c && MacOSEngine.isLower d = true)
  /\ (exists description,
        Voice.gender v = Some (MacOSEngine.inferGender (Voice.name v) description)
        /\ Voice.description v = Some (JS.trim description))
  /\ Voice.engine v = macos /\ Voice.quality v = balanced.
Proof.
  unfold MacOSEngine.parseVoices. rewrite in_flat_map. intros (line & _ & Hv).
  destruct (MacOSEngine.matchVoiceLine line) as [[[name locale] description]|] eqn:Hmatch;
    [|destruct Hv].
  destruct Hv as [<-|[]]. cbn.
  destruct (matchVoiceLine_groups _ _ _ _ Hmatch) as (Hne & Hws & Hlang).
  repeat split; eauto.
Qed.

(** The voice Samantha. *)
Lemma infer_gender_male_first_witness :
  MacOSEngine.inferGender "Samantha" "Hello, my name is Samantha." = male.
Proof.
  apply (infer_gender_male_first "Samantha" "Hello, my name is Samantha." "samantha").
  - cbn. tauto.
  - reflexivity.
Defined.

(** A listing of three lines, one with a name of two words: two voices,
    Samantha among them. *)
Lemma parsed_voices_well_formed_witness :
  In Scenario.parsed_samantha (MacOSEngine.parseVoices Scenario.listing)
  /\ length (MacOSEngine.parseVoices Scenario.listing) = 2%nat
  /\ Voice.id Scenario.parsed_samantha
     = "macos-" +:+ JS.toLowerCase (Voice.name Scenario.parsed_samantha).
Proof.
  assert (Hin : In Scenario.parsed_samantha (MacOSEngine.parseVoices Scenario.listing))
    by (vm_compute; tauto).
  split; [exact Hin|]. split; [vm_compute; reflexivity|].
  exact (proj1 (proj2 (proj2 (parsed_voices_well_formed _ _ Hin)))).
Defined.

(** ** The name of the output file *)

Lemma take_length (n : nat) (s : string) : (String.length (JS.take n s) <= n)%nat.
Proof.
  revert s. induction n as [|n IH]; intros [|c s]; cbn; try lia.
  specialize (IH s). lia.
Qed.

Lemma keepPreviewChars_length (s : string) :
  (String.length (keepPreviewChars s) <= String.length s)%nat.
Proof.
  induction s as [|c s IH]; cbn; [lia|]. destruct (isPreviewChar c); cbn; lia.
Qed.

Lemma keepPreviewChars_every (s : string) :
  JS.every isPreviewChar (keepPreviewChars s) = true.
Proof.
  induction s as [|c s IH]; cbn; [reflexivity|].
  destruct (isPreviewChar c) eqn:Hc; [|exact IH]. cbn. now rewrite Hc.
Qed.

Lemma underscores_length (inRun : bool) (s : string) :
  (String.length (underscores inRun s) <= String.length s)%nat.
Proof.
  revert inRun. induction s as [|c s IH]; intros inRun; cbn; [lia|].
  pose proof (IH true). pose proof (IH false).
  destruct (JS.isWhiteSpace c); [destruct inRun|]; cbn; lia.
Qed.

Lemma toLowerCase_length (s : string) :
  String.length (JS.toLowerCase s) = String.length s.
Proof. induction s as [|c s IH]; cbn; [reflexivity | now rewrite IH]. Qed.

Lemma preview_char (c : ascii) :
  isPreviewChar c = true -> JS.isWhiteSpace c = false ->
  isFileNameChar (JS.lowerChar c) = true.
Proof.
  destruct c as [[] [] [] [] [] [] [] []]; vm_compute; intros H1 H2;
    solve [discriminate H1 | discriminate H2 | reflexivity].
Qed.

Lemma underscores_every (inRun : bool) (s : string) :
  JS.every isPreviewChar s = true ->
  JS.every isFileNameChar (JS.toLowerCase (underscores inRun s)) = true.
Proof.
  revert inRun. induction s as [|c s IH]; intros inRun; cbn [JS.every underscores];
    [reflexivity|].
  intros H. apply andb_true_iff in H as [Hc Hs].
  destruct (JS.isWhiteSpace c) eqn:Hws.
  - destruct inRun; [now apply IH|].
    cbn [JS.toLowerCase JS.every]. now rewrite IH.
  - cbn [JS.toLowerCase JS.every]. now rewrite preview_char, IH.
Qed.

(** X3. The text preview that both engines put into the name of the
    output file has at most 30 characters, each a lower-case letter, a
    digit or an underscore, whatever the text. *)
Theorem text_preview_is_file_name_safe (text : string) :
  JS.every isFileNameChar (textPreview text) = true
  /\ JS.length (textPreview text) <= 30.
Proof.
  unfold textPreview. split.
  - apply underscores_every, keepPreviewChars_every.
  - unfold JS.length. rewrite toLowerCase_length.
    pose proof (underscores_length false (keepPreviewChars (JS.take 30 text))).
    pose proof (keepPreviewChars_length (JS.take 30 text)).
    pose proof (take_length 30 text). lia.
Qed.

(** ** The script of the Kokoro engine *)

Lemma escapeText_app (a b : string) :
  KokoroEngine.escapeText (a +:+ b)
  = KokoroEngine.escapeText a +:+ KokoroEngine.escapeText b.
Proof.
  induction a as [|c a IH]; [reflexivity|].
  rewrite append_cons. cbn [KokoroEngine.escapeText].
  destruct (Ascii.eqb c (ascii_of_N 34)); [|destruct (Ascii.eqb c (ascii_of_N 10))];
    rewrite ?append_cons; now rewrite IH.
Qed.

(** X9. Backslashes of the text are not escaped: a text with a line
    feed at some place and the text with the two characters backslash
    and n at that place give the same script. *)
Theorem script_confuses_backslash_n_with_line_feed (before after : string)
    (voice : Voice.t) (outputPath : string) :
  KokoroEngine.escapeText (before +:+ JS.newline +:+ after)
  = KokoroEngine.escapeText (before +:+ backslash_n +:+ after)
  /\ KokoroEngine.generateKokoroScript (before +:+ JS.newline +:+ after)
       voice outputPath
     = KokoroEngine.generateKokoroScript (before +:+ backslash_n +:+ after)
         voice outputPath.
Proof.
  assert (H : KokoroEngine.escapeText (before +:+ JS.newline +:+ after)
              = KokoroEngine.escapeText (before +:+ backslash_n +:+ after)).
  { now rewrite !escapeText_app. }
  split; [exact H|]. unfold KokoroEngine.generateKokoroScript. now rewrite H.
Qed.

Ltac appends := repeat (rewrite append_cons in * || rewrite append_nil in * ).

Lemma escaped_quote (text pre post : string) :
  KokoroEngine.escapeText text = pre +:+ String (ascii_of_N 34) post ->
  exists pre', pre = pre' +:+ String (ascii_of_N 92) EmptyString.
Proof.
  revert pre. induction text as [|c text IH]; intros pre;
    cbn [KokoroEngine.escapeText].
  - destruct pre; discriminate.
  - destruct (Ascii.eqb c (ascii_of_N 34)) eqn:Hq;
      [|destruct (Ascii.eqb c (ascii_of_N 10)) eqn:Hn].
    + destruct pre as [|p0 [|p1 pre]]; appends.
      * discriminate.
      * intros [= <- _]. now exists EmptyString.
      * intros [= <- <- H]. destruct (IH _ H) as [pre' ->].
        eexists (String _ (String _ pre')). reflexivity.
    + destruct pre as [|p0 [|p1 pre]]; appends.
      * discriminate.
      * discriminate.
      * intros [= <- <- H]. destruct (IH _ H) as [pre' ->].
        eexists (String _ (String _ pre')). reflexivity.
    + destruct pre as [|p0 pre]; appends.
      * intros [= -> _]. discriminate.
      * intros [= <- H]. destruct (IH _ H) as [pre' ->].
        eexists (String _ pre'). reflexivity.
Qed.

(** X8. The text that [generateKokoroScript] puts between the triple
    quotes holds no line feed, and every double quote in it comes
    right after a backslash. *)
Theorem escaped_text_quotes_and_line_feeds (text : string) :
  JS.every (fun c => negb (Ascii.eqb c (ascii_of_N 10)))
            (KokoroEngine.escapeText text) = true
  /\ (forall pre post,
        KokoroEngine.escapeText text = pre +:+ JS.dquote +:+ post ->
        exists pre', pre = pre' +:+ String (ascii_of_N 92) EmptyString).
Proof.
  split.
  - induction text as [|c text IH]; [reflexivity|]. cbn [KokoroEngine.escapeText].
    destruct (Ascii.eqb c (ascii_of_N 34)) eqn:Hq.
    + apply Ascii.eqb_eq in Hq. subst c. cbn [JS.every]. now rewrite IH.
    + destruct (Ascii.eqb c (ascii_of_N 10)) eqn:Hn; cbn [JS.every].
      * now rewrite IH.
      * now rewrite Hn, IH.
  - intros pre post. apply escaped_quote.
Qed.

(** A text with two double quotes. *)
Lemma escaped_text_quotes_and_line_feeds_witness :
  KokoroEngine.escapeText ("say " +:+ JS.dquote +:+ "hi" +:+ JS.dquote)
  = "say " +:+ String (ascii_of_N 92) JS.dquote +:+ "hi"
    +:+ String (ascii_of_N 92) JS.dquote
  /\ exists pre',
       "say " +:+ String (ascii_of_N 92) EmptyString
       = pre' +:+ String (ascii_of_N 92) EmptyString.
Proof.
  split; [reflexivity|].
  exact (proj2 (escaped_text_quotes_and_line_feeds
                  ("say " +:+ JS.dquote +:+ "hi" +:+ JS.dquote))
           ("say " +:+ String (ascii_of_N 92) EmptyString)
           ("hi" +:+ String (ascii_of_N 92) JS.dquote) eq_refl).
Defined.

(** ** The search for Python *)

Lemma firstWorking_found (w : World) (cs : list string) (executable : string) :
  KokoroEngine.firstWorking w cs = Ok executable ->
  exists earlier later,
    cs = (earlier ++ executable :: later)%list
    /\ KokoroEngine.testPythonExecutable w executable = Ok tt
    /\ forall e, In e earlier -> KokoroEngine.testPythonExecutable w e <> Ok tt.
Proof.
  induction cs as [|c cs IH]; cbn [KokoroEngine.firstWorking]; [discriminate|].
  destruct (KokoroEngine.testPythonExecutable w c) as [[]|e0] eqn:Hc.
  - intros [= <-]. exists [], cs. split; [reflexivity|]. split; [exact Hc|].
    intros e [].
  - intros H. destruct (IH H) as (earlier & later & -> & Hok & Hbefore).
    exists (c :: earlier), later. split; [reflexivity|]. split; [exact Hok|].
    intros e [<-|Hin]; [congruence | now apply Hbefore].
Qed.

Lemma firstWorking_none (w : World) (cs : list string) (e : Exn) :
  KokoroEngine.firstWorking w cs = Throw e ->
  e = Error "No Python executable works. Install miniconda3 at /opt/miniconda3/ or set PYTHON_EXECUTABLE."
  /\ forall c, In c cs -> KokoroEngine.testPythonExecutable w c <> Ok tt.
Proof.
  induction cs as [|c cs IH]; cbn [KokoroEngine.firstWorking].
  - intros [= <-]. split; [reflexivity|]. intros c [].
  - destruct (KokoroEngine.testPythonExecutable w c) as [[]|e0] eqn:Hc; [discriminate|].
    intros H. destruct (IH H) as [-> Hall]. split; [reflexivity|].
    intros c' [<-|Hin]; [congruence | now apply Hall].
Qed.

Lemma findPythonExecutable_firstWorking (w : World) :
  KokoroEngine.findPythonExecutable w
  = KokoroEngine.firstWorking w (pythonSearchOrder w).
Proof.
  unfold KokoroEngine.findPythonExecutable, pythonSearchOrder.
  cbn [KokoroEngine.firstWorking].
  destruct (KokoroEngine.testPythonExecutable w KokoroEngine.KNOWN_WORKING_PYTHON)
    as [[]|e0]; [reflexivity|].
  destruct (JS.truthy (env_PYTHON_EXECUTABLE w)) as [fromEnv|]; [|reflexivity].
  cbn [app KokoroEngine.firstWorking].
  now destruct (KokoroEngine.testPythonExecutable w fromEnv) as [[]|e1].
Qed.

(** X5. [findPythonExecutable] returns the first executable that
    passes the version probe, in the order: the hard-coded miniconda
    path, the PYTHON_EXECUTABLE of the environment when it is set, then
    the three fallback candidates. So the hard-coded path, when it
    works, wins over PYTHON_EXECUTABLE; and the search throws exactly
    when no executable of the list passes. *)
Theorem python_discovery_order (w : World) :
  (forall executable,
     KokoroEngine.findPythonExecutable w = Ok executable <->
     exists earlier later,
       pythonSearchOrder w = (earlier ++ executable :: later)%list
       /\ KokoroEngine.testPythonExecutable w executable = Ok tt
       /\ forall e, In e earlier -> KokoroEngine.testPythonExecutable w e <> Ok tt)
  /\ (KokoroEngine.testPythonExecutable w KokoroEngine.KNOWN_WORKING_PYTHON = Ok tt ->
      KokoroEngine.findPythonExecutable w = Ok KokoroEngine.KNOWN_WORKING_PYTHON)
  /\ ((forall e, In e (pythonSearchOrder w) ->
                 KokoroEngine.testPythonExecutable w e <> Ok tt) <->
      exists error, KokoroEngine.findPythonExecutable w = Throw error).
Proof.
  rewrite findPythonExecutable_firstWorking. split; [|split].
  - intros executable. split; [apply firstWorking_found|].
    intros (earlier & later & -> & Hok & Hbefore).
    induction earlier as [|c earlier IH]; cbn [app KokoroEngine.firstWorking].
    + now rewrite Hok.
    + destruct (KokoroEngine.testPythonExecutable w c) as [[]|e0] eqn:Hc.
      * exfalso. apply (Hbefore c); [now left | exact Hc].
      * apply IH. intros e Hin. apply Hbefore. now right.
  - intros Hok. unfold pythonSearchOrder. cbn [KokoroEngine.firstWorking].
    now rewrite Hok.
  - split.
    + intros Hall.
      destruct (KokoroEngine.firstWorking w (pythonSearchOrder w)) as [exe|error] eqn:H;
        [|eauto].
      apply firstWorking_found in H as (earlier & later & Heq & Hok & _).
      exfalso. apply (Hall exe); [|exact Hok]. rewrite Heq. apply in_elt.
    + intros [error H]. now apply firstWorking_none in H as [_ Hall].
Qed.

(** ** Voice lists of the engines *)

Lemma kokoro_listVoices_outcome (w : World) (this : KokoroEngine.t) :
  exists voices this',
    KokoroEngine.listVoices w this = (Ok voices, this')
    /\ voices = KokoroEngine.voices this'
    /\ (KokoroEngine.initialized this = true -> this' = this)
    /\ (KokoroEngine.initialized this' = true
        \/ KokoroEngine.voices this' = KokoroEngine.voices this).
Proof.
  unfold KokoroEngine.listVoices. run.
  destruct (KokoroEngine.initialized this) eqn:Hinit.
  - exists (KokoroEngine.voices this), this. auto.
  - destruct (kokoro_initialize_outcome w this) as (this' & -> & Hout).
    exists (KokoroEngine.voices this'), this'.
    split; [reflexivity|]. split; [reflexivity|]. split; [discriminate|].
    destruct Hout as [H|[_ H]]; auto.
Qed.

Lemma macos_listVoices_outcome (w : World) (this : MacOSEngine.t) :
  (exists this',
     MacOSEngine.listVoices w this = (Ok (MacOSEngine.voices this'), this')
     /\ MacOSEngine.initialized this' = true
     /\ (MacOSEngine.initialized this = true -> this' = this))
  \/ (exists message cause,
        MacOSEngine.listVoices w this
        = (Throw (TTSError message ENGINE_NOT_AVAILABLE (Some "macos") cause),
           this)
        /\ MacOSEngine.initialized this = false).
Proof.
  unfold MacOSEngine.listVoices. run.
  destruct (MacOSEngine.initialized this) eqn:Hinit.
  - left. exists this. auto.
  - destruct (macos_initialize_outcome w this)
      as [(this' & -> & Hi) | (m & c & -> & _)].
    + left. exists this'. split; [reflexivity|]. split; [exact Hi | discriminate].
    + right. eauto.
Qed.

(** X7. [listVoices] initializes the engine when it is not initialized,
    and only then. [listVoices] of the Kokoro engine never throws: it
    returns the voices that the engine holds after this lazy
    initialization, which are its former ones when the initialization
    fails. [listVoices] of the macOS engine returns the voices of the
    engine that [initialize] has initialized, or throws the
    EngineNotAvailable of [initialize] and leaves the engine as it
    was. On an initialized engine both return the voices it holds and
    leave the engine unchanged. *)
Theorem list_voices_contract (w : World) :
  (forall this : KokoroEngine.t,
     exists voices this',
       KokoroEngine.listVoices w this = (Ok voices, this')
       /\ this' = (if KokoroEngine.initialized this then this
                   else snd (KokoroEngine.initialize w this))
       /\ voices = KokoroEngine.voices this'
       /\ (KokoroEngine.initialized this = true -> this' = this)
       /\ (KokoroEngine.initialized this' = true
           \/ KokoroEngine.voices this' = KokoroEngine.voices this))
  /\ (forall this : MacOSEngine.t,
        (exists this',
           MacOSEngine.listVoices w this = (Ok (MacOSEngine.voices this'), this')
           /\ MacOSEngine.initialized this' = true
           /\ (MacOSEngine.initialized this = true -> this' = this)
           /\ (MacOSEngine.initialized this = false ->
               MacOSEngine.initialize w this = (Ok tt, this')))
        \/ (exists message cause,
              MacOSEngine.listVoices w this
              = (Throw (TTSError message ENGINE_NOT_AVAILABLE (Some "macos") cause),
                 this)
              /\ MacOSEngine.initialized this = false
              /\ MacOSEngine.initialize w this
                 = (Throw (TTSError message ENGINE_NOT_AVAILABLE (Some "macos") cause),
                    this))).
Proof.
  split; intros this.
  - destruct (kokoro_listVoices_outcome w this)
      as (voices & this' & Heq & Hv & Hsame & Hor).
    exists voices, this'. split; [exact Heq|]. split; [|auto].
    revert Heq. unfold KokoroEngine.listVoices. run.
    destruct (KokoroEngine.initialized this).
    + now intros [= _ <-].
    + destruct (kokoro_initialize_outcome w this) as (this2 & -> & _).
      cbn [fst snd]. now intros [= _ <-].
  - unfold MacOSEngine.listVoices. run.
    destruct (MacOSEngine.initialized this) eqn:Hinit.
    + left. exists this. split; [reflexivity|]. split; [exact Hinit|].
      split; [reflexivity | discriminate].
    + destruct (macos_initialize_outcome w this)
        as [(this' & -> & Hi) | (m & c & -> & _)].
      * left. exists this'. split; [reflexivity|]. split; [exact Hi|].
        split; [discriminate | reflexivity].
      * right. exists m, c. split; [reflexivity|]. split; reflexivity.
Qed.

(** A host on which every Python answers: the hard-coded one is taken. *)
Lemma python_discovery_order_witness :
  KokoroEngine.findPythonExecutable Scenario.mac_failing
  = Ok KokoroEngine.KNOWN_WORKING_PYTHON.
Proof.
  apply (proj1 (proj2 (python_discovery_order Scenario.mac_failing))).
  reflexivity.
Defined.

(** A fresh Kokoro engine on a host with Kokoro: [listVoices]
    initializes it and returns the 21 voices of the catalog. And a fresh
    macOS engine on a host that is no Mac: [listVoices] throws. *)
Lemma list_voices_contract_witness :
  fst (KokoroEngine.listVoices Scenario.kokoro_working Scenario.kokoro_fresh)
  = Ok KokoroEngine.catalog
  /\ length KokoroEngine.catalog = 21%nat
  /\ KokoroEngine.voices Scenario.kokoro_fresh = []
  /\ KokoroEngine.initialized
       (snd (KokoroEngine.listVoices Scenario.kokoro_working Scenario.kokoro_fresh))
     = true
  /\ thrown_code (fst (MacOSEngine.listVoices Scenario.linux Scenario.mac_fresh))
     = Some ENGINE_NOT_AVAILABLE.
Proof.
  destruct (proj1 (list_voices_contract Scenario.kokoro_working) Scenario.kokoro_fresh)
    as (voices & this' & Heq & Hthis & Hvoices & _).
  rewrite Heq. cbn [fst snd]. subst voices this'.
  split; [reflexivity|]. split; [reflexivity|]. split; [reflexivity|].
  split; [reflexivity|].
  destruct (proj2 (list_voices_contract Scenario.linux) Scenario.mac_fresh)
    as [(this' & _ & _ & _ & Hinit) | (m & c & Heq' & _)].
  - specialize (Hinit eq_refl). discriminate Hinit.
  - rewrite Heq'. reflexivity.
Defined.

(** ** More on the playback controller *)

Section Replay.
Import AudioPlayer.

Ltac player := cbv [kill update spawn setMostRecentFile]; run.

(** X15. [pause] of a playing child and then [resume] bring the player
    back to the state it was in; SIGSTOP and then SIGCONT have been sent
    to the child, and in between [getStatus] reports [paused]. *)
Theorem pause_then_resume (h : Host) (child : nat) :
  currentProcess (this h) = Some child ->
  isPaused (this h) = false ->
  exists paused resumed,
    pause h
    = (Ok {| message := "Audio playback paused"; status := "paused";
             file := None |}, paused)
    /\ status_status (getStatus (this paused)) = "paused"
    /\ resume paused
       = (Ok {| message := "Audio playback resumed"; status := "playing";
                file := None |}, resumed)
    /\ this resumed = this h
    /\ spawned resumed = spawned h
    /\ signals resumed = (child, SIGCONT) :: (child, SIGSTOP) :: signals h.
Proof.
  intros Hcur Hp. unfold pause. run. rewrite Hcur, Hp. player.
  eexists. eexists. split; [reflexivity|].
  unfold resume, getStatus. run. cbn. rewrite Hcur. player.
  split; [reflexivity|]. split; [reflexivity|]. cbn.
  split; [|auto]. destruct h as [[cur paused file recent] n sigs]. cbn in *.
  now subst.
Qed.

(** X16. With no tracked child, [pause] and [stop] change nothing and
    reply [stopped]. [resume], when no child is tracked or the child is
    not paused, changes nothing and replies with the status that
    [getStatus] reports. *)
Theorem requests_without_effect (h : Host) :
  (currentProcess (this h) = None ->
   pause h = (Ok {| message := "No active playback to pause";
                    status := "stopped"; file := None |}, h)
   /\ stop h = (Ok {| message := "No active playback to stop";
                      status := "stopped"; file := None |}, h))
  /\ (currentProcess (this h) = None \/ isPaused (this h) = false ->
      resume h = (Ok {| message := "No paused playback to resume";
                        status := status_status (getStatus (this h));
                        file := None |}, h)).
Proof.
  split.
  - intros Hcur. unfold pause, stop. run. now rewrite Hcur.
  - intros H. unfold resume, getStatus. run. cbn.
    destruct (currentProcess (this h)) as [child|].
    + destruct H as [H|H]; [discriminate|]. now rewrite H.
    + now destruct (isPaused (this h)).
Qed.

Lemma play_succeeds (h : Host) (audioPath : option string)
    (filePath : string) :
  JS.truthy (JS.or (JS.truthy audioPath) (mostRecentFile (this h))) = Some filePath ->
  exists h',
    play audioPath true h
    = (Ok {| message := "Started playing audio file"; status := "playing";
             file := Some filePath |}, h')
    /\ this h' = {| currentProcess := Some (spawned h); isPaused := false;
                    currentFile := Some filePath;
                    mostRecentFile := mostRecentFile (this h) |}
    /\ spawned h' = S (spawned h)
    /\ signals h'
       = match currentProcess (this h) with
         | Some previous => (previous, SIGTERM) :: signals h
         | None => signals h
         end.
Proof.
  intros Hfile. unfold play. run. rewrite Hfile. unfold stop. run.
  destruct (currentProcess (this h)) as [previous|]; player;
    eexists; (split; [reflexivity|]); cbn; auto.
Qed.

(** X14. [play] of a file that is given or remembered first stops
    what is playing: it sends SIGTERM to the tracked child, if any,
    spawns a new child and tracks it with the file, not paused. It
    leaves [mostRecentFile] as it was. *)
Theorem play_replaces_current (h : Host) (audioPath : option string)
    (filePath : string) :
  JS.truthy (JS.or (JS.truthy audioPath) (mostRecentFile (this h))) = Some filePath ->
  exists h',
    play audioPath true h
    = (Ok {| message := "Started playing audio file"; status := "playing";
             file := Some filePath |}, h')
    /\ this h' = {| currentProcess := Some (spawned h); isPaused := false;
                    currentFile := Some filePath;
                    mostRecentFile := mostRecentFile (this h) |}
    /\ spawned h' = S (spawned h)
    /\ signals h'
       = match currentProcess (this h) with
         | Some previous => (previous, SIGTERM) :: signals h
         | None => signals h
         end.
Proof. apply play_succeeds. Qed.

(** X17. Only [setMostRecentFile] changes [mostRecentFile]: no
    request ([play] included) and no ['close'] event does. *)
Theorem most_recent_file_is_kept (st : Step) (h : Host) :
  (forall filePath, st <> most_recent filePath) ->
  mostRecentFile (this (step st h)) = mostRecentFile (this h).
Proof.
  intros Hst. destruct st as [audioPath [| | |] spawn_ok | | filePath];
    cbn [step playAudio].
  - unfold play. run.
    destruct (JS.truthy (JS.or (JS.truthy audioPath) (mostRecentFile (this h))));
      [|reflexivity].
    unfold stop. run.
    destruct (currentProcess (this h)); destruct spawn_ok; player; reflexivity.
  - unfold pause. run.
    destruct (currentProcess (this h)); [destruct (isPaused (this h))|];
      player; reflexivity.
  - unfold stop. run. destruct (currentProcess (this h)); player; reflexivity.
  - unfold resume. run.
    destruct (currentProcess (this h)); destruct (isPaused (this h));
      player; reflexivity.
  - unfold onClose. player. reflexivity.
  - now destruct (Hst filePath).
Qed.

Lemma step_children_known (st : Step) (h : Host) :
  children_known h -> children_known (step st h).
Proof.
  intros [Hcur Hsig].
  destruct st as [audioPath [| | |] spawn_ok | | filePath]; cbn [step playAudio].
  - unfold play. run.
    destruct (JS.truthy (JS.or (JS.truthy audioPath) (mostRecentFile (this h))));
      [|now split].
    unfold stop. run.
    destruct (currentProcess (this h)) as [previous|] eqn:Hp;
      destruct spawn_ok; player; split; cbn.
    all: try (intros child [= <-]; lia).
    all: try (intros child [=]; fail).
    all: try (rewrite Hp; exact Hcur).
    all: intros child sig Hin.
    all: try (destruct Hin as [[= <- <-]|Hin]; [specialize (Hcur _ eq_refl); lia|]).
    all: specialize (Hsig _ _ Hin); lia.
  - unfold pause. run.
    destruct (currentProcess (this h)) as [c|] eqn:Hp;
      [destruct (isPaused (this h))|]; player; split; cbn;
      try rewrite Hp; try exact Hcur; try exact Hsig; try discriminate.
    intros child sig [[= <- <-]|Hin]; [now apply Hcur | now apply (Hsig _ sig)].
  - unfold stop. run.
    destruct (currentProcess (this h)) as [c|] eqn:Hp; player; split; cbn;
      try rewrite Hp; try exact Hcur; try exact Hsig; try discriminate.
    intros child sig [[= <- <-]|Hin]; [now apply Hcur | now apply (Hsig _ sig)].
  - unfold resume. run.
    destruct (currentProcess (this h)) as [c|] eqn:Hp;
      destruct (isPaused (this h)); player; split; cbn;
      try rewrite Hp; try exact Hcur; try exact Hsig; try discriminate.
    intros child sig [[= <- <-]|Hin]; [now apply Hcur | now apply (Hsig _ sig)].
  - unfold onClose. player. split; cbn; [discriminate | exact Hsig].
  - player. split; cbn; [exact Hcur | exact Hsig].
Qed.

Lemma reachable_children_known (h : Host) : reachable h -> children_known h.
Proof.
  induction 1 as [|st h _ IH].
  - split; cbn; [discriminate | intros child sig []].
  - now apply step_children_known.
Qed.

(** X18. [play] while a child is playing sends SIGTERM to that child
    and tracks a new one. When the ['close'] event of a child then
    arrives, its listener clears the player whichever child is tracked:
    the status is [stopped], the new child has been sent no signal, and
    [pause], [stop] and [resume] change nothing from then on. *)
Theorem stale_close_orphans_new_playback (h : Host) (previous : nat)
    (filePath : string) :
  reachable h ->
  currentProcess (this h) = Some previous ->
  filePath <> EmptyString ->
  exists playing,
    play (Some filePath) true h
    = (Ok {| message := "Started playing audio file"; status := "playing";
             file := Some filePath |}, playing)
    /\ currentProcess (this playing) = Some (spawned h)
    /\ spawned h <> previous
    /\ In (previous, SIGTERM) (signals playing)
    /\ status_status (getStatus (this (step child_closed playing))) = "stopped"
    /\ (forall sig, ~ In (spawned h, sig) (signals (step child_closed playing)))
    /\ (forall action,
          action <> action_play ->
          step (request None action true) (step child_closed playing)
          = step child_closed playing).
Proof.
  intros Hr Hcur Hne.
  destruct (reachable_children_known h Hr) as [Hc Hs].
  destruct (play_succeeds h (Some filePath) filePath)
    as (playing & Hplay & Hthis & Hn & Hsig).
  { destruct filePath; [congruence | reflexivity]. }
  rewrite Hcur in Hsig. exists playing. split; [exact Hplay|].
  split; [now rewrite Hthis|].
  split; [specialize (Hc _ Hcur); lia|].
  split; [rewrite Hsig; now left|].
  cbn [step]. unfold onClose. player.
  split; [reflexivity|]. cbn. rewrite Hsig.
  split.
  - intros sig [[= Heq _]|Hin].
    + specialize (Hc _ Hcur). lia.
    + specialize (Hs _ _ Hin). lia.
  - intros [| | |] Ha; [congruence| | |]; cbn [playAudio];
      unfold pause, stop, resume; run; cbn; reflexivity.
Qed.
End Replay.

(** [play] of a second file while the first is playing. *)
Lemma play_replaces_current_witness :
  exists h',
    AudioPlayer.play (Some "/out/b.aiff") true Scenario.playing
    = (Ok {| AudioPlayer.message := "Started playing audio file";
             AudioPlayer.status := "playing";
             AudioPlayer.file := Some "/out/b.aiff" |}, h')
    /\ AudioPlayer.signals h' = [(0%nat, AudioPlayer.SIGTERM)]
    /\ AudioPlayer.currentProcess (AudioPlayer.this h') = Some 1%nat.
Proof.
  destruct (play_replaces_current Scenario.playing (Some "/out/b.aiff")
              "/out/b.aiff" eq_refl) as (h' & Hplay & Hthis & _ & Hsig).
  exists h'. split; [exact Hplay|]. split; [exact Hsig|]. now rewrite Hthis.
Defined.

(** The player after [play] of a file. *)
Lemma pause_then_resume_witness :
  exists paused resumed,
    AudioPlayer.pause Scenario.playing
    = (Ok {| AudioPlayer.message := "Audio playback paused";
             AudioPlayer.status := "paused"; AudioPlayer.file := None |}, paused)
    /\ AudioPlayer.resume paused
       = (Ok {| AudioPlayer.message := "Audio playback resumed";
                AudioPlayer.status := "playing"; AudioPlayer.file := None |},
          resumed)
    /\ AudioPlayer.this resumed = AudioPlayer.this Scenario.playing.
Proof.
  destruct (pause_then_resume Scenario.playing 0%nat eq_refl eq_refl)
    as (paused & resumed & Hp & _ & Hr & Hthis & _).
  exists paused, resumed. auto.
Defined.

(** [pause] on the new player, and [resume] on a player that is
    playing. *)
Lemma requests_without_effect_witness :
  AudioPlayer.pause AudioPlayer.instance
  = (Ok {| AudioPlayer.message := "No active playback to pause";
           AudioPlayer.status := "stopped"; AudioPlayer.file := None |},
     AudioPlayer.instance)
  /\ AudioPlayer.resume Scenario.playing
     = (Ok {| AudioPlayer.message := "No paused playback to resume";
              AudioPlayer.status := "playing"; AudioPlayer.file := None |},
        Scenario.playing).
Proof.
  split.
  - exact (proj1 (proj1 (requests_without_effect AudioPlayer.instance) eq_refl)).
  - exact (proj2 (requests_without_effect Scenario.playing) (or_intror eq_refl)).
Defined.

(** [play] of a file on the new player. *)
Lemma most_recent_file_is_kept_witness :
  AudioPlayer.mostRecentFile (AudioPlayer.this Scenario.playing) = None.
Proof.
  exact (most_recent_file_is_kept
           (AudioPlayer.request (Some "/out/a.aiff") AudioPlayer.action_play true)
           AudioPlayer.instance ltac:(discriminate)).
Defined.

(** [play] of a second file while the first is playing, then the
    ['close'] event of the first child. *)
Lemma stale_close_orphans_new_playback_witness :
  exists playing,
    AudioPlayer.play (Some "/out/b.aiff") true Scenario.playing
    = (Ok {| AudioPlayer.message := "Started playing audio file";
             AudioPlayer.status := "playing";
             AudioPlayer.file := Some "/out/b.aiff" |}, playing)
    /\ AudioPlayer.status_status
         (AudioPlayer.getStatus
            (AudioPlayer.this (AudioPlayer.step AudioPlayer.child_closed playing)))
       = "stopped"
    /\ forall sig,
         ~ In (1%nat, sig)
              (AudioPlayer.signals (AudioPlayer.step AudioPlayer.child_closed playing)).
Proof.
  destruct (stale_close_orphans_new_playback Scenario.playing 0%nat "/out/b.aiff")
    as (playing & Hplay & _ & _ & _ & Hstatus & Hnone & _).
  - apply AudioPlayer.reachable_step, AudioPlayer.reachable_instance.
  - reflexivity.
  - discriminate.
  - exists playing. auto.
Defined.

(** ** The outcomes of a synthesis *)

(** X4. What [synthesize] of the macOS engine does once the engine is
    initialized, the text has passed the checks and the voice is
    resolved. It fails with FileOperationFailed when the output
    directory cannot be made, with SynthesisFailed when [say] cannot be
    spawned, exits with another code than 0 or leaves no output file,
    and with Timeout when [say] has not exited when the timer fires; it
    returns the path and the size of the output file when [say] exits
    with code 0 and the file is there. *)
Theorem macos_synthesis_outcomes (w : World) (request : SynthesisRequest.t)
    (voice : Voice.t) (this this1 : MacOSEngine.t) (files : Files)
    (outcome : Result AudioResult.t * (MacOSEngine.t * Files)) :
  MacOSEngine.initialize w this = (Ok tt, this1) ->
  isBlank (SynthesisRequest.text request) = false ->
  JS.length (SynthesisRequest.text request) <= 50000 ->
  MacOSEngine.resolveVoice this1 (SynthesisRequest.voice request) = Ok (Some voice) ->
  outcome = MacOSEngine.synthesize w request (this, files) ->
  (mkdir_ok w (MacOSEngine.outputDir this1) = false ->
   thrown_code (fst outcome) = Some FILE_OPERATION_FAILED)
  /\ (mkdir_ok w (MacOSEngine.outputDir this1) = true ->
      (forall message,
         say_run w (say_arguments w this1 request voice)
         = ChildProcess.spawn_failed message ->
         thrown_code (fst outcome) = Some SYNTHESIS_FAILED)
      /\ (forall events,
            say_run w (say_arguments w this1 request voice)
            = ChildProcess.spawned events ->
            (exit_of EmptyString EmptyString events = None ->
             thrown_code (fst outcome) = Some TIMEOUT)
            /\ (forall code out err,
                  exit_of EmptyString EmptyString events = Some (code, out, err) ->
                  code <> Some 0 ->
                  thrown_code (fst outcome) = Some SYNTHESIS_FAILED)
            /\ (forall out err,
                  exit_of EmptyString EmptyString events = Some (Some 0, out, err) ->
                  match
                    child_files w files
                    !! MacOSEngine.outputPath w this1 voice
                         (SynthesisRequest.text request)
                  with
                  | None => thrown_code (fst outcome) = Some SYNTHESIS_FAILED
                  | Some content =>
                      exists result,
                        outcome = (Ok result, (this1, child_files w files))
                        /\ AudioResult.filePath result
                           = MacOSEngine.outputPath w this1 voice
                               (SynthesisRequest.text request)
                        /\ AudioResult.size result = JS.length content
                  end))).
Proof.
  intros Hinit Hblank Hlen Hvoice ->.
  rewrite (macos_synthesize_attempt w request voice this this1 files
             Hinit Hblank Hlen Hvoice).
  rewrite macos_attempt_exact, macos_try_block.
  split; [intros H; rewrite H
         |intros H; rewrite H; split;
          [intros message Hrun; rewrite Hrun|intros events Hrun; rewrite Hrun]].
  - auto.
  - auto.
  - split; [|split].
    + intros ->. auto.
    + intros code out err -> Hcode.
      destruct code as [[|p|p]|]; try congruence; auto.
    + intros out err ->.
      destruct (child_files w files !! _) as [content|] eqn:Hop.
      * eexists. split; [reflexivity|]. split; reflexivity.
      * reflexivity.
Qed.

(** X10. What [synthesize] of the Kokoro engine does once the text has
    passed the checks and the voice is resolved. It fails with
    FileOperationFailed when the output directory cannot be made, with
    SynthesisFailed when the script cannot be written, with
    EngineNotAvailable when no Python executable is known or the child
    cannot be spawned, with Timeout when the child has not exited when
    the timer fires, and with SynthesisFailed when the child exits with
    another code than 0 or without the marker. *)
Theorem kokoro_synthesis_outcomes (w : World) (request : SynthesisRequest.t)
    (voice : Voice.t) (this this1 : KokoroEngine.t) (files : Files)
    (outcome : Result AudioResult.t * (KokoroEngine.t * Files)) :
  KokoroEngine.initialize w this = (Ok tt, this1) ->
  isBlank (SynthesisRequest.text request) = false ->
  JS.length (SynthesisRequest.text request) <= 50000 ->
  KokoroEngine.resolveVoice this1 (SynthesisRequest.voice request) = Ok (Some voice) ->
  outcome = KokoroEngine.synthesize w request (this, files) ->
  (mkdir_ok w (KokoroEngine.outputDir this1) = false ->
   thrown_code (fst outcome) = Some FILE_OPERATION_FAILED)
  /\ (mkdir_ok w (KokoroEngine.outputDir this1) = true ->
      (writeFile_ok w (KokoroEngine.scriptPath w this1) = false ->
       thrown_code (fst outcome) = Some SYNTHESIS_FAILED)
      /\ (writeFile_ok w (KokoroEngine.scriptPath w this1) = true ->
          (JS.truthy (KokoroEngine.pythonExecutable this1) = None ->
           thrown_code (fst outcome) = Some ENGINE_NOT_AVAILABLE)
          /\ (forall executable,
                JS.truthy (KokoroEngine.pythonExecutable this1) = Some executable ->
                (forall message,
                   python_run w executable (KokoroEngine.scriptPath w this1)
                   = ChildProcess.spawn_failed message ->
                   thrown_code (fst outcome) = Some ENGINE_NOT_AVAILABLE)
                /\ (forall events,
                      python_run w executable (KokoroEngine.scriptPath w this1)
                      = ChildProcess.spawned events ->
                      (exit_of EmptyString EmptyString events = None ->
                       thrown_code (fst outcome) = Some TIMEOUT)
                      /\ (forall code out err,
                            exit_of EmptyString EmptyString events
                            = Some (code, out, err) ->
                            code <> Some 0 \/ JS.includes out "SUCCESS" = false ->
                            thrown_code (fst outcome) = Some SYNTHESIS_FAILED))))).
Proof.
  intros Hinit Hblank Hlen Hvoice ->.
  rewrite (kokoro_synthesize_attempt w request voice this this1 files
             Hinit Hblank Hlen Hvoice).
  rewrite kokoro_attempt_exact, kokoro_try_block.
  split; [intros H; rewrite H; reflexivity | intros H; rewrite H].
  split; [intros H1; rewrite H1; reflexivity | intros H1; rewrite H1].
  split; [intros H2; rewrite H2; reflexivity | intros executable H2; rewrite H2].
  split; [intros message H3; rewrite H3; reflexivity | intros events H3; rewrite H3].
  split; [intros H4; rewrite H4; reflexivity | intros code out err H4 Hbad; rewrite H4].
  assert (Hclose : KokoroEngine.onSynthesisClose code out err
                   = Throw (TTSError ("Kokoro synthesis failed (exit code "
                                      +:+ JS.showCode code +:+ "):" +:+ JS.newline
                                      +:+ "STDOUT: " +:+ out +:+ JS.newline
                                      +:+ "STDERR: " +:+ err)
                                     SYNTHESIS_FAILED (Some "kokoro") None)).
  { unfold KokoroEngine.onSynthesisClose.
    destruct Hbad as [Hcode|Hinc].
    - destruct code as [[|p|p]|]; try congruence; reflexivity.
    - rewrite Hinc, andb_false_r. reflexivity. }
  rewrite Hclose. reflexivity.
Qed.

(** The [say] child exits with code 1. *)
Lemma macos_synthesis_outcomes_witness :
  thrown_code (fst (MacOSEngine.synthesize Scenario.mac_failing Scenario.hello
                      (Scenario.mac_fresh, ∅)))
  = Some SYNTHESIS_FAILED.
Proof.
  destruct (macos_synthesis_outcomes Scenario.mac_failing Scenario.hello
              Scenario.alex Scenario.mac_fresh Scenario.mac_ready ∅ _
              eq_refl eq_refl ltac:(vm_compute; discriminate) eq_refl eq_refl)
    as [_ Hmkdir].
  destruct (Hmkdir eq_refl) as [_ Hrun].
  destruct (Hrun [ChildProcess.stderr_data "Voice not ready";
                  ChildProcess.close (Some 1)] eq_refl) as (_ & Hexit & _).
  exact (Hexit (Some 1) EmptyString "Voice not ready" eq_refl ltac:(discriminate)).
Defined.

(** The Python child exits with code 0 without the marker. *)
Lemma kokoro_synthesis_outcomes_witness :
  thrown_code (fst (KokoroEngine.synthesize Scenario.silent Scenario.hello
                      (Scenario.kokoro_ready, ∅)))
  = Some SYNTHESIS_FAILED.
Proof.
  destruct (kokoro_synthesis_outcomes Scenario.silent Scenario.hello
              Scenario.af_sarah Scenario.kokoro_ready Scenario.kokoro_ready ∅ _
              eq_refl eq_refl ltac:(vm_compute; discriminate) eq_refl eq_refl)
    as [_ Hmkdir].
  destruct (Hmkdir eq_refl) as [_ Hwrite].
  destruct (Hwrite eq_refl) as [_ Hpython].
  destruct (Hpython KokoroEngine.KNOWN_WORKING_PYTHON eq_refl) as [_ Hrun].
  destruct (Hrun [ChildProcess.stdout_data "Pipeline initialized successfully";
                  ChildProcess.close (Some 0)] eq_refl) as [_ Hexit].
  exact (Hexit (Some 0) "Pipeline initialized successfully" EmptyString eq_refl
           (or_intror eq_refl)).
Defined.

Lemma or_find_head_In {A : Type} (f : A -> bool) (l : list A) (v : A) :
  JS.or (find f l) (head l) = Some v -> In v l.
Proof.
  unfold JS.or. destruct (find f l) as [x|] eqn:Hfind.
  - intros [= <-]. now apply find_some in Hfind.
  - destruct l as [|x l]; [discriminate|]. intros [= <-]. now left.
Qed.

Lemma macos_resolved_In (this : MacOSEngine.t) (requested : option string)
    (v : Voice.t) :
  MacOSEngine.resolveVoice this requested = Ok (Some v) ->
  In v (MacOSEngine.voices this).
Proof.
  unfold MacOSEngine.resolveVoice. destruct (JS.truthy requested) as [r|].
  - destruct (find _ _) as [x|] eqn:Hfind; [|discriminate].
    intros [= <-]. now apply find_some in Hfind.
  - intros [= H]. now apply or_find_head_In in H.
Qed.

Lemma kokoro_resolved_In (this : KokoroEngine.t) (requested : option string)
    (v : Voice.t) :
  KokoroEngine.resolveVoice this requested = Ok (Some v) ->
  In v (KokoroEngine.voices this).
Proof.
  unfold KokoroEngine.resolveVoice. destruct (JS.truthy requested) as [r|].
  - destruct (find _ _) as [x|] eqn:Hfind; [|discriminate].
    intros [= <-]. now apply find_some in Hfind.
  - intros [= H]. now apply or_find_head_In in H.
Qed.

(** How a [synthesize] that returns got there. *)
Lemma macos_synthesize_returns (w : World) (request : SynthesisRequest.t)
    (this : MacOSEngine.t) (files : Files) (a : AudioResult.t)
    (s' : MacOSEngine.t * Files) :
  MacOSEngine.synthesize w request (this, files) = (Ok a, s') ->
  exists this1 voice,
    MacOSEngine.initialize w this = (Ok tt, this1)
    /\ isBlank (SynthesisRequest.text request) = false
    /\ JS.length (SynthesisRequest.text request) <= 50000
    /\ MacOSEngine.resolveVoice this1 (SynthesisRequest.voice request)
       = Ok (Some voice)
    /\ MacOSEngine.attempt w request voice (this1, files) = (Ok a, s').
Proof.
  unfold MacOSEngine.synthesize.
  set (text := SynthesisRequest.text request).
  unfold bind at 1. unfold get at 1. unfold bind at 1. cbn [fst snd].
  rewrite macos_lazy_initialize.
  destruct (MacOSEngine.initialize w this) as [[[]|e0] this1] eqn:Hinit;
    cbn [fst snd]; [|discriminate].
  destruct (isBlank text) eqn:Hblank; [discriminate|].
  destruct (Z.ltb_spec 50000 (JS.length text)); [discriminate|].
  unfold bind at 1. unfold get at 1. unfold bind at 1. unfold await. cbn [fst].
  destruct (MacOSEngine.resolveVoice this1 _) as [[voice|]|e1] eqn:Hvoice;
    try discriminate.
  intros Hatt. exists this1, voice. split; [reflexivity|]. repeat split; auto; lia.
Qed.

Lemma kokoro_synthesize_returns (w : World) (request : SynthesisRequest.t)
    (this : KokoroEngine.t) (files : Files) (a : AudioResult.t)
    (s' : KokoroEngine.t * Files) :
  KokoroEngine.synthesize w request (this, files) = (Ok a, s') ->
  exists this1 voice,
    KokoroEngine.initialize w this = (Ok tt, this1)
    /\ isBlank (SynthesisRequest.text request) = false
    /\ JS.length (SynthesisRequest.text request) <= 50000
    /\ KokoroEngine.resolveVoice this1 (SynthesisRequest.voice request)
       = Ok (Some voice)
    /\ KokoroEngine.attempt w request voice (this1, files) = (Ok a, s').
Proof.
  unfold KokoroEngine.synthesize.
  set (text := SynthesisRequest.text request).
  unfold bind at 1. unfold get at 1. unfold bind at 1. cbn [fst snd].
  rewrite kokoro_lazy_initialize.
  destruct (kokoro_initialize_outcome w this) as (this1 & Hinit & _).
  rewrite Hinit. cbn [fst snd].
  destruct (isBlank text) eqn:Hblank; [discriminate|].
  destruct (Z.ltb_spec 50000 (JS.length text)); [discriminate|].
  unfold bind at 1. unfold get at 1. unfold bind at 1. unfold await. cbn [fst].
  destruct (KokoroEngine.resolveVoice this1 _) as [[voice|]|e1] eqn:Hvoice;
    try discriminate.
  intros Hatt. exists this1, voice. split; [reflexivity|]. repeat split; auto; lia.
Qed.

Lemma macos_result_details (w : World) (request : SynthesisRequest.t)
    (files : Files) (a : AudioResult.t) (this : MacOSEngine.t)
    (s' : MacOSEngine.t * Files) :
  MacOSEngine.synthesize w request (this, files) = (Ok a, s') ->
  MacOSEngine.initialized (fst s') = true
  /\ isBlank (SynthesisRequest.text request) = false
  /\ JS.length (SynthesisRequest.text request) <= 50000
  /\ AudioResult.format a = "aiff"
  /\ AudioResult.textLength (AudioResult.metadata a)
     = JS.length (SynthesisRequest.text request)
  /\ (exists voice,
        In voice (MacOSEngine.voices (fst s'))
        /\ AudioResult.voice (AudioResult.metadata a) = Voice.name voice
        /\ AudioResult.filePath a
           = MacOSEngine.outputPath w (fst s') voice (SynthesisRequest.text request))
  /\ (exists content,
        snd s' !! AudioResult.filePath a = Some content
        /\ AudioResult.size a = JS.length content).
Proof.
  intros Hsyn.
  apply macos_synthesize_returns in Hsyn
    as (this1 & voice & Hinit & Hblank & Hlen & Hvoice & Hatt).
  rewrite macos_attempt_exact, macos_try_block in Hatt.
  destruct (macos_initialize_outcome w this)
    as [(this2 & Hinit2 & Hi) | (m & c & Hthrow & _)]; [|congruence].
  assert (this2 = this1) by congruence. subst this2.
  destruct (mkdir_ok w _); [|discriminate].
  destruct (say_run w _) as [message|events]; [discriminate|].
  destruct (exit_of _ _ events) as [[[[[|p|p]|] out] err]|]; try discriminate.
  destruct (child_files w files !! _) as [content|] eqn:Hop; [|discriminate].
  injection Hatt as <- <-. cbn [fst snd AudioResult.format AudioResult.metadata
    AudioResult.textLength AudioResult.voice AudioResult.filePath AudioResult.size].
  repeat split; auto.
  - exists voice. split; [now apply macos_resolved_In in Hvoice | auto].
  - eauto.
Qed.

Lemma kokoro_result_details (w : World) (request : SynthesisRequest.t)
    (files : Files) (a : AudioResult.t) (this : KokoroEngine.t)
    (s' : KokoroEngine.t * Files) :
  KokoroEngine.synthesize w request (this, files) = (Ok a, s') ->
  isBlank (SynthesisRequest.text request) = false
  /\ JS.length (SynthesisRequest.text request) <= 50000
  /\ AudioResult.format a = "wav"
  /\ AudioResult.textLength (AudioResult.metadata a)
     = JS.length (SynthesisRequest.text request)
  /\ (exists voice,
        In voice (KokoroEngine.voices (fst s'))
        /\ AudioResult.voice (AudioResult.metadata a) = Voice.name voice
        /\ AudioResult.filePath a
           = KokoroEngine.outputPath w (fst s') voice
               (SynthesisRequest.text request))
  /\ (exists content,
        snd s' !! AudioResult.filePath a = Some content
        /\ AudioResult.size a = JS.length content)
  /\ snd s' !! KokoroEngine.scriptPath w (fst s') = None.
Proof.
  intros Hsyn.
  pose proof (kokoro_script_removed_on_success w request) as Hscript.
  apply kokoro_synthesize_returns in Hsyn
    as (this1 & voice & Hinit & Hblank & Hlen & Hvoice & Hatt).
  specialize (Hscript voice this1 files a s' Hatt).
  rewrite kokoro_attempt_exact, kokoro_try_block in Hatt.
  destruct (mkdir_ok w _); [|discriminate].
  destruct (writeFile_ok w _); [|discriminate].
  destruct (JS.truthy _) as [executable|]; [|discriminate].
  destruct (python_run w _ _) as [message|events]; [discriminate|].
  destruct (exit_of _ _ events) as [[[code out] err]|]; [|discriminate].
  destruct (KokoroEngine.onSynthesisClose code out err) as [[]|e]; [|discriminate].
  destruct (child_files w _ !! KokoroEngine.scriptPath w this1); [|discriminate].
  destruct (unlink_ok w _); [|discriminate].
  destruct (delete _ _ !! _) as [content|] eqn:Hop; [|discriminate].
  injection Hatt as <- <-. cbn [fst snd AudioResult.format AudioResult.metadata
    AudioResult.textLength AudioResult.voice AudioResult.filePath AudioResult.size] in *.
  repeat split; auto.
  - exists voice. split; [now apply kokoro_resolved_In in Hvoice | auto].
  - eauto.
Qed.

(** X12. When [synthesize] returns, the text was not blank and had at
    most 50,000 characters, the result names a voice of the engine and
    the output path made from it, the file at this path exists and has
    the size of the result, and the format is [aiff] (macOS engine) or
    [wav] (Kokoro engine); the macOS engine is initialized, and the
    script of the Kokoro engine is gone. *)
Theorem synthesis_result_describes_file (w : World) (request : SynthesisRequest.t)
    (files : Files) (a : AudioResult.t) :
  (forall (this : MacOSEngine.t) (s' : MacOSEngine.t * Files),
     MacOSEngine.synthesize w request (this, files) = (Ok a, s') ->
     MacOSEngine.initialized (fst s') = true
     /\ isBlank (SynthesisRequest.text request) = false
     /\ JS.length (SynthesisRequest.text request) <= 50000
     /\ AudioResult.format a = "aiff"
     /\ AudioResult.textLength (AudioResult.metadata a)
        = JS.length (SynthesisRequest.text request)
     /\ (exists voice,
           In voice (MacOSEngine.voices (fst s'))
           /\ AudioResult.voice (AudioResult.metadata a) = Voice.name voice
           /\ AudioResult.filePath a
              = MacOSEngine.outputPath w (fst s') voice (SynthesisRequest.text request))
     /\ (exists content,
           snd s' !! AudioResult.filePath a = Some content
           /\ AudioResult.size a = JS.length content))
  /\ (forall (this : KokoroEngine.t) (s' : KokoroEngine.t * Files),
        KokoroEngine.synthesize w request (this, files) = (Ok a, s') ->
        isBlank (SynthesisRequest.text request) = false
        /\ JS.length (SynthesisRequest.text request) <= 50000
        /\ AudioResult.format a = "wav"
        /\ AudioResult.textLength (AudioResult.metadata a)
           = JS.length (SynthesisRequest.text request)
        /\ (exists voice,
              In voice (KokoroEngine.voices (fst s'))
              /\ AudioResult.voice (AudioResult.metadata a) = Voice.name voice
              /\ AudioResult.filePath a
                 = KokoroEngine.outputPath w (fst s') voice
                     (SynthesisRequest.text request))
        /\ (exists content,
              snd s' !! AudioResult.filePath a = Some content
              /\ AudioResult.size a = JS.length content)
        /\ snd s' !! KokoroEngine.scriptPath w (fst s') = None).
Proof.
  split; intros this s'.
  - apply macos_result_details.
  - apply kokoro_result_details.
Qed.

(** The successful synthesis of the Kokoro engine. *)
Lemma synthesis_result_describes_file_witness :
  AudioResult.format
    {| AudioResult.filePath := Scenario.kokoro_out;
       AudioResult.format := "wav"; AudioResult.duration := None;
       AudioResult.size := 4;
       AudioResult.metadata :=
         {| AudioResult.voice := "AF_SARAH"; AudioResult.engine := "kokoro";
            AudioResult.textLength := 13; AudioResult.synthesisTime := 1044 |} |}
  = "wav"
  /\ ({[ Scenario.kokoro_out := "RIFF" ]} : Files) !! Scenario.kokoro_script = None.
Proof.
  pose proof (proj2 (synthesis_result_describes_file Scenario.kokoro_working
                       Scenario.hello ∅ _)
                Scenario.kokoro_ready
                (Scenario.kokoro_ready, {[ Scenario.kokoro_out := "RIFF" ]})
                kokoro_synthesis_succeeds)
    as (_ & _ & Hformat & _ & _ & _ & Hscript).
  split; [exact Hformat | exact Hscript].
Defined.

(** X13. The engines do not read the output format, the quality or the
    engine field of a request, and the Kokoro engine does not read the
    speed: requests with the same text and voice (and, for the macOS
    engine, the same speed) are synthesized alike. *)
Theorem engines_ignore_format_and_quality (w : World)
    (first second : SynthesisRequest.t) :
  SynthesisRequest.text first = SynthesisRequest.text second ->
  SynthesisRequest.voice first = SynthesisRequest.voice second ->
  (forall s, KokoroEngine.synthesize w first s = KokoroEngine.synthesize w second s)
  /\ (SynthesisRequest.speed first = SynthesisRequest.speed second ->
      forall s, MacOSEngine.synthesize w first s = MacOSEngine.synthesize w second s).
Proof.
  destruct first as [t1 v1 e1 f1 x1 q1], second as [t2 v2 e2 f2 x2 q2].
  cbn [SynthesisRequest.text SynthesisRequest.voice SynthesisRequest.speed].
  intros -> ->. split; [|intros ->]; intros s; reflexivity.
Qed.

Lemma firstWorking_nonempty (w : World) (cs : list string) (executable : string) :
  Forall (fun c => c <> EmptyString) cs ->
  KokoroEngine.firstWorking w cs = Ok executable -> executable <> EmptyString.
Proof.
  intros Hall H. apply firstWorking_found in H as (earlier & later & -> & _).
  apply Forall_app in Hall as [_ Hall]. now inversion Hall.
Qed.

Lemma found_python_truthy (w : World) (executable : string) :
  KokoroEngine.findPythonExecutable w = Ok executable ->
  JS.truthy (Some executable) = Some executable.
Proof.
  rewrite findPythonExecutable_firstWorking. intros H.
  apply truthy_nonempty. apply (firstWorking_nonempty w _ _) in H; [exact H|].
  unfold pythonSearchOrder. constructor; [discriminate|].
  apply Forall_app. split.
  - destruct (env_PYTHON_EXECUTABLE w) as [[|c e]|]; cbn [JS.truthy];
      constructor; [discriminate | constructor].
  - repeat constructor; discriminate.
Qed.

Lemma kokoro_initialize_exact (w : World) (this : KokoroEngine.t) :
  KokoroEngine.initialized this = false ->
  KokoroEngine.initialize w this
  = match KokoroEngine.findPythonExecutable w with
    | Ok executable =>
        match ChildProcess.promise KokoroEngine.onVerifyClose
                (Error "Kokoro verification timeout")
                (kokoro_check w executable) with
        | Ok _ =>
            (Ok tt,
             {| KokoroEngine.voices := KokoroEngine.catalog;
                KokoroEngine.initialized := true;
                KokoroEngine.outputDir := KokoroEngine.outputDir this;
                KokoroEngine.tempDir := KokoroEngine.tempDir this;
                KokoroEngine.pythonExecutable := Some executable |})
        | Throw _ => (Ok tt, KokoroEngine.set_pythonExecutable executable this)
        end
    | Throw _ => (Ok tt, this)
    end.
Proof.
  intros Hinit.
  unfold KokoroEngine.initialize, KokoroEngine.detectPythonEnvironment,
    KokoroEngine.verifyKokoroInstallation, KokoroEngine.loadVoices.
  run. rewrite Hinit.
  destruct (KokoroEngine.findPythonExecutable w) as [executable|e] eqn:Hfind;
    [|reflexivity].
  cbn [KokoroEngine.set_pythonExecutable KokoroEngine.pythonExecutable].
  rewrite (found_python_truthy w executable Hfind).
  now destruct (ChildProcess.promise _ _ _) as [[]|e].
Qed.

Lemma onVerifyClose_ok (code : option Z) (out err : string) :
  KokoroEngine.onVerifyClose code out err = Ok tt
  <-> code = Some 0 /\ JS.includes out "SUCCESS" = true.
Proof.
  unfold KokoroEngine.onVerifyClose.
  destruct code as [[|p|p]|]; cbn [andb];
    try (split; [discriminate | intros [? _]; discriminate]).
  destruct (JS.includes out "SUCCESS"); split; auto; try discriminate.
  intros [_ ?]; discriminate.
Qed.

(** X6. When [initialize] leaves an engine initialized. The Kokoro
    engine: exactly when a Python executable is found and the
    verification child exits with code 0 after printing [SUCCESS]; its
    catalog is then the built-in one and it remembers the executable.
    The macOS engine: exactly when the platform is [darwin], [which say]
    succeeds and the voice listing succeeds; its voices are then those
    of the listing. *)
Theorem initialize_succeeds_exactly_when (w : World) :
  (forall this : KokoroEngine.t,
     KokoroEngine.initialized this = false ->
     (KokoroEngine.initialized (snd (KokoroEngine.initialize w this)) = true <->
      exists executable out err,
        KokoroEngine.findPythonExecutable w = Ok executable
        /\ exit_of EmptyString EmptyString (kokoro_check w executable)
           = Some (Some 0, out, err)
        /\ JS.includes out "SUCCESS" = true)
     /\ (KokoroEngine.initialized (snd (KokoroEngine.initialize w this)) = true ->
         KokoroEngine.voices (snd (KokoroEngine.initialize w this))
         = KokoroEngine.catalog
         /\ exists executable,
              KokoroEngine.findPythonExecutable w = Ok executable
              /\ KokoroEngine.pythonExecutable
                   (snd (KokoroEngine.initialize w this)) = Some executable))
  /\ (forall this : MacOSEngine.t,
        MacOSEngine.initialized this = false ->
        (MacOSEngine.initialized (snd (MacOSEngine.initialize w this)) = true <->
         String.eqb (platform w) "darwin" = true /\ which_say w = true
         /\ exists voices, say_listing w = Some voices)
        /\ (MacOSEngine.initialized (snd (MacOSEngine.initialize w this)) = true ->
            say_listing w
            = Some (MacOSEngine.voices (snd (MacOSEngine.initialize w this))))).
Proof.
  split; intros this Hinit.
  - rewrite (kokoro_initialize_exact w this Hinit).
    destruct (KokoroEngine.findPythonExecutable w) as [executable|e] eqn:Hfind.
    + rewrite promise_exit.
      destruct (exit_of _ _ (kokoro_check w executable)) as [[[code out] err]|] eqn:Hexit.
      * destruct (KokoroEngine.onVerifyClose code out err) as [[]|e] eqn:Hclose;
          cbn [snd KokoroEngine.initialized KokoroEngine.voices
               KokoroEngine.pythonExecutable KokoroEngine.set_pythonExecutable].
        -- apply onVerifyClose_ok in Hclose as [-> Hinc].
           split; [split; [intros _; eauto 6 | reflexivity]|].
           intros _. split; [reflexivity|]. eauto.
        -- split; [split; [congruence|]|congruence].
           intros (exe & out' & err' & Hf & Hex & Hinc).
           injection Hf as <-. rewrite Hexit in Hex. injection Hex as -> -> ->.
           assert (KokoroEngine.onVerifyClose (Some 0) out' err' = Ok tt)
             by (apply onVerifyClose_ok; auto).
           congruence.
      * cbn [snd KokoroEngine.initialized KokoroEngine.set_pythonExecutable].
        split; [split; [congruence|]|congruence].
        intros (exe & out' & err' & Hf & Hex & _).
        injection Hf as <-. congruence.
    + cbn [snd]. split; [split; [congruence|]|congruence].
      intros (exe & _ & _ & Hex & _). discriminate.
  - unfold MacOSEngine.initialize, MacOSEngine.loadVoices. run. rewrite Hinit.
    destruct (String.eqb (platform w) "darwin"); cbn [negb snd].
    + destruct (which_say w); cbn [snd].
      * destruct (say_listing w) as [voices|]; cbn [snd MacOSEngine.initialized
          MacOSEngine.set_initialized MacOSEngine.set_voices MacOSEngine.voices].
        -- split; [split; eauto | reflexivity].
        -- split; [split; [congruence | intros (_ & _ & v & Hv); discriminate]
                  | congruence].
      * split; [split; [congruence | intros (_ & Hw & _); discriminate] | congruence].
    + split; [split; [congruence | intros (Hp & _); discriminate] | congruence].
Qed.

(** A request for [mp3] at speed 3 and high quality, and the plain one. *)
Lemma engines_ignore_format_and_quality_witness :
  KokoroEngine.synthesize Scenario.kokoro_working Scenario.hello_mp3
    (Scenario.kokoro_ready, ∅)
  = KokoroEngine.synthesize Scenario.kokoro_working Scenario.hello
      (Scenario.kokoro_ready, ∅).
Proof.
  exact (proj1 (engines_ignore_format_and_quality Scenario.kokoro_working
                  Scenario.hello_mp3 Scenario.hello eq_refl eq_refl)
           (Scenario.kokoro_ready, ∅)).
Defined.

(** The Kokoro engine on the Mac on which only [python] answers, and
    the macOS engine on a Mac. *)
Lemma initialize_succeeds_exactly_when_witness :
  KokoroEngine.initialized
    (snd (KokoroEngine.initialize Scenario.only_python Scenario.kokoro_fresh))
  = false
  /\ MacOSEngine.voices
       (snd (MacOSEngine.initialize Scenario.mac_failing Scenario.mac_fresh))
     = [Scenario.alex; Scenario.samantha].
Proof.
  split; [reflexivity|].
  pose proof (proj2 (proj2 (initialize_succeeds_exactly_when Scenario.mac_failing)
                       Scenario.mac_fresh eq_refl) eq_refl) as H.
  apply (f_equal (fun o => match o with Some v => v | None => [] end)) in H.
  symmetry. exact H.
Defined.

(** ** An engine that is registered and not initialized *)

Lemma kokoro_unavailable_synthesize (w : World) (request : SynthesisRequest.t)
    (this : KokoroEngine.t) (files : Files) :
  KokoroEngine.voices this = [] ->
  KokoroEngine.initialized (snd (KokoroEngine.initialize w this)) = false ->
  exists e,
    KokoroEngine.synthesize w request (this, files)
    = (Throw e, (snd (KokoroEngine.initialize w this), files))
    /\ (isBlank (SynthesisRequest.text request) = true ->
        e = TTSError "Text cannot be empty" INVALID_PARAMETERS (Some "kokoro") None)
    /\ (isBlank (SynthesisRequest.text request) = false ->
        50000 < JS.length (SynthesisRequest.text request) ->
        e = TTSError "Text too long for Kokoro TTS (max 50,000 characters)"
                     TEXT_TOO_LONG (Some "kokoro") None)
    /\ (isBlank (SynthesisRequest.text request) = false ->
        JS.length (SynthesisRequest.text request) <= 50000 ->
        match JS.truthy (SynthesisRequest.voice request) with
        | Some requested =>
            e = TTSError ("Voice " +:+ JS.dquote +:+ requested +:+ JS.dquote
                          +:+ " not found in Kokoro engine")
                         VOICE_NOT_FOUND (Some "kokoro") None
        | None =>
            e = Error "Cannot read properties of undefined (reading 'name')"
        end).
Proof.
  intros Hvoices Hfail.
  destruct (kokoro_initialize_outcome w this) as (this1 & Hinit & Hout).
  rewrite Hinit in *. cbn [snd] in *.
  destruct Hout as [Hi|[_ Hv]]; [congruence|]. rewrite Hvoices in Hv.
  unfold KokoroEngine.synthesize.
  set (text := SynthesisRequest.text request).
  unfold bind at 1. unfold get at 1. unfold bind at 1. cbn [fst snd].
  rewrite kokoro_lazy_initialize, Hinit. cbn [fst snd].
  destruct (isBlank text) eqn:Hblank.
  { eexists. split; [reflexivity|]. repeat split; intros; congruence. }
  destruct (Z.ltb_spec 50000 (JS.length text)).
  { eexists. split; [reflexivity|]. repeat split; intros; try congruence; lia. }
  unfold bind at 1. unfold get at 1. unfold bind at 1. unfold await. cbn [fst].
  unfold KokoroEngine.resolveVoice. rewrite Hv.
  destruct (JS.truthy (SynthesisRequest.voice request)) as [requested|] eqn:Hreq;
    cbn [find head JS.or]; unfold throw.
  - eexists. split; [reflexivity|]. repeat split; intros; try congruence; lia.
  - eexists. split; [reflexivity|]. repeat split; intros; try congruence; lia.
Qed.

(** X11. A Kokoro engine without voices whose initialization fails
    never synthesizes. It throws InvalidParameters for a blank text,
    TextTooLong for a text over 50,000 characters, VoiceNotFound when a
    voice is named, and, when the voice is omitted, the error of
    reading [name] of [undefined], which is no TTSError; the files are
    left as they were. *)
Theorem unavailable_kokoro_never_synthesizes (w : World)
    (request : SynthesisRequest.t) (this : KokoroEngine.t) (files : Files) :
  KokoroEngine.voices this = [] ->
  KokoroEngine.initialized (snd (KokoroEngine.initialize w this)) = false ->
  exists e,
    KokoroEngine.synthesize w request (this, files)
    = (Throw e, (snd (KokoroEngine.initialize w this), files))
    /\ (isBlank (SynthesisRequest.text request) = true ->
        e = TTSError "Text cannot be empty" INVALID_PARAMETERS (Some "kokoro") None)
    /\ (isBlank (SynthesisRequest.text request) = false ->
        50000 < JS.length (SynthesisRequest.text request) ->
        e = TTSError "Text too long for Kokoro TTS (max 50,000 characters)"
                     TEXT_TOO_LONG (Some "kokoro") None)
    /\ (isBlank (SynthesisRequest.text request) = false ->
        JS.length (SynthesisRequest.text request) <= 50000 ->
        match JS.truthy (SynthesisRequest.voice request) with
        | Some requested =>
            e = TTSError ("Voice " +:+ JS.dquote +:+ requested +:+ JS.dquote
                          +:+ " not found in Kokoro engine")
                         VOICE_NOT_FOUND (Some "kokoro") None
        | None =>
            e = Error "Cannot read properties of undefined (reading 'name')"
        end).
Proof. apply kokoro_unavailable_synthesize. Qed.

(** ** The tools on the server *)

Section Fallback.
Import Server.
Variable w : World.

(** X21. [auto] does not fall back on a Kokoro engine that is
    registered but cannot be initialized: the call fails, whatever the
    registry holds under [macos], with the macOS engine, the files and
    the player untouched; for a text that is not blank and no voice
    given the payload is the internal error of reading [name] of
    [undefined]. *)
Theorem auto_does_not_fall_back (params : SynthesizeText.Params)
    (validated : SynthesizeText.SynthesizeTextParams)
    (engines : gmap string Engine) (s : Server.t) :
  SynthesizeText.parse params = Some validated ->
  SynthesizeText.engine validated = pref_auto ->
  engines !! "kokoro" = Some kokoroEngine ->
  KokoroEngine.voices (kokoro s) = [] ->
  KokoroEngine.initialized (snd (KokoroEngine.initialize w (kokoro s))) = false ->
  exists response s',
    synthesize_text w params engines s = (Ok response, s')
    /\ (forall result, response <> SynthesizeText.success result)
    /\ macos s' = macos s /\ files s' = files s /\ audioPlayer s' = audioPlayer s
    /\ (isBlank (SynthesizeText.text validated) = false ->
        JS.truthy (SynthesizeText.voice validated) = None ->
        response
        = SynthesizeText.internal_error
            "Cannot read properties of undefined (reading 'name')").
Proof.
  intros Hparse Hauto Hreg Hvoices Hfail.
  unfold synthesize_text, SynthesizeText.synthesizeTextHandler. rewrite Hparse.
  unfold SynthesizeText.requireEngine, SynthesizeText.selectEngine.
  rewrite Hauto, Hreg. cbn [JS.or].
  unfold tryCatch, bind at 1, await. cbn [engine_synthesize].
  set (request := {| SynthesisRequest.text := _ |}).
  destruct (kokoro_unavailable_synthesize w request (kokoro s) (files s)
              Hvoices Hfail) as (e & Hsyn & Hb & Hlong & Hrest).
  unfold bind at 1, on_kokoro. rewrite Hsyn.
  pose proof (parse_accepts params validated Hparse) as [[_ Hlen] _].
  destruct e as [m|m c g o]; unfold ret; do 2 eexists;
    (split; [reflexivity|]); cbn [macos files audioPlayer];
    (split; [discriminate|]); repeat (split; [now destruct s|]).
  - intros Hblank Hv. specialize (Hrest Hblank Hlen).
    cbn [SynthesisRequest.voice request] in Hrest. rewrite Hv in Hrest.
    now injection Hrest as ->.
  - intros Hblank Hv. specialize (Hrest Hblank Hlen).
    cbn [SynthesisRequest.voice request] in Hrest. rewrite Hv in Hrest. discriminate.
Qed.
End Fallback.

(** A fresh Kokoro engine on the host without Python. *)
Lemma unavailable_kokoro_never_synthesizes_witness :
  KokoroEngine.synthesize Scenario.linux Scenario.hello (Scenario.kokoro_fresh, ∅)
  = (Throw (Error "Cannot read properties of undefined (reading 'name')"),
     (Scenario.kokoro_fresh, ∅)).
Proof.
  destruct (unavailable_kokoro_never_synthesizes Scenario.linux Scenario.hello
              Scenario.kokoro_fresh ∅ eq_refl eq_refl)
    as (e & Heq & _ & _ & Hvoice).
  rewrite Heq.
  rewrite (Hvoice eq_refl ltac:(vm_compute; discriminate)). reflexivity.
Defined.

(** A Mac on which only [python] answers: the Kokoro engine cannot be
    initialized, the macOS engine is ready, and the call fails. *)
Lemma auto_does_not_fall_back_witness :
  fst (Server.synthesize_text Scenario.only_python Scenario.hello_params
         Scenario.both Scenario.server)
  = Ok (SynthesizeText.internal_error
          "Cannot read properties of undefined (reading 'name')")
  /\ MacOSEngine.initialized (Server.macos Scenario.server) = true.
Proof.
  destruct (auto_does_not_fall_back Scenario.only_python Scenario.hello_params
              Scenario.hello_validated Scenario.both Scenario.server
              eq_refl eq_refl eq_refl eq_refl eq_refl)
    as (response & s' & Heq & _ & _ & _ & _ & Hresponse).
  rewrite Heq. cbn [fst]. split; [|reflexivity].
  now rewrite (Hresponse eq_refl eq_refl).
Defined.

Section Startup.
Import Server.
Variable w : World.
Variable x : Execa.

(** X23. The registry that [initializeEngines] builds. Every engine is
    registered under its own name. [macos] is registered exactly when
    the platform is [darwin], [which say] succeeds and the voice listing
    succeeds, and the engine is then initialized with the voices of the
    listing. [kokoro] is registered exactly when [isAvailable] of the
    Kokoro engine holds, whether or not its [initialize] has
    initialized it. *)
Theorem startup_registry (outputDir tempDir : string)
    (engines : gmap string Engine) (macosObject : MacOSEngine.t)
    (kokoroObject : KokoroEngine.t) :
  initializeEngines w x outputDir tempDir = (engines, (macosObject, kokoroObject)) ->
  (forall key engine, engines !! key = Some engine -> key = engine_name engine)
  /\ (engines !! "macos" = Some macosEngine <->
      String.eqb (platform w) "darwin" = true /\ which_say w = true
      /\ exists voices, say_listing w = Some voices)
  /\ (engines !! "macos" = Some macosEngine ->
      MacOSEngine.initialized macosObject = true
      /\ say_listing w = Some (MacOSEngine.voices macosObject))
  /\ (engines !! "kokoro" = Some kokoroEngine <-> KokoroEngine.isAvailable x = true)
  /\ kokoroObject
     = (if KokoroEngine.isAvailable x
        then snd (KokoroEngine.initialize w (KokoroEngine.new outputDir tempDir))
        else KokoroEngine.new outputDir tempDir).
Proof.
  unfold initializeEngines.
  destruct (kokoro_initialize_outcome w (KokoroEngine.new outputDir tempDir))
    as (k1 & Hk & _).
  rewrite Hk. cbn [snd].
  unfold MacOSEngine.isAvailable, MacOSEngine.initialize. run.
  cbn [MacOSEngine.initialized MacOSEngine.new].
  destruct (String.eqb (platform w) "darwin") eqn:Hp; cbn [andb negb].
  - destruct (which_say w) eqn:Hsay.
    + unfold MacOSEngine.loadVoices. run.
      destruct (say_listing w) as [voices|] eqn:Hl; cbn [fst snd].
      * destruct (KokoroEngine.isAvailable x); intros [= <- <- <-];
          (split; [intros key engine Hkey;
                   repeat (apply lookup_insert_Some in Hkey as [[<- <-]|[_ Hkey]];
                           [reflexivity|]);
                   now rewrite lookup_empty in Hkey|]);
          cbn; repeat split; eauto; try discriminate;
          try (intros _; reflexivity).
      * destruct (KokoroEngine.isAvailable x); intros [= <- <- <-];
          (split; [intros key engine Hkey;
                   repeat (apply lookup_insert_Some in Hkey as [[<- <-]|[_ Hkey]];
                           [reflexivity|]);
                   now rewrite lookup_empty in Hkey|]);
          cbn; repeat split; eauto; try discriminate;
          try (intros _; reflexivity);
          try (intros (_ & _ & v & Hv); discriminate).
    + destruct (KokoroEngine.isAvailable x); intros [= <- <- <-];
        (split; [intros key engine Hkey;
                 repeat (apply lookup_insert_Some in Hkey as [[<- <-]|[_ Hkey]];
                         [reflexivity|]);
                 now rewrite lookup_empty in Hkey|]);
        cbn; repeat split; eauto; try discriminate;
        try (intros _; reflexivity);
        try (intros (_ & Hw & _); discriminate).
  - destruct (KokoroEngine.isAvailable x); intros [= <- <- <-];
      (split; [intros key engine Hkey;
               repeat (apply lookup_insert_Some in Hkey as [[<- <-]|[_ Hkey]];
                       [reflexivity|]);
               now rewrite lookup_empty in Hkey|]);
      cbn; repeat split; eauto; try discriminate;
      try (intros _; reflexivity);
      try (intros (Hw & _); discriminate).
Qed.
End Startup.

(** On the Mac on which only [python] answers, [kokoro] is registered
    and not initialized. *)
Lemma startup_registry_witness :
  fst (Server.initializeEngines Scenario.only_python Scenario.only_python_execa
         "/out" "/tmp") !! "kokoro" = Some Server.kokoroEngine
  /\ KokoroEngine.initialized
       (snd (snd (Server.initializeEngines Scenario.only_python
                    Scenario.only_python_execa "/out" "/tmp"))) = false.
Proof.
  pose proof (startup_registry Scenario.only_python Scenario.only_python_execa
                "/out" "/tmp" _ _ _ eq_refl) as (_ & _ & _ & Hk & _).
  split; [apply Hk; reflexivity | reflexivity].
Defined.

Lemma path_join_nonempty (dir file : string) : path_join dir file <> EmptyString.
Proof. unfold path_join. destruct dir; discriminate. Qed.

Section Recent.
Import Server.
Variable w : World.

Lemma engine_result_path (engine : Engine) (request : SynthesisRequest.t)
    (s s' : Server.t) (a : AudioResult.t) :
  engine_synthesize w engine request s = (Ok a, s') ->
  AudioResult.filePath a <> EmptyString /\ audioPlayer s' = audioPlayer s
  /\ exists content, files s' !! AudioResult.filePath a = Some content
                     /\ AudioResult.size a = JS.length content.
Proof.
  destruct engine; cbn [engine_synthesize]; unfold on_macos, on_kokoro.
  - destruct (MacOSEngine.synthesize w request (macos s, files s))
      as [r [e fs]] eqn:Hsyn.
    intros [= -> <-]. cbn [audioPlayer files].
    apply macos_result_details in Hsyn
      as (_ & _ & _ & _ & _ & (voice & _ & _ & Hpath) & Hfile).
    split; [rewrite Hpath; apply path_join_nonempty | auto].
  - destruct (KokoroEngine.synthesize w request (kokoro s, files s))
      as [r [e fs]] eqn:Hsyn.
    intros [= -> <-]. cbn [audioPlayer files].
    apply kokoro_result_details in Hsyn
      as (_ & _ & _ & _ & (voice & _ & _ & Hpath) & Hfile & _).
    split; [rewrite Hpath; apply path_join_nonempty | auto].
Qed.

(** X22. After a successful [synthesize_text] the player remembers
    the file of the result, the file exists, and [play_audio] without
    a path plays it. *)
Theorem synthesized_file_is_playback_default (params : SynthesizeText.Params)
    (engines : gmap string Engine) (s s' : Server.t) (result : AudioResult.t)
    (zodError : string) :
  synthesize_text w params engines s = (Ok (SynthesizeText.success result), s') ->
  AudioPlayer.mostRecentFile (AudioPlayer.this (audioPlayer s'))
  = Some (AudioResult.filePath result)
  /\ (exists content,
        files s' !! AudioResult.filePath result = Some content
        /\ AudioResult.size result = JS.length content)
  /\ fst (play_audio zodError
            {| AudioPlayer.p_audioPath := None; AudioPlayer.p_action := None |} true s')
     = Ok {| AudioPlayer.message := "Started playing audio file";
             AudioPlayer.status := "playing";
             AudioPlayer.file := Some (AudioResult.filePath result) |}.
Proof.
  unfold synthesize_text, SynthesizeText.synthesizeTextHandler.
  destruct (SynthesizeText.parse params) as [validated|]; [|discriminate].
  unfold tryCatch, bind at 1, await.
  destruct (SynthesizeText.requireEngine _ engines) as [engine|e0].
  2:{ destruct e0; discriminate. }
  unfold bind at 1.
  match goal with |- context [engine_synthesize w engine ?r s] =>
    destruct (engine_synthesize w engine r s) as [[a|e1] s1] eqn:Hsyn end.
  2:{ destruct e1; discriminate. }
  apply engine_result_path in Hsyn as (Hne & Hplayer & Hfile).
  unfold bind, on_player, AudioPlayer.setMostRecentFile, AudioPlayer.update,
    modify, ret.
  intros [= <- <-]. cbn [audioPlayer files AudioPlayer.this AudioPlayer.mostRecentFile].
  split; [reflexivity|]. split; [exact Hfile|].
  unfold play_audio, on_player, AudioPlayer.playAudioHandler. cbn [audioPlayer].
  cbn [AudioPlayer.parse AudioPlayer.parseAction AudioPlayer.p_action AudioPlayer.p_audioPath
       AudioPlayer.audioPath AudioPlayer.action AudioPlayer.playAudio].
  unfold tryCatch.
  match goal with |- context [AudioPlayer.play None true ?h] =>
    destruct (play_succeeds h None (AudioResult.filePath a))
      as (h' & -> & _) end.
  { cbn. destruct (AudioResult.filePath a); [congruence | reflexivity]. }
  reflexivity.
Qed.
End Recent.

Section PlayHandler.
Import AudioPlayer.

(** X19. [playAudioHandler] either returns the reply of the player or
    throws a TTSError without engine tag whose code is FileNotFound or
    PlaybackFailed. An action outside the schema gives PlaybackFailed,
    and [play] with no path given and no file remembered gives
    FileNotFound; both leave the player as it was. *)
Theorem play_audio_failures (zodError : string) (params : AudioPlayer.Params)
    (spawn_ok : bool) (h : Host) :
  ((exists reply h',
      AudioPlayer.playAudioHandler zodError params spawn_ok h = (Ok reply, h'))
   \/ (exists message code h',
         AudioPlayer.playAudioHandler zodError params spawn_ok h
         = (Throw (TTSError message code None None), h')
         /\ (code = FILE_NOT_FOUND \/ code = PLAYBACK_FAILED)))
  /\ (AudioPlayer.parse params = None ->
      AudioPlayer.playAudioHandler zodError params spawn_ok h
      = (Throw (TTSError ("Audio playback failed: " +:+ zodError)
                         PLAYBACK_FAILED None None), h))
  /\ (forall validated,
        AudioPlayer.parse params = Some validated ->
        AudioPlayer.action validated = action_play ->
        JS.truthy (JS.or (JS.truthy (AudioPlayer.audioPath validated))
                         (mostRecentFile (this h))) = None ->
        AudioPlayer.playAudioHandler zodError params spawn_ok h
        = (Throw (TTSError "No audio file specified and no recent file available"
                           FILE_NOT_FOUND None None), h)).
Proof.
  unfold AudioPlayer.playAudioHandler. split; [|split].
  - destruct (AudioPlayer.parse params) as [validated|].
    + unfold tryCatch.
      destruct (AudioPlayer.action validated); cbn [playAudio].
      * unfold play. run.
        destruct (JS.truthy (JS.or _ _)) as [filePath|].
        -- unfold stop. run.
           destruct (currentProcess (this h)); destruct spawn_ok;
             cbv [kill update spawn]; run; eauto 10.
        -- right. eauto 10.
      * unfold pause. run.
        destruct (currentProcess (this h)); [destruct (isPaused (this h))|];
          cbv [kill update]; run; eauto.
      * unfold stop. run.
        destruct (currentProcess (this h)); cbv [kill update]; run; eauto.
      * unfold resume. run.
        destruct (currentProcess (this h)); destruct (isPaused (this h));
          cbv [kill update]; run; eauto.
    + right. run. eauto 10.
  - intros ->. reflexivity.
  - intros validated -> Haction Hfile. unfold tryCatch. rewrite Haction.
    cbn [playAudio]. unfold play. run. now rewrite Hfile.
Qed.
End PlayHandler.

(** A successful call on the server with both engines ready. *)
Lemma synthesized_file_is_playback_default_witness :
  AudioPlayer.mostRecentFile
    (AudioPlayer.this
       (Server.audioPlayer
          (snd (Server.synthesize_text Scenario.kokoro_working
                  Scenario.hello_params Scenario.both Scenario.ready_server))))
  = Some Scenario.kokoro_out.
Proof.
  assert (Hrun : exists result,
            Server.synthesize_text Scenario.kokoro_working Scenario.hello_params
              Scenario.both Scenario.ready_server
            = (Ok (SynthesizeText.success result),
               snd (Server.synthesize_text Scenario.kokoro_working
                      Scenario.hello_params Scenario.both Scenario.ready_server))
            /\ AudioResult.filePath result = Scenario.kokoro_out)
    by (eexists; split; vm_compute; reflexivity).
  destruct Hrun as (result & Hrun & Hpath).
  destruct (synthesized_file_is_playback_default Scenario.kokoro_working
              Scenario.hello_params Scenario.both Scenario.ready_server _
              result EmptyString Hrun) as (Hrecent & _).
  now rewrite Hrecent, Hpath.
Defined.

(** The action [rewind], and a call without path on the new player. *)
Lemma play_audio_failures_witness :
  AudioPlayer.playAudioHandler "Invalid enum value"
    {| AudioPlayer.p_audioPath := None; AudioPlayer.p_action := Some "rewind" |} true
    AudioPlayer.instance
  = (Throw (TTSError "Audio playback failed: Invalid enum value"
                     PLAYBACK_FAILED None None), AudioPlayer.instance)
  /\ AudioPlayer.playAudioHandler "Invalid enum value"
       {| AudioPlayer.p_audioPath := None; AudioPlayer.p_action := None |} true
       AudioPlayer.instance
     = (Throw (TTSError "No audio file specified and no recent file available"
                        FILE_NOT_FOUND None None), AudioPlayer.instance).
Proof.
  split.
  - exact (proj1 (proj2 (play_audio_failures "Invalid enum value"
                           {| AudioPlayer.p_audioPath := None;
                              AudioPlayer.p_action := Some "rewind" |} true
                           AudioPlayer.instance)) eq_refl).
  - exact (proj2 (proj2 (play_audio_failures "Invalid enum value"
                           {| AudioPlayer.p_audioPath := None; AudioPlayer.p_action := None |}
                           true AudioPlayer.instance))
             {| AudioPlayer.audioPath := None; AudioPlayer.action := AudioPlayer.action_play |}
             eq_refl eq_refl eq_refl).
Defined.

Lemma macos_attempt_throws_codes (w : World) (request : SynthesisRequest.t)
    (voice : Voice.t) (this : MacOSEngine.t) (files : Files) (e : Exn)
    (s' : MacOSEngine.t * Files) :
  MacOSEngine.attempt w request voice (this, files) = (Throw e, s') ->
  exists message code cause,
    e = TTSError message code (Some "macos") cause /\ In code failure_codes.
Proof.
  rewrite macos_attempt_exact, macos_try_block.
  destruct (mkdir_ok w _).
  - destruct (say_run w _) as [message|events].
    + intros [= <- _]. do 3 eexists. split; [reflexivity|]. cbn. tauto.
    + destruct (exit_of _ _ events) as [[[[[|p|p]|] out] err]|];
        try (intros [= <- _]; do 3 eexists; split; [reflexivity|]; cbn; tauto).
      destruct (child_files w files !! _); [discriminate|].
      intros [= <- _]. do 3 eexists. split; [reflexivity|]. cbn. tauto.
  - intros [= <- _]. do 3 eexists. split; [reflexivity|]. cbn. tauto.
Qed.

Lemma kokoro_attempt_throws_codes (w : World) (request : SynthesisRequest.t)
    (voice : Voice.t) (this : KokoroEngine.t) (files : Files) (e : Exn)
    (s' : KokoroEngine.t * Files) :
  KokoroEngine.attempt w request voice (this, files) = (Throw e, s') ->
  exists message code cause,
    e = TTSError message code (Some "kokoro") cause /\ In code failure_codes.
Proof.
  rewrite kokoro_attempt_exact, kokoro_try_block.
  destruct (mkdir_ok w _);
    [|intros [= <- _]; do 3 eexists; split; [reflexivity|]; cbn; tauto].
  destruct (writeFile_ok w _);
    [|intros [= <- _]; do 3 eexists; split; [reflexivity|]; cbn; tauto].
  destruct (JS.truthy _) as [executable|];
    [|intros [= <- _]; do 3 eexists; split; [reflexivity|]; cbn; tauto].
  destruct (python_run w _ _) as [message|events];
    [intros [= <- _]; do 3 eexists; split; [reflexivity|]; cbn; tauto|].
  destruct (exit_of _ _ events) as [[[code out] err]|];
    [|intros [= <- _]; do 3 eexists; split; [reflexivity|]; cbn; tauto].
  unfold KokoroEngine.onSynthesisClose.
  destruct (_ && _);
    [|intros [= <- _]; do 3 eexists; split; [reflexivity|]; cbn; tauto].
  destruct (child_files w _ !! KokoroEngine.scriptPath w this);
    [|intros [= <- _]; do 3 eexists; split; [reflexivity|]; cbn; tauto].
  destruct (unlink_ok w _);
    [|intros [= <- _]; do 3 eexists; split; [reflexivity|]; cbn; tauto].
  destruct (delete _ _ !! _); [discriminate|].
  intros [= <- _]. do 3 eexists. split; [reflexivity|]. cbn. tauto.
Qed.

Lemma macos_synthesize_throws_codes (w : World) (request : SynthesisRequest.t)
    (this : MacOSEngine.t) (files : Files) (e : Exn) (s' : MacOSEngine.t * Files) :
  JS.length (SynthesisRequest.text request) <= 50000 ->
  MacOSEngine.synthesize w request (this, files) = (Throw e, s') ->
  snd s' = files /\ e = Error "Cannot read properties of undefined (reading 'name')"
  \/ exists message code cause,
       e = TTSError message code (Some "macos") cause /\ In code failure_codes.
Proof.
  intros Hlen. unfold MacOSEngine.synthesize.
  set (text := SynthesisRequest.text request) in *.
  unfold bind at 1. unfold get at 1. unfold bind at 1. cbn [fst snd].
  rewrite macos_lazy_initialize.
  destruct (macos_initialize_outcome w this)
    as [(this1 & -> & _) | (m & c & -> & _)]; cbn [fst snd].
  2:{ intros [= <- _]. right. do 3 eexists. split; [reflexivity|]. cbn. tauto. }
  destruct (isBlank text).
  { intros [= <- _]. right. do 3 eexists. split; [reflexivity|]. cbn. tauto. }
  destruct (Z.ltb_spec 50000 (JS.length text)); [lia|].
  unfold bind at 1. unfold get at 1. unfold bind at 1. unfold await. cbn [fst].
  unfold MacOSEngine.resolveVoice.
  destruct (JS.truthy (SynthesisRequest.voice request)) as [requested|].
  - destruct (find _ _) as [voice|].
    + intros Hatt. right. now apply macos_attempt_throws_codes in Hatt.
    + intros [= <- _]. right. do 3 eexists. split; [reflexivity|]. cbn. tauto.
  - destruct (JS.or _ _) as [voice|].
    + intros Hatt. right. now apply macos_attempt_throws_codes in Hatt.
    + intros [= <- <-]. left. auto.
Qed.

Lemma kokoro_synthesize_throws_codes (w : World) (request : SynthesisRequest.t)
    (this : KokoroEngine.t) (files : Files) (e : Exn) (s' : KokoroEngine.t * Files) :
  JS.length (SynthesisRequest.text request) <= 50000 ->
  KokoroEngine.synthesize w request (this, files) = (Throw e, s') ->
  snd s' = files /\ e = Error "Cannot read properties of undefined (reading 'name')"
  \/ exists message code cause,
       e = TTSError message code (Some "kokoro") cause /\ In code failure_codes.
Proof.
  intros Hlen. unfold KokoroEngine.synthesize.
  set (text := SynthesisRequest.text request) in *.
  unfold bind at 1. unfold get at 1. unfold bind at 1. cbn [fst snd].
  rewrite kokoro_lazy_initialize. cbn [fst snd].
  destruct (isBlank text).
  { intros [= <- _]. right. do 3 eexists. split; [reflexivity|]. cbn. tauto. }
  destruct (Z.ltb_spec 50000 (JS.length text)); [lia|].
  unfold bind at 1. unfold get at 1. unfold bind at 1. unfold await. cbn [fst].
  unfold KokoroEngine.resolveVoice.
  destruct (JS.truthy (SynthesisRequest.voice request)) as [requested|].
  - destruct (find _ _) as [voice|].
    + intros Hatt. right. now apply kokoro_attempt_throws_codes in Hatt.
    + intros [= <- _]. right. do 3 eexists. split; [reflexivity|]. cbn. tauto.
  - destruct (JS.or _ _) as [voice|].
    + intros Hatt. right. now apply kokoro_attempt_throws_codes in Hatt.
    + intros [= <- <-]. left. auto.
Qed.

Section Responses.
Import Server.
Variable w : World.

(** X20. [synthesize_text] on the server always returns a payload. On
    success the file of the result exists with the size of the result.
    The report of invalid parameters is that of the schema, with
    nothing changed. A failure carries one of the codes
    EngineNotAvailable, InvalidParameters, VoiceNotFound,
    FileOperationFailed, SynthesisFailed, Timeout (never TextTooLong,
    the schema having stopped such a text), and without engine tag it
    is the missing engine. An internal error is the read of [name] of
    [undefined] by an engine without voices. *)
Theorem synthesize_text_responses (params : SynthesizeText.Params)
    (engines : gmap string Engine) (s : Server.t) :
  exists response s',
    synthesize_text w params engines s = (Ok response, s')
    /\ match response with
       | SynthesizeText.success result =>
           exists content,
             files s' !! AudioResult.filePath result = Some content
             /\ AudioResult.size result = JS.length content
       | SynthesizeText.invalid_parameters =>
           SynthesizeText.parse params = None /\ s' = s
       | SynthesizeText.failure message code engine =>
           In code failure_codes
           /\ audioPlayer s' = audioPlayer s
           /\ (engine = None -> code = ENGINE_NOT_AVAILABLE /\ s' = s)
       | SynthesizeText.internal_error message =>
           message = "Cannot read properties of undefined (reading 'name')"
           /\ files s' = files s /\ audioPlayer s' = audioPlayer s
       end.
Proof.
  unfold synthesize_text, SynthesizeText.synthesizeTextHandler.
  destruct (SynthesizeText.parse params) as [validated|] eqn:Hparse.
  2:{ do 2 eexists. split; [reflexivity|]. cbn. auto. }
  pose proof (parse_accepts params validated Hparse) as [[_ Hlen] _].
  unfold tryCatch, bind at 1, await.
  unfold SynthesizeText.requireEngine.
  destruct (SynthesizeText.selectEngine _ engines) as [engine|].
  2:{ do 2 eexists. split; [reflexivity|]. cbn. split; [tauto|]. split; auto. }
  unfold bind at 1.
  match goal with |- context [engine_synthesize w engine ?r s] =>
    set (request := r);
    destruct (engine_synthesize w engine request s) as [[a|e1] s1] eqn:Hsyn end.
  - apply engine_result_path in Hsyn as (_ & _ & Hfile).
    unfold bind, on_player, AudioPlayer.setMostRecentFile, AudioPlayer.update,
      modify, ret.
    do 2 eexists. split; [reflexivity|]. exact Hfile.
  - assert (Hcodes :
      (files s1 = files s
       /\ e1 = Error "Cannot read properties of undefined (reading 'name')"
       \/ exists message code cause tag,
            e1 = TTSError message code (Some tag) cause /\ In code failure_codes)
      /\ audioPlayer s1 = audioPlayer s).
    { destruct engine; cbn [engine_synthesize] in Hsyn;
        unfold on_macos, on_kokoro in Hsyn.
      - destruct (MacOSEngine.synthesize w request (macos s, files s))
          as [r [m fs]] eqn:Hm.
        injection Hsyn as -> <-. cbn [files audioPlayer]. split; [|reflexivity].
        apply macos_synthesize_throws_codes in Hm as [[<- ->]|(m0 & c & o & -> & Hc)];
          [left; auto | right; eauto 6 | exact Hlen].
      - destruct (KokoroEngine.synthesize w request (kokoro s, files s))
          as [r [k fs]] eqn:Hk.
        injection Hsyn as -> <-. cbn [files audioPlayer]. split; [|reflexivity].
        apply kokoro_synthesize_throws_codes in Hk as [[<- ->]|(m0 & c & o & -> & Hc)];
          [left; auto | right; eauto 6 | exact Hlen]. }
    destruct Hcodes as [[[Hf ->]|(m0 & c & o & tag & -> & Hc)] Hp];
      do 2 eexists; (split; [reflexivity|]); cbn; auto.
    split; [exact Hc|]. split; [exact Hp | discriminate].
Qed.
End Responses.

(** ** The voice list and the health check *)

Lemma split_first (sep : ascii) (s : string) :
  exists first rest, JS.split sep s = first :: rest.
Proof.
  induction s as [|c s (first & rest & IH)]; cbn [JS.split]; [eauto|].
  destruct (Ascii.eqb c sep); [eauto|]. rewrite IH. eauto.
Qed.

Lemma split_dash_first (rest : string) :
  hd EmptyString (JS.split "-" (String "-" rest)) = EmptyString.
Proof. reflexivity. Qed.

Lemma split_no_sep (sep : ascii) (s : string) :
  JS.every (fun c => negb (Ascii.eqb c sep)) s = true ->
  JS.split sep s = [s].
Proof.
  induction s as [|c s IH]; cbn [JS.every JS.split]; [reflexivity|].
  intros H. apply andb_true_iff in H as [Hc Hs].
  apply negb_true_iff in Hc. rewrite Hc, IH by exact Hs. reflexivity.
Qed.

Lemma split_app_sep (sep : ascii) (a b : string) :
  JS.every (fun c => negb (Ascii.eqb c sep)) a = true ->
  JS.split sep (a +:+ String sep b) = a :: JS.split sep b.
Proof.
  induction a as [|c a IH]; cbn [JS.every].
  - intros _. rewrite append_nil. cbn [JS.split]. now rewrite Ascii.eqb_refl.
  - intros H. apply andb_true_iff in H as [Hc Ha].
    apply negb_true_iff in Hc. rewrite append_cons. cbn [JS.split].
    rewrite Hc, IH by exact Ha. reflexivity.
Qed.

(** X24. The language filter of [list_voices] keeps every voice whose
    language starts with the part of the target before its first
    hyphen: the region of the target does not exclude a voice of the
    same primary language. *)
Theorem language_filter_ignores_region (primary region : string) (voice : Voice.t) :
  JS.every (fun c => negb (Ascii.eqb c "-")) primary = true ->
  JS.startsWith (JS.toLowerCase (Voice.language voice)) primary = true ->
  ListVoices.languageMatches (primary +:+ "-" +:+ region) voice = true.
Proof.
  intros Hprimary Hstarts. unfold ListVoices.languageMatches.
  change ("-" +:+ region) with (String "-"%char region).
  rewrite split_app_sep by exact Hprimary. cbn [hd].
  rewrite Hstarts. apply orb_true_r.
Qed.

Section Listing.
Import Server.
Variable w : World.
Variable x : Execa.

Lemma macos_listVoices_server (s : Server.t) :
  on_macos (on_this (MacOSEngine.listVoices w)) s
  = (fst (MacOSEngine.listVoices w (macos s)),
     {| macos := snd (MacOSEngine.listVoices w (macos s)); kokoro := kokoro s;
        files := files s; audioPlayer := audioPlayer s |}).
Proof.
  unfold on_macos, on_this. cbn [fst snd].
  now destruct (MacOSEngine.listVoices w (macos s)).
Qed.

Lemma kokoro_listVoices_server (s : Server.t) :
  on_kokoro (on_this (KokoroEngine.listVoices w)) s
  = (fst (KokoroEngine.listVoices w (kokoro s)),
     {| macos := macos s; kokoro := snd (KokoroEngine.listVoices w (kokoro s));
        files := files s; audioPlayer := audioPlayer s |}).
Proof.
  unfold on_kokoro, on_this. cbn [fst snd].
  now destruct (KokoroEngine.listVoices w (kokoro s)).
Qed.

Lemma registry_entries (engines : gmap string Engine) :
  (forall key engine, engines !! key = Some engine -> key = engine_name engine) ->
  entries engines
  = (match engines !! "macos" with Some _ => [("macos", macosEngine)] | None => [] end
     ++ match engines !! "kokoro" with
        | Some _ => [("kokoro", kokoroEngine)]
        | None => []
        end)%list.
Proof.
  intros Hwf. unfold entries.
  destruct (engines !! "macos") as [[]|] eqn:Hm;
    destruct (engines !! "kokoro") as [[]|] eqn:Hk; try reflexivity;
    try (apply Hwf in Hm; discriminate Hm);
    try (apply Hwf in Hk; discriminate Hk).
Qed.

(** X25. [list_voices] never fails on valid parameters. It lists, in
    the order of its sort, the voices that pass the language and gender
    filters among those of the registered engines that the engine
    filter selects and whose [listVoices] returns; an engine whose
    [listVoices] throws adds nothing. With a gender filter every listed
    voice has that gender. *)
Theorem list_voices_lists_selected_engines
    (sort : list Voice.t -> list Voice.t) (params : ListVoices.Params)
    (validated : ListVoices.ListVoicesParams) (engines : gmap string Engine)
    (s : Server.t) :
  (forall voices, Permutation (sort voices) voices) ->
  (forall key engine, engines !! key = Some engine -> key = engine_name engine) ->
  ListVoices.parse params = Some validated ->
  exists voices s',
    list_voices w sort params engines s = (Ok (ListVoices.success voices), s')
    /\ files s' = files s /\ audioPlayer s' = audioPlayer s
    /\ Permutation voices
         (ListVoices.applyFilters validated
            ((match engines !! "macos", ListVoices.engine validated with
              | Some _, (ListVoices.only_macos | ListVoices.all) =>
                  listed (fst (MacOSEngine.listVoices w (macos s)))
              | _, _ => []
              end)
             ++ (match engines !! "kokoro", ListVoices.engine validated with
                 | Some _, (ListVoices.only_kokoro | ListVoices.all) =>
                     listed (fst (KokoroEngine.listVoices w (kokoro s)))
                 | _, _ => []
                 end)))
    /\ (forall gender voice,
          ListVoices.gender validated = Some gender ->
          In voice voices -> Voice.gender voice = Some gender).
Proof.
  intros Hsort Hwf Hparse.
  unfold list_voices, ListVoices.listVoicesHandler. rewrite Hparse.
  rewrite (registry_entries engines Hwf).
  assert (Hgender : forall voices gender voice,
            ListVoices.gender validated = Some gender ->
            In voice (sort (ListVoices.applyFilters validated voices)) ->
            Voice.gender voice = Some gender).
  { intros voices gender voice Hg Hin.
    apply (Permutation_in _ (Hsort _)) in Hin.
    unfold ListVoices.applyFilters in Hin. rewrite Hg in Hin.
    apply filter_In in Hin as [_ Hin]. unfold ListVoices.genderMatches in Hin.
    destruct (Voice.gender voice) as [g|]; [|discriminate].
    destruct g, gender; try discriminate; reflexivity. }
  destruct (engines !! "macos") as [em|]; destruct (engines !! "kokoro") as [ek|];
    destruct (ListVoices.engine validated) eqn:Hfilter;
    cbn [app ListVoices.collect ListVoices.filterName String.eqb Ascii.eqb
         Bool.eqb orb engine_listVoices];
    run; rewrite ?macos_listVoices_server, ?kokoro_listVoices_server;
    cbn [fst snd macos kokoro files audioPlayer];
    repeat match goal with
    | |- context [match fst (MacOSEngine.listVoices w ?m) with _ => _ end] =>
        destruct (fst (MacOSEngine.listVoices w m)) as [mv|me]
    | |- context [match fst (KokoroEngine.listVoices w ?k) with _ => _ end] =>
        destruct (fst (KokoroEngine.listVoices w k)) as [kv|ke]
    end;
    cbn [fst snd macos kokoro files audioPlayer listed app];
    rewrite ?kokoro_listVoices_server; cbn [fst snd macos kokoro files audioPlayer];
    repeat match goal with
    | |- context [match fst (KokoroEngine.listVoices w ?k) with _ => _ end] =>
        destruct (fst (KokoroEngine.listVoices w k)) as [kv|ke]
    end;
    cbn [fst snd macos kokoro files audioPlayer listed app];
    do 2 eexists; (split; [reflexivity|]);
    cbn [files audioPlayer]; rewrite ?app_nil_r;
    (split; [reflexivity|]); (split; [reflexivity|]);
    (split; [apply Hsort | apply Hgender]).
Qed.



End Listing.

(** The target [en-gb] keeps a voice of language [en-us]. *)
Lemma language_filter_ignores_region_witness :
  ListVoices.languageMatches "en-gb" Scenario.af_sarah = true
  /\ Voice.language Scenario.af_sarah = "en-us".
Proof.
  split; [|reflexivity].
  exact (language_filter_ignores_region "en" "gb" Scenario.af_sarah eq_refl eq_refl).
Defined.

(** The female voices of language [en-gb], with a sort that leaves the
    order. *)
Lemma list_voices_lists_selected_engines_witness :
  exists voices,
    fst (Server.list_voices Scenario.kokoro_working (fun voices => voices)
           {| ListVoices.p_engine := None; ListVoices.p_language := Some "en-gb";
              ListVoices.p_gender := Some "female" |}
           Scenario.both Scenario.ready_server)
    = Ok (ListVoices.success voices)
    /\ forall voice, In voice voices -> Voice.gender voice = Some female.
Proof.
  destruct (list_voices_lists_selected_engines Scenario.kokoro_working
              (fun voices => voices)
              {| ListVoices.p_engine := None; ListVoices.p_language := Some "en-gb";
                 ListVoices.p_gender := Some "female" |}
              {| ListVoices.engine := ListVoices.all;
                 ListVoices.language := Some "en-gb";
                 ListVoices.gender := Some female |}
              Scenario.both Scenario.ready_server)
    as (voices & s' & Heq & _ & _ & _ & Hgender).
  - intros voices. apply Permutation_refl.
  - intros key engine Hkey. unfold Scenario.both in Hkey.
    apply lookup_insert_Some in Hkey as [[<- <-]|[_ Hkey]]; [reflexivity|].
    apply lookup_singleton_Some in Hkey as [<- <-]. reflexivity.
  - reflexivity.
  - exists voices. rewrite Heq. split; [reflexivity|].
    intros voice. now apply Hgender.
Defined.


(** ** The environment of the Python children *)

Lemma pythonpath_spread (env e : gmap string string) :
  e !! "PYTHONPATH" = env !! "PYTHONPATH" ->
  match JS.truthy (env !! "PYTHONPATH") with
  | Some pythonpath => <["PYTHONPATH" := pythonpath]> e
  | None => e
  end = e.
Proof.
  intros He. destruct (env !! "PYTHONPATH") as [[|c s]|] eqn:H; cbn; try reflexivity.
  apply insert_id. exact He.
Qed.

(** X27. The environment that [buildEnvironment] gives to the Python
    children of the availability check: the six variables it forces
    have their fixed values, PATH is that of the process or, when that
    is unset or empty, the default one, HOME and USER are always set,
    and every other variable of the process, PYTHONPATH among them, is
    handed on as it is. *)
Theorem child_environment (env : gmap string string) :
  (forall key value, In (key, value) KokoroEngine.forcedVariables ->
                     KokoroEngine.buildEnvironment env !! key = Some value)
  /\ (forall key,
        ~ In key (map fst KokoroEngine.forcedVariables) ->
        key <> "PATH" -> key <> "HOME" -> key <> "USER" ->
        KokoroEngine.buildEnvironment env !! key = env !! key)
  /\ KokoroEngine.buildEnvironment env !! "PYTHONPATH" = env !! "PYTHONPATH"
  /\ (exists path,
        KokoroEngine.buildEnvironment env !! "PATH" = Some path /\ path <> EmptyString
        /\ (forall p, env !! "PATH" = Some p -> p <> EmptyString -> path = p))
  /\ (forall key, key = "HOME" \/ key = "USER" ->
        KokoroEngine.buildEnvironment env !! key = Some (default EmptyString (env !! key))).
Proof.
  assert (Hout : forall key,
            ~ In key (map fst KokoroEngine.forcedVariables) ->
            key <> "PATH" -> key <> "HOME" -> key <> "USER" ->
            KokoroEngine.buildEnvironment env !! key = env !! key).
  { intros key Hk HP HH HU. cbn in Hk. unfold KokoroEngine.buildEnvironment; cbv zeta.
    rewrite pythonpath_spread by (now rewrite !lookup_insert_ne by discriminate).
    rewrite !lookup_insert_ne by (intros <-; tauto). reflexivity. }
  split; [|split; [exact Hout|split; [|split]]].
  - intros key value Hin. unfold KokoroEngine.buildEnvironment; cbv zeta.
    rewrite pythonpath_spread by (now rewrite !lookup_insert_ne by discriminate).
    cbn in Hin.
    repeat (destruct Hin as [[= <- <-]|Hin];
            [repeat (rewrite lookup_insert_ne by discriminate);
             now rewrite lookup_insert_eq|]).
    destruct Hin.
  - apply Hout; try discriminate. cbn. intros H.
    repeat (destruct H as [H|H]; [discriminate H|]). exact H.
  - exists (KokoroEngine.orString (env !! "PATH") "/opt/miniconda3/bin:/usr/bin:/bin").
    split; [|split].
    + unfold KokoroEngine.buildEnvironment; cbv zeta.
      repeat (rewrite lookup_insert_ne by discriminate).
      now rewrite lookup_insert_eq.
    + unfold KokoroEngine.orString. destruct (env !! "PATH") as [[|c s]|]; cbn; discriminate.
    + intros p -> Hp. unfold KokoroEngine.orString. destruct p; [contradiction|reflexivity].
  - intros key [-> | ->]; unfold KokoroEngine.buildEnvironment; cbv zeta;
      repeat (rewrite lookup_insert_ne by discriminate);
      rewrite lookup_insert_eq; f_equal; unfold KokoroEngine.orString.
    all: now destruct (env !! _) as [[|c s]|].
Qed.
